(** * Annotations_from_Tabbles: normalizer and reconciliation engine

    A shallow embedding of [src/Annotations_from_Tabbles.py]: the namespace
    resolver ([transformToMaprNamespace]), the shape normalizer
    ([split_data]) and the reconciliation engine ([annotateObject]) together
    with the store helpers they call.

    Conventions of the embedding.
    - A Python [str] is a [string]; each character is read as the code point
      of the same number (0..255), so [lower] and the regular expression
      class follow Python on that range.
    - A Python [dict] is an association list in insertion order with unique
      keys; [d[k] = v] is [dict_set], [k in d] is [dict_mem].
    - Exceptions are values of [exception]; code that can raise returns a
      [result].  Code that talks to the server is a function from [store]
      to a [result] and the [store] reached, also when it raises.
    - [getMaprNamespaces()] reads a configuration file and
      [DEFAULT_NAMESPACE] is a constant of the OMERO client library; both
      are parameters of the development. *)

From Stdlib Require Import String Ascii List ZArith Lia Bool Arith PeanoNat.
Import ListNotations.
Open Scope string_scope.
Open Scope list_scope.
Open Scope nat_scope.

(** ** Python strings *)

Definition code (c : ascii) : nat := nat_of_ascii c.

Definition is_ascii_upper (c : ascii) : bool :=
  (65 <=? code c) && (code c <=? 90).

Definition is_ascii_lower (c : ascii) : bool :=
  (97 <=? code c) && (code c <=? 122).

(** [\s] of a [str] pattern: the characters for which [str.isspace] holds. *)
Definition is_space (c : ascii) : bool :=
  let n := code c in
  ((9 <=? n) && (n <=? 13)) || ((28 <=? n) && (n <=? 32))
  || (n =? 133) || (n =? 160).

(** The character class [[a-zA-Z\s]]. *)
Definition in_class (c : ascii) : bool :=
  is_ascii_lower c || is_ascii_upper c || is_space c.

(** [str.lower] on one character, for the code points 0..255.  Python
    strings hold further characters, some of which [str.lower] sends to
    ASCII letters though they are outside the class of the regular
    expression (the Kelvin sign, U+212A, is lowered to k); statements
    that compare strings up to case do so for the ASCII letters only. *)
Definition lower_char (c : ascii) : ascii :=
  let n := code c in
  if is_ascii_upper c then ascii_of_nat (n + 32)
  else if (192 <=? n) && (n <=? 222) && negb (n =? 215)
       then ascii_of_nat (n + 32)
       else c.

Fixpoint lower (s : string) : string :=
  match s with
  | EmptyString => EmptyString
  | String c s' => String (lower_char c) (lower s')
  end.

(** [s.startswith(p)] *)
Definition startswith (p s : string) : bool := String.prefix p s.

(** [a in b] on strings: [a] occurs in [b] as a substring. *)
Fixpoint str_in (a b : string) : bool :=
  String.prefix a b ||
  match b with
  | EmptyString => false
  | String _ b' => str_in a b'
  end.

(** The longest prefix of [s] made of characters of the class. *)
Fixpoint span_class (s : string) : string :=
  match s with
  | EmptyString => EmptyString
  | String c s' => if in_class c then String c (span_class s') else EmptyString
  end.

(** [re.search(r"[a-zA-Z\s]{3,}", s)]: [None] when nothing matches,
    otherwise the text of the leftmost match, which is greedy. *)
Fixpoint re_search_letters (s : string) : option string :=
  match s with
  | EmptyString => None
  | String _ s' =>
      let run := span_class s in
      if 3 <=? String.length run then Some run else re_search_letters s'
  end.

(** ** Python dicts with string keys *)

Definition dict (V : Type) : Type := list (string * V).

Fixpoint dict_get {V} (d : dict V) (k : string) : option V :=
  match d with
  | [] => None
  | (k', v) :: d' => if String.eqb k k' then Some v else dict_get d' k
  end.

Definition dict_mem {V} (d : dict V) (k : string) : bool :=
  match dict_get d k with Some _ => true | None => false end.

Fixpoint dict_set {V} (d : dict V) (k : string) (v : V) : dict V :=
  match d with
  | [] => [(k, v)]
  | (k', v') :: d' =>
      if String.eqb k k' then (k', v) :: d' else (k', v') :: dict_set d' k v
  end.

(** [x in l] for a list of strings and for a list of [[key, value]] lists. *)
Definition list_mem (x : string) (l : list string) : bool :=
  existsb (String.eqb x) l.

Definition pair_eqb (p q : string * string) : bool :=
  String.eqb (fst p) (fst q) && String.eqb (snd p) (snd q).

Definition pair_mem (p : string * string) (l : list (string * string)) : bool :=
  existsb (pair_eqb p) l.

(** ** Exceptions *)

Inductive assert_message : Type :=
| Problem_with (namespace key : string) (values : list string)
| Mapr_parameter.

Inductive exception : Type :=
| AttributeError (attribute : string)
| AssertionError (message : assert_message).

Inductive result (A : Type) : Type :=
| Ok (a : A)
| Raise (e : exception).
Arguments Ok {A} a.
Arguments Raise {A} e.

Definition rbind {A B} (r : result A) (f : A -> result B) : result B :=
  match r with
  | Ok a => f a
  | Raise e => Raise e
  end.

(** The data-integrity error of the normalizer. *)
Definition is_data_integrity_error (e : exception) : bool :=
  match e with
  | AssertionError (Problem_with _ _ _) => true
  | _ => false
  end.

(** ** The hierarchy read from Tabbles and the normalizer's outputs *)

Definition key_values : Type := dict (list string).

(** [data_dict]: namespace (or [None]) to key to values. *)
Definition hierarchy : Type := list (option string * key_values).

Definition kv_list : Type := list (string * string).

Definition kv_dict : Type := dict key_values.

Inductive policy : Type := Overwrite | Append.

Record script_params : Type := {
  Process_single_tags : bool;
  What_to_do_with_existing_Annotations : policy
}.

(** [for key, values in key_values.items(): for value in values:
    l.append([key, value])], starting from the empty list. *)
Definition items_to_pairs (kvs : key_values) : kv_list :=
  flat_map (fun '(key, values) => map (fun value => (key, value)) values) kvs.

(** ** The annotation store *)

(** An annotation linked to the image: a tag (the id of the tag and its
    text) or a map annotation (its namespace and its list of pairs). *)
Inductive annotation : Type :=
| TagAnnotation (id : nat) (value : string)
| MapAnnotation (ns : string) (value : kv_list).

(** The exception a failed [Delete2] raises, as far as the handler of
    [remove_map_annotations] looks at it: its attribute [message], when it
    has one. *)
Record delete_failure : Type := {
  message : option string
}.

(** What the engine asked of the server, in order, and the line that the
    handler of a failed delete prints.  [Submitted_delete] records that a
    [Delete2] was submitted, whatever its outcome. *)
Inductive event : Type :=
| Unlinked_tag (value : string)
| Submitted_delete (namespace : string)
| Printed (text : string)
| Saved_tag (id : nat) (value : string)
| Linked_tag (id : nat) (value : string)
| Linked_map (namespace : string) (value : kv_list).

Record store : Type := {
  server_tags : list (nat * string);
  image_annotations : list annotation;
  next_id : nat;
  submitted : nat;
  trace : list event
}.

Definition is_tag (a : annotation) : bool :=
  match a with TagAnnotation _ _ => true | MapAnnotation _ _ => false end.

Definition is_map_with (namespace : string) (a : annotation) : bool :=
  match a with
  | TagAnnotation _ _ => false
  | MapAnnotation ns _ => String.eqb ns namespace
  end.

Definition with_annotations (st : store) (l : list annotation) : store :=
  {| server_tags := server_tags st; image_annotations := l;
     next_id := next_id st; submitted := submitted st; trace := trace st |}.

Definition with_event (st : store) (e : event) : store :=
  {| server_tags := server_tags st; image_annotations := image_annotations st;
     next_id := next_id st; submitted := submitted st;
     trace := trace st ++ [e] |}.

Definition with_submitted (st : store) : store :=
  {| server_tags := server_tags st; image_annotations := image_annotations st;
     next_id := next_id st; submitted := S (submitted st); trace := trace st |}.

Definition with_new_tag (st : store) (value : string) : store :=
  {| server_tags := server_tags st ++ [(next_id st, value)];
     image_annotations := image_annotations st;
     next_id := S (next_id st); submitted := submitted st; trace := trace st |}.

(** Code that talks to the server. *)
Definition M (A : Type) : Type := store -> result A * store.

Definition ret {A} (a : A) : M A := fun st => (Ok a, st).

Definition raise {A} (e : exception) : M A := fun st => (Raise e, st).

Definition bind {A B} (m : M A) (f : A -> M B) : M B :=
  fun st =>
    match m st with
    | (Ok a, st') => f a st'
    | (Raise e, st') => (Raise e, st')
    end.

Definition lift {A} (r : result A) : M A := fun st => (r, st).

Definition gets {A} (f : store -> A) : M A := fun st => (Ok (f st), st).

Definition assert (b : bool) (msg : assert_message) : M unit :=
  if b then ret tt else raise (AssertionError msg).

Declare Scope tabbles_scope.
Delimit Scope tabbles_scope with tabbles.
Notation "x <- m ;; k" := (bind m (fun x => k))
  (at level 61, m at next level, right associativity) : tabbles_scope.
Notation "m ;;; k" := (bind m (fun _ => k))
  (at level 61, right associativity) : tabbles_scope.
Open Scope tabbles_scope.

(** *** get_existing_map_annotations *)

(** Lines 38-40. *)
Definition append_pair (inner : key_values) (kv : string * string)
  : key_values :=
  let '(key, value) := kv in
  let inner := if dict_mem inner key then inner else dict_set inner key [] in
  match dict_get inner key with
  | Some values => dict_set inner key (values ++ [value])
  | None => inner
  end.

(** Lines 32-40. *)
Definition record_annotation (existing : kv_dict) (a : annotation) : kv_dict :=
  match a with
  | TagAnnotation _ _ => existing
  | MapAnnotation namespace kvs =>
      let existing :=
        if dict_mem existing namespace then existing
        else dict_set existing namespace [] in
      match dict_get existing namespace with
      | Some inner => dict_set existing namespace (fold_left append_pair kvs inner)
      | None => existing
      end
  end.

Definition get_existing_map_annotations (st : store) : kv_dict :=
  fold_left record_annotation (image_annotations st) [].

(** *** get_tag_dict *)

Definition get_tag_dict (st : store) : dict nat :=
  fold_left
    (fun tag_dict '(tag_id, name) =>
       if dict_mem tag_dict name then tag_dict else dict_set tag_dict name tag_id)
    (server_tags st) [].

(** *** get_linked_tag_annotations *)

Definition get_linked_tag_annotations (st : store) : list string :=
  flat_map
    (fun a => match a with
              | TagAnnotation _ value => [value]
              | MapAnnotation _ _ => []
              end)
    (image_annotations st).

(** *** remove_tag_annotations

    Every tag annotation listed for the image has one link to it; the link
    is deleted and counted. *)
Definition remove_tag_annotations : M nat := fun st =>
  let tagAnnotations := filter is_tag (image_annotations st) in
  let st' :=
    fold_left
      (fun st a => match a with
                   | TagAnnotation _ value => with_event st (Unlinked_tag value)
                   | MapAnnotation _ _ => st
                   end)
      tagAnnotations
      (with_annotations st (filter (fun a => negb (is_tag a)) (image_annotations st))) in
  (Ok (length tagAnnotations), st').

(** Saving a new tag, saving and linking a map annotation, linking a tag. *)
Definition save_tag (value : string) : M nat := fun st =>
  (Ok (next_id st), with_event (with_new_tag st value) (Saved_tag (next_id st) value)).

Definition link_tag (id : nat) (value : string) : M unit := fun st =>
  (Ok tt,
   with_event (with_annotations st (image_annotations st ++ [TagAnnotation id value]))
     (Linked_tag id value)).

Definition link_map (namespace : string) (value : kv_list) : M unit := fun st =>
  (Ok tt,
   with_event (with_annotations st (image_annotations st ++ [MapAnnotation namespace value]))
     (Linked_map namespace value)).

Section Tabbles.

Variable DEFAULT_NAMESPACE : string.

(** The value of [getMaprNamespaces()], the Namespace Directory. *)
Variable getMaprNamespaces : list string.

(** The outcome of the n-th [Delete2] submitted: [None] when it succeeds,
    the exception raised when it fails (nothing is deleted then). *)
Variable delete_outcome : nat -> option delete_failure.

(** *** transformToMaprNamespace *)

Definition transformToMaprNamespace (orig_ns : string) : result string :=
  let mapr_ns_list := getMaprNamespaces in
  match re_search_letters orig_ns with
  | None => Raise (AttributeError "group")
  | Some only_letters_ns =>
      Ok (fold_left
            (fun result namespace =>
               if str_in (lower only_letters_ns) (lower namespace)
               then namespace else result)
            mapr_ns_list "")
  end.

(** Lines 380-382 of [split_data]: the resolution of a raw namespace. *)
Definition resolve (namespace : string) : result string :=
  if startswith "_" namespace then Ok DEFAULT_NAMESPACE
  else transformToMaprNamespace namespace.

(** *** split_data *)

(** Lines 356-361: the tags of a [None] namespace. *)
Definition collect_tags (kvs : key_values) (new_tags : list string)
  : list string :=
  fold_left
    (fun new_tags '(key, values) =>
       if startswith "_" key
       then fold_left (fun new_tags value => new_tags ++ [value]) values new_tags
       else new_tags)
    kvs new_tags.

(** Lines 371-375: the values of one key, without OMERO.mapr. *)
Definition add_pairs (key : string) (values : list string) (l : kv_list)
  : kv_list :=
  fold_left
    (fun l value => if pair_mem (key, value) l then l else l ++ [(key, value)])
    values l.

(** Lines 368-375. *)
Fixpoint flat_pairs (namespace : string) (kvs : key_values) (l : kv_list)
  : result kv_list :=
  match kvs with
  | [] => Ok l
  | (key, values) :: kvs' =>
      if startswith "_" key
      then Raise (AssertionError (Problem_with namespace key values))
      else flat_pairs namespace kvs' (add_pairs key values l)
  end.

(** Lines 389-391: [d[namespace][key]] after the loop over [values]. *)
Definition add_values (values : list string) (present : list string)
  : list string :=
  fold_left
    (fun present value =>
       if list_mem value present then present else present ++ [value])
    values present.

(** Lines 386-391: [d[namespace]] after the loop over [key_values]. *)
Definition add_key_values (kvs : key_values) (inner : key_values)
  : key_values :=
  fold_left
    (fun inner '(key, values) =>
       let inner := if dict_mem inner key then inner else dict_set inner key [] in
       match dict_get inner key with
       | Some present => dict_set inner key (add_values values present)
       | None => inner
       end)
    kvs inner.

(** Lines 384-391. *)
Definition dict_pairs (namespace : string) (kvs : key_values) (d : kv_dict)
  : kv_dict :=
  let d := if dict_mem d namespace then d else dict_set d namespace [] in
  match dict_get d namespace with
  | Some inner => dict_set d namespace (add_key_values kvs inner)
  | None => d
  end.

Definition split_state : Type := list string * kv_list * kv_dict.

(** One turn of the loop of line 352. *)
Definition split_step (params : script_params) (st : split_state)
  (item : option string * key_values) : result split_state :=
  let '(new_tags, new_KVpairs_list, new_KVpairs_dict) := st in
  let '(namespace, kvs) := item in
  let new_tags :=
    match namespace with
    | None => if Process_single_tags params
              then collect_tags kvs new_tags else new_tags
    | Some _ => new_tags
    end in
  match namespace with
  | None => Ok (new_tags, new_KVpairs_list, new_KVpairs_dict)
  | Some namespace =>
      rbind
        (if length getMaprNamespaces =? 0
         then flat_pairs namespace kvs new_KVpairs_list
         else Ok new_KVpairs_list)
        (fun new_KVpairs_list =>
           if 0 <? length getMaprNamespaces
           then rbind (resolve namespace)
                  (fun namespace =>
                     Ok (new_tags, new_KVpairs_list,
                         dict_pairs namespace kvs new_KVpairs_dict))
           else Ok (new_tags, new_KVpairs_list, new_KVpairs_dict))
  end.

Fixpoint split_loop (params : script_params) (data : hierarchy)
  (st : split_state) : result split_state :=
  match data with
  | [] => Ok st
  | item :: data' =>
      rbind (split_step params st item) (split_loop params data')
  end.

Definition split_data (params : script_params) (data_dict : hierarchy)
  : result split_state :=
  split_loop params data_dict ([], [], []).

(** *** remove_map_annotations

    The ids collected on lines 98-100 are those of the map annotations of
    the image with this namespace; a [Delete2] that succeeds removes them.
    The handler of line 108 reads [ex.message]. *)
Definition remove_map_annotations (namespace : string) : M unit := fun st =>
  let st1 := with_event (with_submitted st) (Submitted_delete namespace) in
  match delete_outcome (submitted st) with
  | None =>
      (Ok tt,
       with_annotations st1
         (filter (fun a => negb (is_map_with namespace a)) (image_annotations st1)))
  | Some ex =>
      match message ex with
      | Some text => (Ok tt, with_event st1 (Printed ("Failed to delete links: " ++ text)))
      | None => (Raise (AttributeError "message"), st1)
      end
  end.

(** *** annotateObject, Overwrite *)

(** Lines 433-448. *)
Fixpoint overwrite_link_tags (new_tags : list string) (tag_dict : dict nat)
  (counter : Z) : M Z :=
  match new_tags with
  | [] => ret counter
  | tag_value :: new_tags' =>
      match dict_get tag_dict tag_value with
      | None =>
          tag_ann_id <- save_tag tag_value ;;
          link_tag tag_ann_id tag_value ;;;
          overwrite_link_tags new_tags' (dict_set tag_dict tag_value tag_ann_id)
            (counter + 1)
      | Some tag_id =>
          link_tag tag_id tag_value ;;;
          overwrite_link_tags new_tags' tag_dict (counter + 1)
      end
  end.

(** Lines 430-449. *)
Definition overwrite_tags (new_tags : list string) : M Z :=
  count_removed <- remove_tag_annotations ;;
  tag_dict <- gets get_tag_dict ;;
  counter <- overwrite_link_tags new_tags tag_dict 0 ;;
  ret (counter - Z.of_nat count_removed)%Z.

(** Lines 454-475. *)
Definition overwrite_list (new_KVpairs_list : kv_list) (counter_map_ann : Z)
  : M Z :=
  assert (length getMaprNamespaces =? 0) Mapr_parameter ;;;
  let namespace := DEFAULT_NAMESPACE in
  existing_map_annotations <- gets get_existing_map_annotations ;;
  let existing_map_annotations_lists :=
    if 0 <? length existing_map_annotations
    then match dict_get existing_map_annotations namespace with
         | Some kvs => items_to_pairs kvs
         | None => []
         end
    else [] in
  let combined_KV_list := new_KVpairs_list ++ existing_map_annotations_lists in
  remove_map_annotations namespace ;;;
  link_map namespace combined_KV_list ;;;
  ret (counter_map_ann + Z.of_nat (length new_KVpairs_list))%Z.

(** Lines 487-490, over the items of [existing_map_annotations]. *)
Fixpoint overwrite_remove_absent (existing : kv_dict)
  (mapr_namespaces : list string) (new_KVpairs_dict : kv_dict) (deleted : Z)
  : M Z :=
  match existing with
  | [] => ret deleted
  | (namespace, kvs) :: existing' =>
      if list_mem namespace mapr_namespaces
         && negb (dict_mem new_KVpairs_dict namespace)
      then
        remove_map_annotations namespace ;;;
        overwrite_remove_absent existing' mapr_namespaces new_KVpairs_dict
          (deleted + Z.of_nat (length kvs))
      else
        overwrite_remove_absent existing' mapr_namespaces new_KVpairs_dict deleted
  end.

(** Lines 492-505, over the items of [new_KVpairs_dict]; [new_dict] is the
    whole of [new_KVpairs_dict], whose length line 505 adds. *)
Fixpoint overwrite_write (items : kv_dict) (existing new_dict : kv_dict)
  (added deleted : Z) : M (Z * Z) :=
  match items with
  | [] => ret (added, deleted)
  | (namespace, kvs) :: items' =>
      let deleted :=
        match dict_get existing namespace with
        | Some old => (deleted + Z.of_nat (length old))%Z
        | None => deleted
        end in
      remove_map_annotations namespace ;;;
      link_map namespace (items_to_pairs kvs) ;;;
      overwrite_write items' existing new_dict
        (added + Z.of_nat (length new_dict)) deleted
  end.

(** Lines 479-506. *)
Definition overwrite_dict (new_KVpairs_dict : kv_dict) : M Z :=
  assert (0 <? length getMaprNamespaces) Mapr_parameter ;;;
  existing_map_annotations <- gets get_existing_map_annotations ;;
  let mapr_namespaces := getMaprNamespaces in
  deleted <-
    (if 0 <? length existing_map_annotations
     then overwrite_remove_absent existing_map_annotations mapr_namespaces
            new_KVpairs_dict 0
     else ret 0%Z) ;;
  counts <- overwrite_write new_KVpairs_dict existing_map_annotations
              new_KVpairs_dict 0 deleted ;;
  ret (fst counts - snd counts)%Z.

(** *** annotateObject, Append *)

(** Lines 515-527. *)
Fixpoint append_link_tags (new_tags existing_tags : list string)
  (tag_dict : dict nat) (counter_tag_ann : Z) : M Z :=
  match new_tags with
  | [] => ret counter_tag_ann
  | tag :: new_tags' =>
      if list_mem tag existing_tags
      then append_link_tags new_tags' existing_tags tag_dict counter_tag_ann
      else
        match dict_get tag_dict tag with
        | None =>
            tag_ann_id <- save_tag tag ;;
            link_tag tag_ann_id tag ;;;
            append_link_tags new_tags' existing_tags tag_dict (counter_tag_ann + 1)
        | Some tag_id =>
            link_tag tag_id tag ;;;
            append_link_tags new_tags' existing_tags tag_dict (counter_tag_ann + 1)
        end
  end.

(** Lines 513-527. *)
Definition append_tags (new_tags : list string) (counter_tag_ann : Z) : M Z :=
  existing_tags <- gets get_linked_tag_annotations ;;
  tag_dict <- gets get_tag_dict ;;
  append_link_tags new_tags existing_tags tag_dict counter_tag_ann.

(** Lines 542-545: the values of one key. *)
Definition append_values (values : list string) (acc : list string * Z)
  : list string * Z :=
  fold_left
    (fun '(present, counter) value =>
       if list_mem value present then (present, counter)
       else (present ++ [value], (counter + 1)%Z))
    values acc.

(** Lines 539-545: the keys of one namespace. *)
Definition append_key_values (kvs : key_values) (acc : key_values * Z)
  : key_values * Z :=
  fold_left
    (fun '(inner, counter) '(key, values) =>
       let inner := if dict_mem inner key then inner else dict_set inner key [] in
       match dict_get inner key with
       | Some present =>
           let '(present, counter) := append_values values (present, counter) in
           (dict_set inner key present, counter)
       | None => (inner, counter)
       end)
    kvs acc.

(** Lines 536-545. *)
Definition append_merge (new_KVpairs_dict : kv_dict) (acc : kv_dict * Z)
  : kv_dict * Z :=
  fold_left
    (fun '(existing, counter) '(namespace, kvs) =>
       let existing :=
         if dict_mem existing namespace then existing
         else dict_set existing namespace [] in
       match dict_get existing namespace with
       | Some inner =>
           let '(inner, counter) := append_key_values kvs (inner, counter) in
           (dict_set existing namespace inner, counter)
       | None => (existing, counter)
       end)
    new_KVpairs_dict acc.

(** Lines 549-559. *)
Fixpoint append_rewrite (existing_kvPairs : kv_dict) : M unit :=
  match existing_kvPairs with
  | [] => ret tt
  | (namespace, kvs) :: existing' =>
      remove_map_annotations namespace ;;;
      link_map namespace (items_to_pairs kvs) ;;;
      append_rewrite existing'
  end.

(** Lines 532-559. *)
Definition append_dict (new_KVpairs_dict : kv_dict) (counter_map_ann : Z)
  : M Z :=
  assert (0 <? length getMaprNamespaces) Mapr_parameter ;;;
  existing_kvPairs <- gets get_existing_map_annotations ;;
  let '(existing_kvPairs, counter_map_ann) :=
    append_merge new_KVpairs_dict (existing_kvPairs, counter_map_ann) in
  append_rewrite existing_kvPairs ;;;
  ret counter_map_ann.

(** Lines 574-577. *)
Definition append_new_pairs (new_KVpairs_list : kv_list) (acc : kv_list * Z)
  : kv_list * Z :=
  fold_left
    (fun '(updated_list, counter) key_value =>
       if pair_mem key_value updated_list then (updated_list, counter)
       else (updated_list ++ [key_value], (counter + 1)%Z))
    new_KVpairs_list acc.

(** Lines 564-585. *)
Definition append_list (new_KVpairs_list : kv_list) (counter_map_ann : Z)
  : M Z :=
  assert (length getMaprNamespaces =? 0) Mapr_parameter ;;;
  existing_kvPairs <- gets get_existing_map_annotations ;;
  let updated_list :=
    match dict_get existing_kvPairs DEFAULT_NAMESPACE with
    | Some kvs => items_to_pairs kvs
    | None => []
    end in
  let '(updated_list, counter_map_ann) :=
    append_new_pairs new_KVpairs_list (updated_list, counter_map_ann) in
  remove_map_annotations DEFAULT_NAMESPACE ;;;
  link_map DEFAULT_NAMESPACE updated_list ;;;
  ret counter_map_ann.

(** *** annotateObject

    Returns [(counter_map_ann, counter_tag_ann)]. *)
Definition annotateObject (params : script_params) (data_dict : hierarchy)
  : M (Z * Z) :=
  split <- lift (split_data params data_dict) ;;
  let '(new_tags, new_KVpairs_list, new_KVpairs_dict) := split in
  match What_to_do_with_existing_Annotations params with
  | Overwrite =>
      counter_tag_ann <-
        (if 0 <? length new_tags then overwrite_tags new_tags else ret 0%Z) ;;
      counter_map_ann <-
        (if 0 <? length new_KVpairs_list
         then overwrite_list new_KVpairs_list 0 else ret 0%Z) ;;
      counter_map_ann <-
        (if 0 <? length new_KVpairs_dict
         then overwrite_dict new_KVpairs_dict else ret counter_map_ann) ;;
      ret (counter_map_ann, counter_tag_ann)
  | Append =>
      counter_tag_ann <-
        (if 0 <? length new_tags then append_tags new_tags 0 else ret 0%Z) ;;
      counter_map_ann <-
        (if 0 <? length new_KVpairs_dict
         then append_dict new_KVpairs_dict 0 else ret 0%Z) ;;
      counter_map_ann <-
        (if 0 <? length new_KVpairs_list
         then append_list new_KVpairs_list counter_map_ann
         else ret counter_map_ann) ;;
      ret (counter_map_ann, counter_tag_ann)
  end.

End Tabbles.

Arguments split_step : simpl never.
Arguments remove_map_annotations : simpl never.
Arguments append_pair : simpl never.
Arguments record_annotation : simpl never.
Arguments append_values : simpl never.
Arguments append_key_values : simpl never.
Arguments append_merge : simpl never.
Arguments append_new_pairs : simpl never.

(** ** The code around the engine *)

(** *** getMaprNamespaces *)







Section Configuration.

(** [ast.literal_eval] on the text of a configuration, read as the list of
    the [m["config"]["ns"]] of its entries, each of them a list of strings;
    [None] when it raises. *)
Variable literal_eval : string -> option (list (list string)).



End Configuration.

(** *** getData *)

(** [s.replace(old, new)] for strings of one character. *)
Fixpoint replace_char (old new : ascii) (s : string) : string :=
  match s with
  | EmptyString => EmptyString
  | String c s' =>
      String (if Ascii.eqb c old then new else c) (replace_char old new s')
  end.

(** Lines 272-273 of [getData]. *)
Definition final_path (raw_path : string) : string :=
  let cleaned_path := replace_char ";" ":" raw_path in
  replace_char "/" "\" cleaned_path.

(** A row of [duplicates_removed_df]: the namespace (or [None]), the key
    and the value. *)
Definition row : Type := option string * string * string.

Definition namespace_eqb (a b : option string) : bool :=
  match a, b with
  | None, None => true
  | Some x, Some y => String.eqb x y
  | _, _ => false
  end.

(** [tabbles_data] is a dict whose keys are the namespaces. *)
Fixpoint hier_get (h : hierarchy) (namespace : option string)
  : option key_values :=
  match h with
  | [] => None
  | (n, kvs) :: h' =>
      if namespace_eqb namespace n then Some kvs else hier_get h' namespace
  end.

Definition hier_mem (h : hierarchy) (namespace : option string) : bool :=
  match hier_get h namespace with Some _ => true | None => false end.

Fixpoint hier_set (h : hierarchy) (namespace : option string) (kvs : key_values)
  : hierarchy :=
  match h with
  | [] => [(namespace, kvs)]
  | (n, kvs') :: h' =>
      if namespace_eqb namespace n then (n, kvs) :: h'
      else (n, kvs') :: hier_set h' namespace kvs
  end.

(** Lines 315-324 of [getData]: one turn of the loop over the rows. *)
Definition getData_row (tabbles_data : hierarchy) (r : row) : hierarchy :=
  let '(namespace, key, value) := r in
  let tabbles_data :=
    if hier_mem tabbles_data namespace then tabbles_data
    else hier_set tabbles_data namespace [] in
  match hier_get tabbles_data namespace with
  | None => tabbles_data
  | Some inner =>
      let inner :=
        (let inner := if dict_mem inner key then inner else dict_set inner key [] in
         match dict_get inner key with
         | Some values => dict_set inner key (values ++ [value])
         | None => inner
         end) in
      hier_set tabbles_data namespace inner
  end.

(** Lines 313-326 of [getData], from the rows of the frame. *)
Definition getData (rows : list row) : hierarchy :=
  fold_left getData_row rows [].

(** ** The resolver as the specification words it

    The first entry of the directory that contains the letter prefix, the
    empty string when there is none. *)
Definition resolve_spec (default : string) (directory : list string)
  (raw_namespace : string) : string :=
  if startswith "_" raw_namespace then default
  else
    match re_search_letters raw_namespace with
    | Some prefix =>
        match find (fun n => str_in (lower prefix) (lower n)) directory with
        | Some n => n
        | None => ""
        end
    | None => ""
    end.

(** ** The net count of Overwrite as the specification words it

    The pairs written, minus the pairs that existed under the namespaces
    that were superseded or deleted.  [events] is the trace of a run that
    started on [before]. *)
Definition pairs_under (st : store) (namespace : string) : nat :=
  length
    (flat_map
       (fun a => match a with
                 | MapAnnotation ns kvs =>
                     if String.eqb ns namespace then kvs else []
                 | TagAnnotation _ _ => []
                 end)
       (image_annotations st)).

Definition pairs_written (events : list event) : Z :=
  fold_left
    (fun n e => match e with
                | Linked_map _ kvs => (n + Z.of_nat (length kvs))%Z
                | _ => n
                end)
    events 0%Z.

Definition pairs_superseded (before : store) (events : list event) : Z :=
  fold_left
    (fun n e => match e with
                | Submitted_delete ns => (n + Z.of_nat (pairs_under before ns))%Z
                | _ => n
                end)
    events 0%Z.

Definition net_count_spec (before : store) (events : list event) : Z :=
  (pairs_written events - pairs_superseded before events)%Z.

(** The strictly new pairs: the new pairs that are not stored yet. *)
Definition strictly_new (new existing : kv_list) : kv_list :=
  filter (fun p => negb (pair_mem p existing)) new.

(** ** Inputs of the examples *)

(** [omero.constants.metadata.NSCLIENTMAPANNOTATION] *)
Definition NSCLIENTMAPANNOTATION : string :=
  "openmicroscopy.org/omero/client/mapAnnotation".

Definition every_delete_succeeds : nat -> option delete_failure :=
  fun _ => None.

(** A delete that fails with an exception that has no [message], as
    [omero.CmdError] and the built-in exceptions. *)
Definition delete_fails_without_message : nat -> option delete_failure :=
  fun _ => Some {| message := None |}.

Definition delete_fails_with_message : nat -> option delete_failure :=
  fun _ => Some {| message := Some "constraint violation" |}.

Definition image_with (l : list annotation) : store :=
  {| server_tags := []; image_annotations := l; next_id := 1;
     submitted := 0; trace := [] |}.

Definition overwrite_params : script_params :=
  {| Process_single_tags := true;
     What_to_do_with_existing_Annotations := Overwrite |}.

Definition append_params : script_params :=
  {| Process_single_tags := true;
     What_to_do_with_existing_Annotations := Append |}.

(** An image with the tag "mouse" linked, and the single tags of a file
    tagged "mouse" and "wildtype". *)
Definition mouse_image : store :=
  {| server_tags := [(1, "mouse")];
     image_annotations := [TagAnnotation 1 "mouse"];
     next_id := 2; submitted := 0; trace := [] |}.

Definition mouse_wildtype_tags : hierarchy :=
  [(None, [("_workspace", ["mouse"; "wildtype"])])].

Definition two_species : hierarchy :=
  [(Some "01_Bio", [("species", ["mouse"; "rat"])])].

Definition organism_image : store :=
  image_with [MapAnnotation "Organism"
                [("genus", "Mus"); ("genus", "Rattus"); ("genus", "Homo")]].

(** An image with a map annotation under "Other" before the one under
    "Organism". *)
Definition other_organism_image : store :=
  image_with [MapAnnotation "Other" [("note", "kept")];
              MapAnnotation "Organism"
                [("genus", "Mus"); ("genus", "Rattus"); ("genus", "Homo")]].

Definition mouse_species : hierarchy :=
  [(Some "01_Bio", [("species", ["mouse"])])].

Definition rat_image : store :=
  image_with [MapAnnotation NSCLIENTMAPANNOTATION [("species", "rat")]].

Definition mouse_image_kv : store :=
  image_with [MapAnnotation NSCLIENTMAPANNOTATION [("species", "mouse")]].

Definition bio_hierarchy : hierarchy :=
  [(Some "01_Bio", [("species", ["mouse"])]);
   (None, [("_workspace", ["untagged"])])].

(** * Predicates of the statements *)

(** What is left of [s] after its longest prefix in the class. *)
Fixpoint rest_class (s : string) : string :=
  match s with
  | EmptyString => EmptyString
  | String c s' => if in_class c then rest_class s' else s
  end.

(** What the search returns: the leftmost run of at least three characters
    of the class, taken as far as it goes. *)
Definition letter_run (s run : string) : Prop :=
  exists pre post,
    s = (pre ++ run ++ post)%string
    /\ span_class (run ++ post)%string = run
    /\ 3 <= String.length run
    /\ (forall u v, pre = (u ++ v)%string -> v <> EmptyString ->
                    String.length (span_class (v ++ run ++ post)%string) < 3).

(** The values stored for a key, and the keys stored for a namespace. *)
Definition values_of (inner : key_values) (key : string) : list string :=
  match dict_get inner key with Some values => values | None => [] end.

Definition inner_of (d : kv_dict) (namespace : string) : key_values :=
  match dict_get d namespace with Some inner => inner | None => [] end.

(** The keys of a dict are pairwise distinct. *)
Definition wf_inner (inner : key_values) : Prop := NoDup (map fst inner).

Definition wf_kv_dict (d : kv_dict) : Prop :=
  NoDup (map fst d) /\ Forall (fun e => wf_inner (snd e)) d.

(** The pair [(k, v)] is stored under [ns] in some map annotation. *)
Definition stored_in (l : list annotation) (ns k v : string) : Prop :=
  exists kvs, In (MapAnnotation ns kvs) l /\ In (k, v) kvs.

Definition stored (st : store) (ns k v : string) : Prop :=
  stored_in (image_annotations st) ns k v.

(** The tag annotations of the image, the names of the tags linked to it,
    and how many there are. *)
Definition tags_of (st : store) : list annotation :=
  filter is_tag (image_annotations st).

Definition linked (st : store) (t : string) : Prop :=
  In t (get_linked_tag_annotations st).

(** A step that leaves the tags of the image and their links alone. *)
Definition map_frame (s s' : store) : Prop :=
  tags_of s' = tags_of s
  /\ forall id t, In (Linked_tag id t) (trace s') -> In (Linked_tag id t) (trace s).

(** Nothing linked and nothing stored is lost. *)
Definition grows (s s' : store) : Prop :=
  (forall t, linked s t -> linked s' t)
  /\ (forall ns k v, stored s ns k v -> stored s' ns k v).

(** No tag of [tags] is linked between [s] and [s']. *)
Definition not_relinked (tags : list string) (s s' : store) : Prop :=
  forall id t, In t tags ->
    In (Linked_tag id t) (trace s') -> In (Linked_tag id t) (trace s).

(** The new tags that Append counts: those not linked when it starts. *)
Definition tags_to_link (new_tags existing_tags : list string) : list string :=
  filter (fun t => negb (list_mem t existing_tags)) new_tags.

Definition ntags (st : store) : nat := length (tags_of st).

(** Every delete that fails raises an exception that has a [message]. *)
Definition every_delete_logged (delete_outcome : nat -> option delete_failure)
  : Prop :=
  forall n ex, delete_outcome n = Some ex -> message ex <> None.

(** The string with its ASCII capitals lowered: two strings with the same
    image differ in the case of ASCII letters only. *)
Definition ascii_lower_char (c : ascii) : ascii :=
  if is_ascii_upper c then ascii_of_nat (code c + 32) else c.

Fixpoint ascii_lower (s : string) : string :=
  match s with
  | EmptyString => EmptyString
  | String c s' => String (ascii_lower_char c) (ascii_lower s')
  end.

(** The keys of a dict are distinct and no list of values repeats a
    value. *)
Definition tidy_inner (inner : key_values) : Prop :=
  wf_inner inner /\ Forall (fun e => NoDup (snd e)) inner.

Definition tidy_kv_dict (d : kv_dict) : Prop :=
  NoDup (map fst d) /\ Forall (fun e => tidy_inner (snd e)) d.

(** The id of the first tag of the server with the text [name]. *)
Definition first_tag_id (tags : list (nat * string)) (name : string)
  : option nat :=
  option_map fst (find (fun t => String.eqb (snd t) name) tags).

(** How many (key, value) pairs a dict of keys, a dict of namespaces and
    the map annotations of the image hold, repetitions counted. *)
Definition inner_size (inner : key_values) : nat :=
  length (items_to_pairs inner).

Definition dict_size (d : kv_dict) : nat :=
  length (flat_map (fun e => items_to_pairs (snd e)) d).

Definition total_stored (st : store) : nat :=
  length
    (flat_map
       (fun a => match a with
                 | MapAnnotation _ kvs => kvs
                 | TagAnnotation _ _ => []
                 end)
       (image_annotations st)).

(** The pairs of one annotation that lie under [ns]. *)
Definition pairs_of_annotation (ns : string) (a : annotation) : kv_list :=
  match a with
  | MapAnnotation n kvs => if String.eqb n ns then kvs else []
  | TagAnnotation _ _ => []
  end.

(** The tag dict knows the texts of the server, and no text twice. *)
Definition tag_dict_covers (tag_dict : dict nat) (st : store) : Prop :=
  forall name,
    dict_mem tag_dict name = true <-> In name (map snd (server_tags st)).

(** The key/value part of a run leaves the tags of the server alone. *)
Definition same_server (s s' : store) : Prop := server_tags s' = server_tags s.

(** The map annotations of the image, in order. *)
Definition maps_of (st : store) : list annotation :=
  filter (fun a => negb (is_tag a)) (image_annotations st).

(** The keys that line 489 counts: those of the namespaces of the snapshot
    that the directory knows and the new data does not name. *)
Definition absent_keys (existing : kv_dict) (mapr : list string) (new : kv_dict)
  : nat :=
  list_sum
    (map (fun e => if list_mem (fst e) mapr && negb (dict_mem new (fst e))
                   then length (snd e) else 0)
       existing).

(** The keys that line 494 counts: those that the snapshot holds under the
    namespaces of the new data. *)
Definition superseded_keys (existing items : kv_dict) : nat :=
  list_sum
    (map (fun e => match dict_get existing (fst e) with
                   | Some old => length old
                   | None => 0
                   end)
       items).

(** The merge of the normalizer, folded over the namespaces of [new]. *)
Definition merge_dicts (new e : kv_dict) : kv_dict :=
  fold_left (fun d item => dict_pairs (fst item) (snd item) d) new e.

(** A map annotation whose namespace is one of [keys]. *)
Definition is_map_in (keys : list string) (a : annotation) : bool :=
  match a with
  | MapAnnotation ns _ => list_mem ns keys
  | TagAnnotation _ _ => false
  end.

(** The map annotation that lines 549-559 write for an entry. *)
Definition annotation_of (item : string * key_values) : annotation :=
  MapAnnotation (fst item) (items_to_pairs (snd item)).

(** What a run of Append has to store: the pairs of the dict, and the pairs
    of the flat list under the default namespace. *)
Definition new_content (default : string) (l : kv_list) (d : kv_dict)
  (ns k v : string) : Prop :=
  In v (values_of (inner_of d ns) k) \/ (ns = default /\ In (k, v) l).

Fixpoint occurs (c : ascii) (s : string) : bool :=
  match s with
  | EmptyString => false
  | String c' s' => Ascii.eqb c c' || occurs c s'
  end.

(** The keys of a namespace of the hierarchy, and the rows of a namespace
    and a key. *)
Definition hier_inner (h : hierarchy) (namespace : option string) : key_values :=
  match hier_get h namespace with Some inner => inner | None => [] end.

Definition row_under (namespace : option string) (key : string) (r : row)
  : bool :=
  namespace_eqb namespace (fst (fst r)) && String.eqb key (snd (fst r)).

Definition row_pair (r : row) : string * string := (snd (fst r), snd r).

Definition has_namespace (r : row) : bool :=
  match fst (fst r) with Some _ => true | None => false end.

(** Namespaces and keys are listed once, and nothing listed is empty. *)
Definition wf_hierarchy (h : hierarchy) : Prop :=
  NoDup (map fst h) /\ Forall (fun e => wf_inner (snd e)) h.

Definition no_empty_entry (h : hierarchy) : Prop :=
  Forall (fun e => snd e <> [] /\ Forall (fun kv => snd kv <> []) (snd e)) h.

(** * Properties of the normalizer *)

Section Normalizer.

Variable DEFAULT_NAMESPACE : string.
Variable directory : list string.

Lemma nonempty_length {A} (l : list A) :
  l <> [] -> (length l =? 0) = false /\ (0 <? length l) = true.
Proof. destruct l; [congruence|]. intros _. split; reflexivity. Qed.

(** The two modes: which of the lists and the dict a turn of the loop can
    touch. *)
Lemma split_step_flat_mode params tags l d item tags' l' d' :
  directory = [] ->
  split_step DEFAULT_NAMESPACE directory params (tags, l, d) item = Ok (tags', l', d') -> d' = d.
Proof.
  intros Hdir. unfold split_step. destruct item as [[namespace|] kvs].
  - rewrite Hdir. simpl.
    destruct (flat_pairs namespace kvs l); simpl; congruence.
  - congruence.
Qed.

Lemma split_step_mapr_mode params tags l d item tags' l' d' :
  directory <> [] ->
  split_step DEFAULT_NAMESPACE directory params (tags, l, d) item = Ok (tags', l', d') -> l' = l.
Proof.
  intros Hdir. unfold split_step. destruct item as [[namespace|] kvs].
  - destruct (nonempty_length directory Hdir) as [-> ->]. simpl.
    destruct (resolve DEFAULT_NAMESPACE directory namespace); simpl; congruence.
  - congruence.
Qed.

Lemma split_loop_flat_mode params data : forall tags l d tags' l' d',
  directory = [] ->
  split_loop DEFAULT_NAMESPACE directory params data (tags, l, d) = Ok (tags', l', d') -> d' = d.
Proof.
  induction data as [|item data IH]; simpl; intros tags l d tags' l' d' Hdir H.
  - congruence.
  - destruct (split_step DEFAULT_NAMESPACE directory params (tags, l, d) item) as [[[t1 l1] d1]|e] eqn:E;
      simpl in H; [|discriminate].
    apply (split_step_flat_mode _ _ _ _ _ _ _ _ Hdir) in E. subst d1.
    eapply IH; eauto.
Qed.

Lemma split_loop_mapr_mode params data : forall tags l d tags' l' d',
  directory <> [] ->
  split_loop DEFAULT_NAMESPACE directory params data (tags, l, d) = Ok (tags', l', d') -> l' = l.
Proof.
  induction data as [|item data IH]; simpl; intros tags l d tags' l' d' Hdir H.
  - congruence.
  - destruct (split_step DEFAULT_NAMESPACE directory params (tags, l, d) item) as [[[t1 l1] d1]|e] eqn:E;
      simpl in H; [|discriminate].
    apply (split_step_mapr_mode _ _ _ _ _ _ _ _ Hdir) in E. subst l1.
    eapply IH; eauto.
Qed.

(** In flat mode the only exception is the data-integrity assertion. *)
Lemma flat_pairs_raise namespace kvs : forall l e,
  flat_pairs namespace kvs l = Raise e -> is_data_integrity_error e = true.
Proof.
  induction kvs as [|[key values] kvs IH]; simpl; intros l e H.
  - discriminate.
  - destruct (startswith "_" key).
    + inversion H. reflexivity.
    + eapply IH; eauto.
Qed.

Lemma flat_pairs_marker_key namespace kvs key values : forall l,
  In (key, values) kvs -> startswith "_" key = true ->
  exists e, flat_pairs namespace kvs l = Raise e.
Proof.
  induction kvs as [|[key' values'] kvs IH]; simpl; intros l Hin Hkey.
  - contradiction.
  - destruct (startswith "_" key') eqn:E.
    + eexists. reflexivity.
    + destruct Hin as [Heq|Hin].
      * inversion Heq. subst. congruence.
      * apply IH; assumption.
Qed.

Lemma split_step_flat_raise params st item e :
  directory = [] ->
  split_step DEFAULT_NAMESPACE directory params st item = Raise e ->
  is_data_integrity_error e = true.
Proof.
  intros Hdir. unfold split_step. destruct st as [[tags l] d].
  destruct item as [[namespace|] kvs]; [|discriminate].
  rewrite Hdir. simpl.
  destruct (flat_pairs namespace kvs l) eqn:E; simpl; [discriminate|].
  intros H. inversion H. subst. eapply flat_pairs_raise; eauto.
Qed.

Lemma split_step_flat_marker_key params st namespace kvs key values :
  directory = [] ->
  In (key, values) kvs -> startswith "_" key = true ->
  exists e, split_step DEFAULT_NAMESPACE directory params st (Some namespace, kvs) = Raise e.
Proof.
  intros Hdir Hin Hkey. unfold split_step. destruct st as [[tags l] d].
  rewrite Hdir. simpl.
  destruct (flat_pairs_marker_key namespace kvs key values l Hin Hkey) as [e He].
  rewrite He. simpl. eexists. reflexivity.
Qed.

Lemma split_loop_flat_marker_key params data namespace kvs key values :
  directory = [] ->
  In (Some namespace, kvs) data ->
  In (key, values) kvs -> startswith "_" key = true ->
  forall st, exists e,
    split_loop DEFAULT_NAMESPACE directory params data st = Raise e
    /\ is_data_integrity_error e = true.
Proof.
  intros Hdir Hdata Hin Hkey.
  induction data as [|item data IH]; simpl; intros st.
  - contradiction.
  - destruct (split_step DEFAULT_NAMESPACE directory params st item) as [st1|e] eqn:E; simpl.
    + destruct Hdata as [Heq|Hdata].
      * subst item.
        destruct (split_step_flat_marker_key params st namespace kvs key values
                    Hdir Hin Hkey) as [e He].
        congruence.
      * apply IH. assumption.
    + exists e. split; [reflexivity|].
      eapply split_step_flat_raise; eauto.
Qed.

(** With a directory the only exception is the one of the resolver. *)
Lemma resolve_raise namespace e :
  resolve DEFAULT_NAMESPACE directory namespace = Raise e ->
  e = AttributeError "group".
Proof.
  unfold resolve, transformToMaprNamespace.
  destruct (startswith "_" namespace); [discriminate|].
  destruct (re_search_letters namespace); [discriminate|].
  intros H. inversion H. reflexivity.
Qed.

Lemma split_step_mapr_raise params st item e :
  directory <> [] ->
  split_step DEFAULT_NAMESPACE directory params st item = Raise e ->
  e = AttributeError "group".
Proof.
  intros Hdir. unfold split_step. destruct st as [[tags l] d].
  destruct item as [[namespace|] kvs]; [|discriminate].
  destruct (nonempty_length directory Hdir) as [-> ->]. simpl.
  destruct (resolve DEFAULT_NAMESPACE directory namespace) eqn:E; simpl;
    [discriminate|].
  intros H. inversion H. subst. eapply resolve_raise; eauto.
Qed.

Lemma split_step_mapr_no_match params st namespace kvs :
  directory <> [] ->
  startswith "_" namespace = false ->
  re_search_letters namespace = None ->
  split_step DEFAULT_NAMESPACE directory params st (Some namespace, kvs)
  = Raise (AttributeError "group").
Proof.
  intros Hdir Hmark Hre. unfold split_step. destruct st as [[tags l] d].
  destruct (nonempty_length directory Hdir) as [-> ->]. simpl.
  unfold resolve, transformToMaprNamespace. rewrite Hmark, Hre. reflexivity.
Qed.

Lemma split_loop_mapr_no_match params data namespace kvs :
  directory <> [] ->
  In (Some namespace, kvs) data ->
  startswith "_" namespace = false ->
  re_search_letters namespace = None ->
  forall st,
    split_loop DEFAULT_NAMESPACE directory params data st
    = Raise (AttributeError "group").
Proof.
  intros Hdir Hdata Hmark Hre.
  induction data as [|item data IH]; simpl; intros st.
  - contradiction.
  - destruct (split_step DEFAULT_NAMESPACE directory params st item) as [st1|e] eqn:E; simpl.
    + destruct Hdata as [Heq|Hdata].
      * subst item.
        rewrite (split_step_mapr_no_match params st namespace kvs Hdir Hmark Hre) in E.
        discriminate.
      * apply IH. assumption.
    + f_equal. eapply split_step_mapr_raise; eauto.
Qed.

End Normalizer.

(** * Properties of the regular expression search *)

Lemma span_rest_class s : s = (span_class s ++ rest_class s)%string.
Proof.
  induction s as [|c s IH]; simpl; [reflexivity|].
  destruct (in_class c); simpl; [f_equal; exact IH|reflexivity].
Qed.

(** Three characters of the class at the head of [s]. *)
Lemma span_class_three s :
  (3 <=? String.length (span_class s)) = true <->
  exists a b c t, s = String a (String b (String c t))
                  /\ in_class a = true /\ in_class b = true /\ in_class c = true.
Proof.
  split.
  - destruct s as [|a [|b [|c t]]]; simpl.
    + discriminate.
    + destruct (in_class a); discriminate.
    + destruct (in_class a); simpl; [|discriminate].
      destruct (in_class b); discriminate.
    + destruct (in_class a) eqn:Ea; simpl; [|discriminate].
      destruct (in_class b) eqn:Eb; simpl; [|discriminate].
      destruct (in_class c) eqn:Ec; simpl; [|discriminate].
      intros _. exists a, b, c, t. auto.
  - intros (a & b & c & t & -> & Ha & Hb & Hc). simpl.
    rewrite Ha, Hb, Hc. reflexivity.
Qed.

(** The search finds nothing exactly when no three consecutive characters
    of the string are all letters or white space. *)
Lemma re_search_letters_None s :
  re_search_letters s = None <->
  (forall pre a b c post,
      s = (pre ++ String a (String b (String c post)))%string ->
      in_class a && in_class b && in_class c = false).
Proof.
  induction s as [|x s IH].
  - split; [|reflexivity].
    intros _ pre a b c post H. destruct pre; discriminate.
  - cbn [re_search_letters].
    destruct (3 <=? String.length (span_class (String x s))) eqn:E.
    + split; [discriminate|].
      intros H. apply span_class_three in E.
      destruct E as (a & b & c & t & Hs & Ha & Hb & Hc).
      specialize (H EmptyString a b c t Hs).
      rewrite Ha, Hb, Hc in H. discriminate.
    + rewrite IH. split.
      * intros H pre a b c post Hs. destruct pre as [|y pre].
        -- simpl in Hs.
           destruct (in_class a && in_class b && in_class c) eqn:Habc; [|reflexivity].
           apply andb_true_iff in Habc. destruct Habc as [Hab Hc].
           apply andb_true_iff in Hab. destruct Hab as [Ha Hb].
           assert (Ht : (3 <=? String.length (span_class (String x s))) = true).
           { apply span_class_three. exists a, b, c, post. auto. }
           congruence.
        -- simpl in Hs. inversion Hs. subst. eapply H. reflexivity.
      * intros H pre a b c post Hs. apply (H (String x pre) a b c post).
        simpl. f_equal. exact Hs.
Qed.

Lemma re_search_letters_Some s : forall run,
  re_search_letters s = Some run -> letter_run s run.
Proof.
  induction s as [|x s IH]; intros run H.
  - discriminate.
  - cbn [re_search_letters] in H.
    destruct (3 <=? String.length (span_class (String x s))) eqn:E.
    + assert (Hrun : run = span_class (String x s)) by congruence.
      clear H. subst run.
      exists EmptyString, (rest_class (String x s)).
      rewrite <- (span_rest_class (String x s)).
      split; [reflexivity|]. split; [reflexivity|].
      split; [apply Nat.leb_le; exact E|].
      intros u v Huv Hv. destruct u; [|discriminate].
      simpl in Huv. congruence.
    + destruct (IH run H) as (pre & post & Hs & Hspan & Hlen & Hleft).
      exists (String x pre), post.
      split; [simpl; f_equal; exact Hs|].
      split; [exact Hspan|]. split; [exact Hlen|].
      intros u v Huv Hv. destruct u as [|y u].
      * simpl in Huv. subst v. simpl append. rewrite <- Hs.
        apply Nat.leb_gt. exact E.
      * simpl in Huv. inversion Huv. subst. eapply Hleft; eauto.
Qed.

(** The loop of lines 202-206 keeps the last entry that matches. *)
Lemma last_match_fold (matches : string -> bool) (l : list string) : forall acc,
  let r := fold_left (fun result namespace =>
                        if matches namespace then namespace else result) l acc in
  (r = acc /\ forall n, In n l -> matches n = false)
  \/ (exists before after,
         l = before ++ r :: after /\ matches r = true
         /\ forall n, In n after -> matches n = false).
Proof.
  induction l as [|x l IH]; intros acc; simpl.
  - left. split; [reflexivity|]. intros n [].
  - destruct (matches x) eqn:E.
    + destruct (IH x) as [[Hr Hnone]|(before & after & Hl & Hm & Hafter)].
      * right. exists [], l. simpl in *. rewrite Hr. auto.
      * right. exists (x :: before), after. simpl in *.
        split; [f_equal; exact Hl|]. auto.
    + destruct (IH acc) as [[Hr Hnone]|(before & after & Hl & Hm & Hafter)].
      * left. split; [exact Hr|]. intros n [Hn|Hn]; [subst; exact E|auto].
      * right. exists (x :: before), after. simpl in *.
        split; [f_equal; exact Hl|]. auto.
Qed.

(** * Properties of dicts *)

Section DictFacts.

Context {V : Type}.

Implicit Types (d : dict V) (k : string) (v : V).

Lemma dict_get_set_eq d k v : dict_get (dict_set d k v) k = Some v.
Proof.
  induction d as [|[k' v'] d IH]; simpl.
  - rewrite String.eqb_refl. reflexivity.
  - destruct (String.eqb k k') eqn:E; simpl; rewrite E; [reflexivity|exact IH].
Qed.

Lemma dict_get_set_neq d k k' v :
  k' <> k -> dict_get (dict_set d k v) k' = dict_get d k'.
Proof.
  intros Hne. induction d as [|[k0 v0] d IH]; simpl.
  - apply String.eqb_neq in Hne. rewrite Hne. reflexivity.
  - destruct (String.eqb k k0) eqn:E; simpl.
    + apply String.eqb_eq in E. subst k0.
      apply String.eqb_neq in Hne. rewrite Hne. reflexivity.
    + rewrite IH. reflexivity.
Qed.

Lemma dict_set_set d k v v' : dict_set (dict_set d k v) k v' = dict_set d k v'.
Proof.
  induction d as [|[k0 v0] d IH]; simpl.
  - rewrite String.eqb_refl. reflexivity.
  - destruct (String.eqb k k0) eqn:E; simpl; rewrite E; [reflexivity|].
    rewrite IH. reflexivity.
Qed.

Lemma dict_get_In d k v : dict_get d k = Some v -> In (k, v) d.
Proof.
  induction d as [|[k0 v0] d IH]; simpl; [discriminate|].
  destruct (String.eqb k k0) eqn:E.
  - apply String.eqb_eq in E. intros H. inversion H. subst. left. reflexivity.
  - intros H. right. apply IH. exact H.
Qed.

Lemma dict_get_None d k : dict_get d k = None -> ~ In k (map fst d).
Proof.
  induction d as [|[k0 v0] d IH]; simpl; intros H.
  - intros [].
  - destruct (String.eqb k k0) eqn:E; [discriminate|].
    apply String.eqb_neq in E. intros [Hk|Hk]; [congruence|].
    exact (IH H Hk).
Qed.

Lemma not_In_dict_get d k : ~ In k (map fst d) -> dict_get d k = None.
Proof.
  induction d as [|[k0 v0] d IH]; simpl; intros H; [reflexivity|].
  destruct (String.eqb k k0) eqn:E.
  - apply String.eqb_eq in E. subst. exfalso. apply H. left. reflexivity.
  - apply IH. intros Hk. apply H. right. exact Hk.
Qed.

Lemma In_dict_get d k v :
  NoDup (map fst d) -> In (k, v) d -> dict_get d k = Some v.
Proof.
  induction d as [|[k0 v0] d IH]; simpl; intros Hnd Hin; [contradiction|].
  inversion Hnd as [|? ? Hnotin Hnd']. subst.
  destruct Hin as [Heq|Hin].
  - inversion Heq. subst. rewrite String.eqb_refl. reflexivity.
  - destruct (String.eqb k k0) eqn:E.
    + apply String.eqb_eq in E. subst. exfalso. apply Hnotin.
      apply (in_map fst) in Hin. exact Hin.
    + apply IH; assumption.
Qed.

Lemma dict_mem_true d k : dict_mem d k = true <-> In k (map fst d).
Proof.
  unfold dict_mem. split.
  - destruct (dict_get d k) eqn:E; [|discriminate]. intros _.
    apply dict_get_In in E. apply (in_map fst) in E. exact E.
  - intros H. destruct (dict_get d k) eqn:E; [reflexivity|].
    apply dict_get_None in E. contradiction.
Qed.

Lemma dict_set_keys d k v :
  map fst (dict_set d k v)
  = if dict_mem d k then map fst d else map fst d ++ [k].
Proof.
  unfold dict_mem. induction d as [|[k0 v0] d IH]; simpl; [reflexivity|].
  destruct (String.eqb k k0) eqn:E; simpl; [reflexivity|].
  rewrite IH. destruct (dict_get d k); reflexivity.
Qed.

Lemma dict_set_NoDup d k v :
  NoDup (map fst d) -> NoDup (map fst (dict_set d k v)).
Proof.
  intros H. rewrite dict_set_keys. destruct (dict_mem d k) eqn:E; [exact H|].
  apply NoDup_app; [exact H|repeat constructor; intros []|].
  intros x Hx [Hk|[]]. subst x.
  apply dict_mem_true in Hx. congruence.
Qed.

Lemma dict_set_Forall (P : V -> Prop) d k v :
  Forall (fun e => P (snd e)) d -> P v ->
  Forall (fun e => P (snd e)) (dict_set d k v).
Proof.
  intros H Hv. induction d as [|[k0 v0] d IH]; simpl.
  - constructor; [exact Hv|constructor].
  - inversion H as [|? ? H0 H1]. subst.
    destruct (String.eqb k k0); constructor; auto.
Qed.

(** The idiom [if k not in d: d[k] = e] followed by an update of [d[k]]. *)
Lemma ensure_then_update d k (e : V) (f : V -> V) :
  (let d1 := if dict_mem d k then d else dict_set d k e in
   match dict_get d1 k with
   | Some x => dict_set d1 k (f x)
   | None => d1
   end)
  = dict_set d k (f (match dict_get d k with Some x => x | None => e end)).
Proof.
  unfold dict_mem. cbv zeta. destruct (dict_get d k) eqn:E.
  - rewrite E. reflexivity.
  - rewrite dict_get_set_eq, dict_set_set. reflexivity.
Qed.

End DictFacts.

Lemma values_of_set inner key values k :
  values_of (dict_set inner key values) k
  = if String.eqb k key then values else values_of inner k.
Proof.
  unfold values_of. destruct (String.eqb k key) eqn:E.
  - apply String.eqb_eq in E. subst. rewrite dict_get_set_eq. reflexivity.
  - apply String.eqb_neq in E. rewrite dict_get_set_neq by exact E. reflexivity.
Qed.

Lemma inner_of_set d namespace inner ns :
  inner_of (dict_set d namespace inner) ns
  = if String.eqb ns namespace then inner else inner_of d ns.
Proof.
  unfold inner_of. destruct (String.eqb ns namespace) eqn:E.
  - apply String.eqb_eq in E. subst. rewrite dict_get_set_eq. reflexivity.
  - apply String.eqb_neq in E. rewrite dict_get_set_neq by exact E. reflexivity.
Qed.

Lemma wf_kv_dict_set d namespace inner :
  wf_kv_dict d -> wf_inner inner -> wf_kv_dict (dict_set d namespace inner).
Proof.
  intros [Hnd Hall] Hinner. split.
  - apply dict_set_NoDup. exact Hnd.
  - apply (dict_set_Forall wf_inner); assumption.
Qed.

Lemma wf_inner_of d ns : wf_kv_dict d -> wf_inner (inner_of d ns).
Proof.
  intros [Hnd Hall]. unfold inner_of.
  destruct (dict_get d ns) eqn:E; [|constructor].
  apply dict_get_In in E. rewrite Forall_forall in Hall.
  apply (Hall _ E).
Qed.

(** The pairs written for a dict of keys are its entries. *)
Lemma items_to_pairs_In inner k v :
  wf_inner inner ->
  (In (k, v) (items_to_pairs inner) <-> In v (values_of inner k)).
Proof.
  intros Hwf. unfold items_to_pairs, values_of. rewrite in_flat_map. split.
  - intros [[k' values] [Hin Hmap]]. apply in_map_iff in Hmap.
    destruct Hmap as [v' [Heq Hv']]. inversion Heq. subst.
    rewrite (In_dict_get _ _ _ Hwf Hin). exact Hv'.
  - destruct (dict_get inner k) eqn:E; [|intros []].
    intros Hv. exists (k, l). split; [apply dict_get_In; exact E|].
    apply in_map. exact Hv.
Qed.

(** * Properties of the snapshot of the map annotations *)

Lemma append_pair_eq inner key value :
  append_pair inner (key, value)
  = dict_set inner key (values_of inner key ++ [value]).
Proof.
  unfold append_pair, values_of.
  apply (ensure_then_update inner key [] (fun values => values ++ [value])).
Qed.

Lemma record_annotation_eq d ns kvs :
  record_annotation d (MapAnnotation ns kvs)
  = dict_set d ns (fold_left append_pair kvs (inner_of d ns)).
Proof.
  unfold record_annotation, inner_of.
  apply (ensure_then_update d ns [] (fold_left append_pair kvs)).
Qed.

Lemma fold_append_pair_values kvs : forall inner k v,
  In v (values_of (fold_left append_pair kvs inner) k)
  <-> In v (values_of inner k) \/ In (k, v) kvs.
Proof.
  induction kvs as [|[key value] kvs IH]; intros inner k v; simpl.
  - tauto.
  - rewrite IH, append_pair_eq, values_of_set.
    destruct (String.eqb k key) eqn:E.
    + apply String.eqb_eq in E. subst key. rewrite in_app_iff. simpl.
      split.
      * intros [[H|[H|[]]]|H]; auto. subst. right. left. reflexivity.
      * intros [H|[H|H]]; auto. inversion H. subst. left. right. left. reflexivity.
    + apply String.eqb_neq in E. split.
      * intros [H|H]; auto.
      * intros [H|[H|H]]; auto. inversion H. congruence.
Qed.

Lemma fold_append_pair_wf kvs : forall inner,
  wf_inner inner -> wf_inner (fold_left append_pair kvs inner).
Proof.
  induction kvs as [|[key value] kvs IH]; intros inner H; simpl; [exact H|].
  apply IH. rewrite append_pair_eq. apply dict_set_NoDup. exact H.
Qed.

Lemma record_annotation_values d a ns k v :
  In v (values_of (inner_of (record_annotation d a) ns) k)
  <-> In v (values_of (inner_of d ns) k) \/ stored_in [a] ns k v.
Proof.
  unfold stored_in. destruct a as [id value|namespace kvs].
  - simpl. split; [auto|]. intros [H|[kvs [[H|[]] _]]]; [exact H|discriminate].
  - rewrite record_annotation_eq, inner_of_set.
    destruct (String.eqb ns namespace) eqn:E.
    + apply String.eqb_eq in E. subst namespace.
      rewrite fold_append_pair_values. split.
      * intros [H|H]; [left; exact H|]. right. exists kvs. simpl. auto.
      * intros [H|[kvs' [[H|[]] Hin]]]; [left; exact H|].
        inversion H. subst. right. exact Hin.
    + apply String.eqb_neq in E. split; [auto|].
      intros [H|[kvs' [[H|[]] Hin]]]; [exact H|]. inversion H. congruence.
Qed.

Lemma record_annotation_wf d a : wf_kv_dict d -> wf_kv_dict (record_annotation d a).
Proof.
  intros H. destruct a as [id value|namespace kvs]; [exact H|].
  rewrite record_annotation_eq. apply wf_kv_dict_set; [exact H|].
  apply fold_append_pair_wf. apply wf_inner_of. exact H.
Qed.

Lemma record_annotation_keys d a ns :
  In ns (map fst (record_annotation d a))
  <-> In ns (map fst d) \/ exists kvs, a = MapAnnotation ns kvs.
Proof.
  destruct a as [id value|namespace kvs].
  - simpl. split; [auto|]. intros [H|[kvs H]]; [exact H|discriminate].
  - rewrite record_annotation_eq, dict_set_keys.
    destruct (dict_mem d namespace) eqn:E.
    + apply dict_mem_true in E. split; [auto|].
      intros [H|[kvs' H]]; [exact H|]. inversion H. subst. exact E.
    + rewrite in_app_iff. simpl. split.
      * intros [H|[H|[]]]; [auto|]. subst. right. exists kvs. reflexivity.
      * intros [H|[kvs' H]]; [auto|]. inversion H. auto.
Qed.

Lemma snapshot_fold_values l : forall d ns k v,
  In v (values_of (inner_of (fold_left record_annotation l d) ns) k)
  <-> In v (values_of (inner_of d ns) k) \/ stored_in l ns k v.
Proof.
  induction l as [|a l IH]; intros d ns k v; simpl.
  - unfold stored_in. split; [auto|]. intros [H|[kvs [[] _]]]. exact H.
  - rewrite IH, record_annotation_values. unfold stored_in. simpl. split.
    + intros [[H|[kvs [[H|[]] Hin]]]|[kvs [H Hin]]]; eauto 6.
    + intros [H|[kvs [[H|H] Hin]]]; eauto 7.
Qed.

Lemma snapshot_fold_wf l : forall d,
  wf_kv_dict d -> wf_kv_dict (fold_left record_annotation l d).
Proof.
  induction l as [|a l IH]; intros d H; simpl; [exact H|].
  apply IH. apply record_annotation_wf. exact H.
Qed.

Lemma snapshot_fold_keys l : forall d ns,
  In ns (map fst (fold_left record_annotation l d))
  <-> In ns (map fst d) \/ exists kvs, In (MapAnnotation ns kvs) l.
Proof.
  induction l as [|a l IH]; intros d ns; simpl.
  - split; [auto|]. intros [H|[kvs []]]. exact H.
  - rewrite IH, record_annotation_keys. split.
    + intros [[H|[kvs H]]|[kvs H]]; eauto.
    + intros [H|[kvs [H|H]]]; eauto.
Qed.

Lemma wf_kv_dict_nil : wf_kv_dict [].
Proof. split; constructor. Qed.

(** The snapshot holds exactly the pairs stored on the image. *)
Lemma get_existing_values st ns k v :
  In v (values_of (inner_of (get_existing_map_annotations st) ns) k)
  <-> stored st ns k v.
Proof.
  unfold get_existing_map_annotations, stored.
  rewrite snapshot_fold_values. simpl. tauto.
Qed.

Lemma get_existing_wf st : wf_kv_dict (get_existing_map_annotations st).
Proof. apply snapshot_fold_wf. apply wf_kv_dict_nil. Qed.

Lemma get_existing_keys st ns :
  dict_mem (get_existing_map_annotations st) ns = true
  <-> exists kvs, In (MapAnnotation ns kvs) (image_annotations st).
Proof.
  rewrite dict_mem_true. unfold get_existing_map_annotations.
  rewrite snapshot_fold_keys. simpl. tauto.
Qed.

(** The pairs the code lists for a namespace of the snapshot. *)
Lemma get_existing_pairs st ns k v :
  In (k, v) (items_to_pairs (inner_of (get_existing_map_annotations st) ns))
  <-> stored st ns k v.
Proof.
  rewrite items_to_pairs_In.
  - apply get_existing_values.
  - apply wf_inner_of. apply get_existing_wf.
Qed.

(** * Properties of the merge of Append *)

Lemma append_values_cons value values present counter :
  append_values (value :: values) (present, counter)
  = append_values values
      (if list_mem value present then (present, counter)
       else (present ++ [value], (counter + 1)%Z)).
Proof. reflexivity. Qed.

Lemma append_values_keeps values : forall present counter v,
  In v present -> In v (fst (append_values values (present, counter))).
Proof.
  induction values as [|value values IH]; intros present counter v H.
  - exact H.
  - rewrite append_values_cons. destruct (list_mem value present).
    + apply IH. exact H.
    + apply IH. apply in_or_app. left. exact H.
Qed.

Lemma append_key_values_cons key values kvs inner counter :
  append_key_values ((key, values) :: kvs) (inner, counter)
  = let merged := append_values values (values_of inner key, counter) in
    append_key_values kvs (dict_set inner key (fst merged), snd merged).
Proof.
  unfold append_key_values at 1. cbn [fold_left]. fold (append_key_values kvs).
  f_equal. unfold values_of, dict_mem.
  destruct (dict_get inner key) as [present|] eqn:E.
  - rewrite E. destruct (append_values values (present, counter)). reflexivity.
  - rewrite dict_get_set_eq.
    destruct (append_values values ([], counter)). simpl.
    rewrite dict_set_set. reflexivity.
Qed.

Lemma append_key_values_keeps kvs : forall inner counter k v,
  In v (values_of inner k) ->
  In v (values_of (fst (append_key_values kvs (inner, counter))) k).
Proof.
  induction kvs as [|[key values] kvs IH]; intros inner counter k v H.
  - exact H.
  - rewrite append_key_values_cons. cbv zeta. apply IH.
    rewrite values_of_set. destruct (String.eqb k key) eqn:E; [|exact H].
    apply String.eqb_eq in E. subst key. apply append_values_keeps. exact H.
Qed.

Lemma append_key_values_wf kvs : forall inner counter,
  wf_inner inner -> wf_inner (fst (append_key_values kvs (inner, counter))).
Proof.
  induction kvs as [|[key values] kvs IH]; intros inner counter H.
  - exact H.
  - rewrite append_key_values_cons. cbv zeta. apply IH.
    apply dict_set_NoDup. exact H.
Qed.

Lemma append_merge_cons namespace kvs new d counter :
  append_merge ((namespace, kvs) :: new) (d, counter)
  = let merged := append_key_values kvs (inner_of d namespace, counter) in
    append_merge new (dict_set d namespace (fst merged), snd merged).
Proof.
  cbv zeta. unfold append_merge. cbn [fold_left]. f_equal.
  unfold inner_of, dict_mem, kv_dict, key_values, dict in *.
  destruct (dict_get d namespace) as [inner|] eqn:E.
  - try rewrite E. destruct (append_key_values kvs (inner, counter)). reflexivity.
  - rewrite dict_get_set_eq.
    destruct (append_key_values kvs ([], counter)). simpl.
    rewrite dict_set_set. reflexivity.
Qed.

Lemma append_merge_keeps new : forall d counter ns k v,
  In v (values_of (inner_of d ns) k) ->
  In v (values_of (inner_of (fst (append_merge new (d, counter))) ns) k).
Proof.
  induction new as [|[namespace kvs] new IH]; intros d counter ns k v H.
  - exact H.
  - rewrite append_merge_cons. cbv zeta. apply IH.
    rewrite inner_of_set. destruct (String.eqb ns namespace) eqn:E; [|exact H].
    apply String.eqb_eq in E. subst namespace.
    apply append_key_values_keeps. exact H.
Qed.

Lemma append_merge_wf new : forall d counter,
  wf_kv_dict d -> wf_kv_dict (fst (append_merge new (d, counter))).
Proof.
  induction new as [|[namespace kvs] new IH]; intros d counter H.
  - exact H.
  - rewrite append_merge_cons. cbv zeta. apply IH.
    apply wf_kv_dict_set; [exact H|].
    apply append_key_values_wf. apply wf_inner_of. exact H.
Qed.

(** A namespace that the new data does not name keeps its entry. *)
Lemma append_merge_absent new : forall d counter ns,
  dict_mem new ns = false ->
  dict_get (fst (append_merge new (d, counter))) ns = dict_get d ns.
Proof.
  induction new as [|[namespace kvs] new IH]; intros d counter ns H.
  - reflexivity.
  - rewrite append_merge_cons. cbv zeta.
    unfold dict_mem in H. simpl in H.
    destruct (String.eqb ns namespace) eqn:E; [discriminate|].
    rewrite IH by exact H.
    apply dict_get_set_neq. apply String.eqb_neq. exact E.
Qed.

Lemma append_new_pairs_cons key_value new updated counter :
  append_new_pairs (key_value :: new) (updated, counter)
  = append_new_pairs new
      (if pair_mem key_value updated then (updated, counter)
       else (updated ++ [key_value], (counter + 1)%Z)).
Proof. reflexivity. Qed.

Lemma append_new_pairs_keeps new : forall updated counter p,
  In p updated -> In p (fst (append_new_pairs new (updated, counter))).
Proof.
  induction new as [|key_value new IH]; intros updated counter p H.
  - exact H.
  - rewrite append_new_pairs_cons. destruct (pair_mem key_value updated).
    + apply IH. exact H.
    + apply IH. apply in_or_app. left. exact H.
Qed.

(** * Properties of the engine *)

Lemma map_frame_refl s : map_frame s s.
Proof. split; auto. Qed.

Lemma map_frame_trans s1 s2 s3 :
  map_frame s1 s2 -> map_frame s2 s3 -> map_frame s1 s3.
Proof. intros [H1 H2] [H3 H4]. split; [congruence|auto]. Qed.

Lemma grows_refl s : grows s s.
Proof. split; auto. Qed.

Lemma grows_trans s1 s2 s3 : grows s1 s2 -> grows s2 s3 -> grows s1 s3.
Proof. intros [H1 H2] [H3 H4]. split; auto. Qed.

Lemma not_relinked_refl tags s : not_relinked tags s s.
Proof. intros id t _ H. exact H. Qed.

Lemma linked_iff st t :
  linked st t <-> exists id, In (TagAnnotation id t) (tags_of st).
Proof.
  unfold linked, get_linked_tag_annotations, tags_of. rewrite in_flat_map. split.
  - intros [[id value|ns kvs] [Hin Hv]]; simpl in Hv; [|contradiction].
    destruct Hv as [Hv|[]]. subst. exists id. apply filter_In. auto.
  - intros [id H]. apply filter_In in H. exists (TagAnnotation id t).
    split; [tauto|left; reflexivity].
Qed.

Lemma stored_in_app l1 l2 ns k v :
  stored_in (l1 ++ l2) ns k v <-> stored_in l1 ns k v \/ stored_in l2 ns k v.
Proof.
  unfold stored_in. split.
  - intros [kvs [H Hin]]. apply in_app_iff in H. destruct H; eauto.
  - intros [[kvs [H Hin]]|[kvs [H Hin]]]; exists kvs; rewrite in_app_iff; auto.
Qed.

Lemma stored_in_tag id value ns k v : ~ stored_in [TagAnnotation id value] ns k v.
Proof. intros [kvs [[H|[]] _]]. discriminate. Qed.

Lemma stored_in_map namespace pairs ns k v :
  stored_in [MapAnnotation namespace pairs] ns k v
  <-> ns = namespace /\ In (k, v) pairs.
Proof.
  unfold stored_in. split.
  - intros [kvs [[H|[]] Hin]]. inversion H. auto.
  - intros [-> Hin]. exists pairs. simpl. auto.
Qed.

Lemma stored_in_without namespace l ns k v :
  stored_in (filter (fun a => negb (is_map_with namespace a)) l) ns k v
  <-> ns <> namespace /\ stored_in l ns k v.
Proof.
  unfold stored_in. split.
  - intros [kvs [H Hin]]. apply filter_In in H. destruct H as [H Hf].
    simpl in Hf. apply negb_true_iff in Hf. apply String.eqb_neq in Hf. eauto.
  - intros [Hne [kvs [H Hin]]]. exists kvs. split; [|exact Hin].
    apply filter_In. split; [exact H|]. simpl.
    apply negb_true_iff. apply String.eqb_neq. exact Hne.
Qed.

Lemma tags_without namespace l :
  filter is_tag (filter (fun a => negb (is_map_with namespace a)) l)
  = filter is_tag l.
Proof.
  induction l as [|[id value|ns kvs] l IH]; simpl; [reflexivity| |].
  - rewrite IH. reflexivity.
  - destruct (String.eqb ns namespace); simpl; exact IH.
Qed.

Lemma in_app_single {A} (x y : A) l : In x (l ++ [y]) <-> In x l \/ x = y.
Proof. rewrite in_app_iff. simpl. intuition congruence. Qed.

(** *** The tags of Append *)

Lemma list_mem_In x l : list_mem x l = true <-> In x l.
Proof.
  unfold list_mem. rewrite existsb_exists. split.
  - intros [y [Hin Heq]]. apply String.eqb_eq in Heq. subst. exact Hin.
  - intros H. exists x. split; [exact H|apply String.eqb_refl].
Qed.

Lemma incl_grows s s' :
  incl (image_annotations s) (image_annotations s') -> grows s s'.
Proof.
  intros Hincl. split.
  - intros t. rewrite !linked_iff. unfold tags_of. intros [id H].
    exists id. apply filter_In in H. apply filter_In. split; [|tauto].
    apply Hincl. tauto.
  - intros ns k v [kvs [H Hin]]. exists kvs. split; [apply Hincl; exact H|exact Hin].
Qed.

Lemma map_frame_linked s s' t : map_frame s s' -> linked s t -> linked s' t.
Proof. intros [Htags _]. rewrite !linked_iff, Htags. auto. Qed.

Lemma append_link_tags_spec new_tags existing_tags tag_dict :
  forall counter st,
  exists st',
    append_link_tags new_tags existing_tags tag_dict counter st
    = (Ok (counter + Z.of_nat (length (tags_to_link new_tags existing_tags)))%Z, st')
    /\ incl (image_annotations st) (image_annotations st')
    /\ not_relinked existing_tags st st'
    /\ (forall ns k v, stored st' ns k v <-> stored st ns k v).
Proof.
  induction new_tags as [|tag new_tags IH]; intros counter st; simpl.
  - exists st. rewrite Z.add_0_r. split; [reflexivity|].
    split; [apply incl_refl|]. split; [apply not_relinked_refl|tauto].
  - destruct (list_mem tag existing_tags) eqn:Emem; simpl.
    + apply IH.
    + assert (Hstep : forall id st1,
                 image_annotations st1 = image_annotations st ->
                 (forall i t, In (Linked_tag i t) (trace st1) ->
                              In (Linked_tag i t) (trace st)) ->
                 exists st',
                   bind (link_tag id tag)
                     (fun _ => append_link_tags new_tags existing_tags tag_dict
                                 (counter + 1)) st1
                   = (Ok (counter + Z.pos (Pos.of_succ_nat
                            (length (tags_to_link new_tags existing_tags))))%Z, st')
                   /\ incl (image_annotations st) (image_annotations st')
                   /\ not_relinked existing_tags st st'
                   /\ (forall ns k v, stored st' ns k v <-> stored st ns k v)).
      { intros id st1 Hanns Htrace. unfold bind. cbn [link_tag].
        match goal with
        | |- context [append_link_tags _ _ _ _ ?s] =>
            destruct (IH (counter + 1)%Z s) as (st' & Heq & Hincl & Hrel & Hst)
        end.
        exists st'. rewrite Heq. split; [f_equal; f_equal; lia|].
        split.
        - intros a Ha. apply Hincl. simpl. rewrite Hanns.
          apply in_or_app. left. exact Ha.
        - split.
          + intros i t Ht Hin. apply Hrel in Hin; [|exact Ht].
            simpl in Hin. rewrite in_app_single in Hin.
            destruct Hin as [Hin|Hin]; [auto|].
            inversion Hin. subst.
            apply list_mem_In in Ht. congruence.
          + intros ns k v. rewrite Hst. unfold stored. simpl.
            rewrite Hanns, stored_in_app. split; [|auto].
            intros [H|H]; [exact H|]. exfalso. exact (stored_in_tag _ _ _ _ _ H). }
      destruct (dict_get tag_dict tag) as [tag_id|].
      * apply Hstep; [reflexivity|auto].
      * unfold bind at 1. cbn [save_tag]. apply Hstep; [reflexivity|].
        simpl. intros i t H. rewrite in_app_single in H.
        destruct H as [H|H]; [exact H|discriminate].
Qed.

Lemma append_tags_phase new_tags st :
  exists st',
    (if 0 <? length new_tags then append_tags new_tags 0 else ret 0%Z) st
    = (Ok (Z.of_nat (length (tags_to_link new_tags
                               (get_linked_tag_annotations st)))), st')
    /\ grows st st'
    /\ not_relinked (get_linked_tag_annotations st) st st'
    /\ (forall ns k v, stored st' ns k v <-> stored st ns k v).
Proof.
  destruct new_tags as [|tag new_tags].
  - exists st. simpl. split; [reflexivity|].
    split; [apply grows_refl|]. split; [apply not_relinked_refl|tauto].
  - cbn [length Nat.ltb Nat.leb]. unfold append_tags, bind, gets.
    destruct (append_link_tags_spec (tag :: new_tags)
                (get_linked_tag_annotations st) (get_tag_dict st) 0%Z st)
      as (st' & Heq & Hincl & Hrel & Hst).
    exists st'. rewrite Heq. split; [reflexivity|].
    split; [apply incl_grows; exact Hincl|]. split; assumption.
Qed.

Lemma append_link_tags_extends new_tags existing_tags tag_dict :
  forall counter st,
    incl (image_annotations st)
      (image_annotations
         (snd (append_link_tags new_tags existing_tags tag_dict counter st)))
    /\ exists events,
        trace (snd (append_link_tags new_tags existing_tags tag_dict counter st))
        = trace st ++ events.
Proof.
  induction new_tags as [|tag new_tags IH]; intros counter st; simpl.
  - split; [apply incl_refl|]. exists []. rewrite app_nil_r. reflexivity.
  - destruct (list_mem tag existing_tags); [apply IH|].
    destruct (dict_get tag_dict tag) as [tag_id|].
    + unfold bind. cbn [link_tag].
      match goal with
      | |- context [append_link_tags _ _ _ ?c ?s] =>
          destruct (IH c s) as [Hincl [events Hev]]
      end.
      split.
      * intros a Ha. apply Hincl. simpl. apply in_or_app. left. exact Ha.
      * rewrite Hev. simpl. rewrite <- app_assoc. eexists. reflexivity.
    + unfold bind. cbn [save_tag link_tag].
      match goal with
      | |- context [append_link_tags _ _ _ ?c ?s] =>
          destruct (IH c s) as [Hincl [events Hev]]
      end.
      split.
      * intros a Ha. apply Hincl. simpl. apply in_or_app. left. exact Ha.
      * rewrite Hev. simpl. rewrite <- !app_assoc. eexists. reflexivity.
Qed.

Lemma append_tags_phase_extends new_tags st :
  let st' :=
    snd ((if 0 <? length new_tags then append_tags new_tags 0 else ret 0%Z) st) in
  incl (image_annotations st) (image_annotations st')
  /\ exists events, trace st' = trace st ++ events.
Proof.
  cbv zeta. destruct (0 <? length new_tags).
  - unfold append_tags, bind, gets. apply append_link_tags_extends.
  - split; [apply incl_refl|]. exists []. rewrite app_nil_r. reflexivity.
Qed.

(** *** The tags of Overwrite *)

Lemma unlink_events_annotations l : forall st,
  image_annotations
    (fold_left
       (fun st a => match a with
                    | TagAnnotation _ value => with_event st (Unlinked_tag value)
                    | MapAnnotation _ _ => st
                    end) l st)
  = image_annotations st.
Proof.
  induction l as [|[id value|ns kvs] l IH]; intros st; simpl;
    [reflexivity|rewrite IH; reflexivity|apply IH].
Qed.

Lemma tags_of_no_tags l : filter is_tag (filter (fun a => negb (is_tag a)) l) = [].
Proof.
  induction l as [|[id value|ns kvs] l IH]; simpl; auto.
Qed.

Lemma stored_in_no_tags l ns k v :
  stored_in (filter (fun a => negb (is_tag a)) l) ns k v <-> stored_in l ns k v.
Proof.
  unfold stored_in. split.
  - intros [kvs [H Hin]]. apply filter_In in H. exists kvs. tauto.
  - intros [kvs [H Hin]]. exists kvs. split; [|exact Hin].
    apply filter_In. split; [exact H|reflexivity].
Qed.

Lemma remove_tag_annotations_spec st :
  exists st',
    remove_tag_annotations st = (Ok (ntags st), st')
    /\ ntags st' = 0
    /\ (forall ns k v, stored st' ns k v <-> stored st ns k v).
Proof.
  unfold remove_tag_annotations. eexists. split; [reflexivity|].
  unfold ntags, tags_of, stored. rewrite unlink_events_annotations. simpl.
  split.
  - rewrite tags_of_no_tags. reflexivity.
  - intros ns k v. apply stored_in_no_tags.
Qed.

Lemma link_tag_spec id value st :
  ntags (snd (link_tag id value st)) = S (ntags st)
  /\ (forall ns k v, stored (snd (link_tag id value st)) ns k v <-> stored st ns k v).
Proof.
  unfold ntags, tags_of, stored. simpl. split.
  - rewrite filter_app, length_app. simpl. lia.
  - intros ns k v. rewrite stored_in_app. split; [|auto].
    intros [H|H]; [exact H|]. exfalso. exact (stored_in_tag _ _ _ _ _ H).
Qed.

Lemma overwrite_link_tags_spec new_tags : forall tag_dict counter st,
  exists st',
    overwrite_link_tags new_tags tag_dict counter st
    = (Ok (counter + Z.of_nat (length new_tags))%Z, st')
    /\ ntags st' = ntags st + length new_tags
    /\ (forall ns k v, stored st' ns k v <-> stored st ns k v).
Proof.
  induction new_tags as [|tag_value new_tags IH]; intros tag_dict counter st.
  - exists st. simpl. rewrite Z.add_0_r, Nat.add_0_r.
    split; [reflexivity|]. split; [reflexivity|tauto].
  - cbn [overwrite_link_tags].
    assert (Hstep : forall id tag_dict' st1,
               ntags st1 = ntags st ->
               (forall ns k v, stored st1 ns k v <-> stored st ns k v) ->
               exists st',
                 bind (link_tag id tag_value)
                   (fun _ => overwrite_link_tags new_tags tag_dict' (counter + 1)) st1
                 = (Ok (counter + Z.of_nat (length (tag_value :: new_tags)))%Z, st')
                 /\ ntags st' = ntags st + length (tag_value :: new_tags)
                 /\ (forall ns k v, stored st' ns k v <-> stored st ns k v)).
    { intros id tag_dict' st1 Hn Hst. unfold bind.
      destruct (link_tag id tag_value st1) as [[[]|e] st2] eqn:E;
        [|discriminate E].
      assert (Hst2 : st2 = snd (link_tag id tag_value st1)) by (rewrite E; reflexivity).
      destruct (link_tag_spec id tag_value st1) as [Hn2 Hs2].
      rewrite <- Hst2 in Hn2, Hs2.
      destruct (IH tag_dict' (counter + 1)%Z st2) as (st' & Heq & Hn' & Hs').
      exists st'. rewrite Heq. split; [f_equal; f_equal; simpl length; lia|].
      split; [simpl length; lia|].
      intros ns k v. rewrite Hs', Hs2. apply Hst. }
    destruct (dict_get tag_dict tag_value) as [tag_id|].
    + apply Hstep; [reflexivity|tauto].
    + unfold bind at 1. cbn [save_tag]. apply Hstep; [reflexivity|].
      unfold stored. simpl. tauto.
Qed.

Lemma overwrite_tags_phase new_tags st :
  exists st',
    (if 0 <? length new_tags then overwrite_tags new_tags else ret 0%Z) st
    = (Ok (if 0 <? length new_tags
           then (Z.of_nat (length new_tags) - Z.of_nat (ntags st))%Z
           else 0%Z), st')
    /\ ntags st' = (if 0 <? length new_tags then length new_tags else ntags st)
    /\ (forall ns k v, stored st' ns k v <-> stored st ns k v).
Proof.
  destruct (0 <? length new_tags).
  - unfold overwrite_tags, bind.
    destruct (remove_tag_annotations_spec st) as (st1 & Heq1 & Hn1 & Hs1).
    rewrite Heq1. cbn [gets].
    destruct (overwrite_link_tags_spec new_tags (get_tag_dict st1) 0%Z st1)
      as (st2 & Heq2 & Hn2 & Hs2).
    rewrite Heq2. exists st2. split; [reflexivity|].
    split; [lia|]. intros ns k v. rewrite Hs2. apply Hs1.
  - exists st. split; [reflexivity|]. split; [reflexivity|tauto].
Qed.

Lemma map_frame_ntags s s' : map_frame s s' -> ntags s' = ntags s.
Proof. intros [H _]. unfold ntags. rewrite H. reflexivity. Qed.

Lemma fst_bind {A B} (m : M A) (f : A -> M B) st :
  fst (bind m f st)
  = match fst (m st) with
    | Ok a => fst (f a (snd (m st)))
    | Raise e => Raise e
    end.
Proof. unfold bind. destruct (m st) as [[a|e] st']; reflexivity. Qed.

Section Engine.

Variable DEFAULT_NAMESPACE : string.
Variable directory : list string.
Variable delete_outcome : nat -> option delete_failure.

(** *** remove_map_annotations and link_map *)

Lemma remove_map_annotations_frame namespace st :
  map_frame st (snd (remove_map_annotations delete_outcome namespace st)).
Proof.
  unfold remove_map_annotations, map_frame, tags_of.
  destruct (delete_outcome (submitted st)) as [[[text|]]|]; simpl.
  - split; [reflexivity|]. intros id t H.
    rewrite !in_app_single in H. intuition discriminate.
  - split; [reflexivity|]. intros id t H.
    rewrite !in_app_single in H. intuition discriminate.
  - split; [apply tags_without|]. intros id t H.
    rewrite !in_app_single in H. intuition discriminate.
Qed.

Lemma remove_map_annotations_success namespace st :
  delete_outcome (submitted st) = None ->
  remove_map_annotations delete_outcome namespace st
  = (Ok tt,
     with_annotations
       (with_event (with_submitted st) (Submitted_delete namespace))
       (filter (fun a => negb (is_map_with namespace a)) (image_annotations st))).
Proof. intros H. unfold remove_map_annotations. rewrite H. reflexivity. Qed.

Lemma remove_map_annotations_logged namespace st :
  every_delete_logged delete_outcome ->
  fst (remove_map_annotations delete_outcome namespace st) = Ok tt.
Proof.
  intros H. unfold remove_map_annotations.
  destruct (delete_outcome (submitted st)) as [[[text|]]|] eqn:E; try reflexivity.
  exfalso. apply (H _ _ E). reflexivity.
Qed.

(** What a delete may lose: pairs of its namespace, and only when it
    returns. *)
Lemma remove_map_annotations_stored namespace st ns k v :
  stored st ns k v ->
  ns <> namespace
  \/ (exists e, fst (remove_map_annotations delete_outcome namespace st) = Raise e) ->
  stored (snd (remove_map_annotations delete_outcome namespace st)) ns k v.
Proof.
  unfold remove_map_annotations, stored.
  destruct (delete_outcome (submitted st)) as [[[text|]]|]; simpl; auto.
  intros H [Hne|[e He]]; [|discriminate].
  apply stored_in_without. auto.
Qed.

Lemma link_map_frame namespace pairs st :
  map_frame st (snd (link_map namespace pairs st)).
Proof.
  unfold map_frame, tags_of. simpl. split.
  - rewrite filter_app. simpl. apply app_nil_r.
  - intros id t H. rewrite in_app_single in H. intuition discriminate.
Qed.

Lemma link_map_stored namespace pairs st ns k v :
  stored (snd (link_map namespace pairs st)) ns k v
  <-> stored st ns k v \/ (ns = namespace /\ In (k, v) pairs).
Proof.
  unfold stored. simpl. rewrite stored_in_app, stored_in_map. tauto.
Qed.

(** Frames compose along [bind]. *)
Lemma bind_rel {A B} (R : store -> store -> Prop) (m : M A) (f : A -> M B) st :
  (forall s1 s2 s3, R s1 s2 -> R s2 s3 -> R s1 s3) ->
  R st (snd (m st)) ->
  (forall a, R (snd (m st)) (snd (f a (snd (m st))))) ->
  R st (snd (bind m f st)).
Proof.
  intros Htrans Hm Hf. unfold bind.
  destruct (m st) as [[a|e] st'] eqn:E; simpl in *.
  - eapply Htrans; [exact Hm|apply Hf].
  - exact Hm.
Qed.

Lemma assert_same b msg st : snd (assert b msg st) = st.
Proof. destruct b; reflexivity. Qed.

(** *** The rewrite of Append *)

Lemma append_rewrite_frame d : forall st,
  map_frame st (snd (append_rewrite delete_outcome d st)).
Proof.
  induction d as [|[namespace kvs] d IH]; intros st; simpl.
  - apply map_frame_refl.
  - apply bind_rel; [exact map_frame_trans|apply remove_map_annotations_frame|].
    intros _. apply bind_rel; [exact map_frame_trans|apply link_map_frame|].
    intros _. apply IH.
Qed.

Lemma append_rewrite_keeps s0 d : forall st,
  (forall ns kvs, In (ns, kvs) d ->
     forall k v, stored s0 ns k v -> In (k, v) (items_to_pairs kvs)) ->
  (forall ns k v, stored s0 ns k v -> stored st ns k v) ->
  forall ns k v, stored s0 ns k v ->
    stored (snd (append_rewrite delete_outcome d st)) ns k v.
Proof.
  induction d as [|[namespace kvs] d IH]; intros st Hd Hst ns k v H0; simpl.
  - apply Hst. exact H0.
  - unfold bind at 1.
    destruct (remove_map_annotations delete_outcome namespace st)
      as [[[]|e] st1] eqn:E.
    + unfold bind at 1. cbn [link_map].
      apply IH; [intros; eapply Hd; [right|]; eauto| |exact H0].
      intros ns' k' v' H'. apply link_map_stored.
      destruct (String.eqb ns' namespace) eqn:En.
      * apply String.eqb_eq in En. subst ns'. right. split; [reflexivity|].
        eapply Hd; [left; reflexivity|exact H'].
      * apply String.eqb_neq in En. left.
        replace st1 with (snd (remove_map_annotations delete_outcome namespace st))
          by (rewrite E; reflexivity).
        apply remove_map_annotations_stored; auto.
    + simpl.
      replace st1 with (snd (remove_map_annotations delete_outcome namespace st))
        by (rewrite E; reflexivity).
      apply remove_map_annotations_stored; [auto|].
      right. exists e. rewrite E. reflexivity.
Qed.

(** *** The key/value pairs of Append *)

Lemma append_dict_frame new counter st :
  map_frame st
    (snd (append_dict directory delete_outcome new counter st)).
Proof.
  unfold append_dict.
  apply bind_rel; [exact map_frame_trans|rewrite assert_same; apply map_frame_refl|].
  intros _. rewrite assert_same.
  apply bind_rel; [exact map_frame_trans|apply map_frame_refl|].
  intros existing. cbn [gets snd].
  destruct (append_merge new (existing, counter)) as [merged counter'].
  apply bind_rel; [exact map_frame_trans|apply append_rewrite_frame|].
  intros _. apply map_frame_refl.
Qed.

Lemma append_dict_keeps new counter st ns k v :
  stored st ns k v ->
  stored (snd (append_dict directory delete_outcome new counter st)) ns k v.
Proof.
  intros H. unfold append_dict. unfold bind at 1.
  destruct (0 <? length directory); simpl; [|exact H].
  unfold bind at 1. cbn [gets].
  destruct (append_merge new (get_existing_map_annotations st, counter))
    as [merged counter'] eqn:E.
  assert (Hmerged : merged
                    = fst (append_merge new (get_existing_map_annotations st, counter)))
    by (rewrite E; reflexivity).
  assert (Hrw : forall ns k v, stored st ns k v ->
                  stored (snd (append_rewrite delete_outcome merged st)) ns k v).
  { apply append_rewrite_keeps; [|auto].
    intros ns' kvs Hin k' v' H'.
    assert (Hwf : wf_kv_dict merged).
    { rewrite Hmerged. apply append_merge_wf. apply get_existing_wf. }
    assert (Hget : inner_of merged ns' = kvs).
    { unfold inner_of. rewrite (In_dict_get _ _ _ (proj1 Hwf) Hin). reflexivity. }
    apply items_to_pairs_In.
    - rewrite <- Hget. apply wf_inner_of. exact Hwf.
    - rewrite <- Hget, Hmerged. apply append_merge_keeps.
      apply get_existing_values. exact H'. }
  unfold bind.
  destruct (append_rewrite delete_outcome merged st) as [[[]|e] st1] eqn:E1;
    simpl; specialize (Hrw ns k v H); try rewrite E1 in Hrw; exact Hrw.
Qed.

Lemma append_list_frame new counter st :
  map_frame st
    (snd (append_list DEFAULT_NAMESPACE directory delete_outcome new counter st)).
Proof.
  unfold append_list.
  apply bind_rel; [exact map_frame_trans|rewrite assert_same; apply map_frame_refl|].
  intros _. rewrite assert_same.
  apply bind_rel; [exact map_frame_trans|apply map_frame_refl|].
  intros existing. cbn [gets snd].
  destruct (append_new_pairs new _) as [updated counter'].
  apply bind_rel; [exact map_frame_trans|apply remove_map_annotations_frame|].
  intros _.
  apply bind_rel; [exact map_frame_trans|apply link_map_frame|].
  intros _. apply map_frame_refl.
Qed.

Lemma append_list_keeps new counter st ns k v :
  stored st ns k v ->
  stored (snd (append_list DEFAULT_NAMESPACE directory delete_outcome new counter st))
    ns k v.
Proof.
  intros H. unfold append_list. unfold bind at 1.
  destruct (length directory =? 0); simpl; [|exact H].
  unfold bind at 1. cbn [gets].
  destruct (append_new_pairs new _) as [updated counter'] eqn:E.
  assert (Hupdated : In (k, v) updated \/ ns <> DEFAULT_NAMESPACE).
  { destruct (String.eqb ns DEFAULT_NAMESPACE) eqn:En.
    - apply String.eqb_eq in En. subst ns. left.
      replace updated with (fst (updated, counter')) by reflexivity.
      rewrite <- E. apply append_new_pairs_keeps.
      apply get_existing_pairs in H. unfold inner_of in H.
      destruct (dict_get (get_existing_map_annotations st) DEFAULT_NAMESPACE);
        [exact H|contradiction].
    - right. apply String.eqb_neq. exact En. }
  unfold bind at 1.
  destruct (remove_map_annotations delete_outcome DEFAULT_NAMESPACE st)
    as [[[]|e] st1] eqn:E1.
  - unfold bind. cbn [link_map ret snd].
    change (stored (snd (link_map DEFAULT_NAMESPACE updated st1)) ns k v).
    apply link_map_stored.
    destruct Hupdated as [Hin|Hne].
    + destruct (String.eqb ns DEFAULT_NAMESPACE) eqn:En.
      * apply String.eqb_eq in En. auto.
      * apply String.eqb_neq in En. left.
        replace st1
          with (snd (remove_map_annotations delete_outcome DEFAULT_NAMESPACE st))
          by (rewrite E1; reflexivity).
        apply remove_map_annotations_stored; auto.
    + left.
      replace st1
        with (snd (remove_map_annotations delete_outcome DEFAULT_NAMESPACE st))
        by (rewrite E1; reflexivity).
      apply remove_map_annotations_stored; auto.
  - simpl.
    replace st1
      with (snd (remove_map_annotations delete_outcome DEFAULT_NAMESPACE st))
      by (rewrite E1; reflexivity).
    apply remove_map_annotations_stored; [exact H|].
    right. exists e. rewrite E1. reflexivity.
Qed.

(** *** annotateObject, unfolded along the result of [split_data] *)

Lemma annotateObject_raise params data e st :
  split_data DEFAULT_NAMESPACE directory params data = Raise e ->
  annotateObject DEFAULT_NAMESPACE directory delete_outcome params data st
  = (Raise e, st).
Proof.
  intros H. unfold annotateObject, bind at 1, lift. rewrite H. reflexivity.
Qed.

Lemma annotateObject_append params data new_tags l d st :
  What_to_do_with_existing_Annotations params = Append ->
  split_data DEFAULT_NAMESPACE directory params data = Ok (new_tags, l, d) ->
  annotateObject DEFAULT_NAMESPACE directory delete_outcome params data st
  = (counter_tag_ann <-
       (if 0 <? length new_tags then append_tags new_tags 0 else ret 0%Z) ;;
     counter_map_ann <-
       (if 0 <? length d
        then append_dict directory delete_outcome d 0 else ret 0%Z) ;;
     counter_map_ann <-
       (if 0 <? length l
        then append_list DEFAULT_NAMESPACE directory delete_outcome l counter_map_ann
        else ret counter_map_ann) ;;
     ret (counter_map_ann, counter_tag_ann)) st.
Proof.
  intros Hp H. unfold annotateObject, bind at 1, lift. rewrite H, Hp. reflexivity.
Qed.

Lemma annotateObject_overwrite params data new_tags l d st :
  What_to_do_with_existing_Annotations params = Overwrite ->
  split_data DEFAULT_NAMESPACE directory params data = Ok (new_tags, l, d) ->
  annotateObject DEFAULT_NAMESPACE directory delete_outcome params data st
  = (counter_tag_ann <-
       (if 0 <? length new_tags then overwrite_tags new_tags else ret 0%Z) ;;
     counter_map_ann <-
       (if 0 <? length l
        then overwrite_list DEFAULT_NAMESPACE directory delete_outcome l 0
        else ret 0%Z) ;;
     counter_map_ann <-
       (if 0 <? length d
        then overwrite_dict directory delete_outcome d
        else ret counter_map_ann) ;;
     ret (counter_map_ann, counter_tag_ann)) st.
Proof.
  intros Hp H. unfold annotateObject, bind at 1, lift. rewrite H, Hp. reflexivity.
Qed.

(** The key/value part of Append: nothing stored is lost, the tags are left
    alone. *)
Lemma append_pairs_phase (l : kv_list) (d : kv_dict) (counter_tag_ann : Z) st :
  let st' :=
    snd ((counter_map_ann <-
            (if 0 <? length d
             then append_dict directory delete_outcome d 0 else ret 0%Z) ;;
          counter_map_ann <-
            (if 0 <? length l
             then append_list DEFAULT_NAMESPACE directory delete_outcome l
                    counter_map_ann
             else ret counter_map_ann) ;;
          ret (counter_map_ann, counter_tag_ann)) st) in
  map_frame st st' /\ (forall ns k v, stored st ns k v -> stored st' ns k v).
Proof.
  cbv zeta.
  apply (bind_rel (fun s s' => map_frame s s'
                     /\ forall ns k v, stored s ns k v -> stored s' ns k v)).
  - intros s1 s2 s3 [F1 K1] [F2 K2]. split; [eapply map_frame_trans; eauto|auto].
  - destruct (0 <? length d).
    + split; [apply append_dict_frame|]. intros; apply append_dict_keeps; auto.
    + split; [apply map_frame_refl|auto].
  - intros counter_map_ann.
    apply (bind_rel (fun s s' => map_frame s s'
                       /\ forall ns k v, stored s ns k v -> stored s' ns k v)).
    + intros s1 s2 s3 [F1 K1] [F2 K2]. split; [eapply map_frame_trans; eauto|auto].
    + destruct (0 <? length l).
      * split; [apply append_list_frame|]. intros; apply append_list_keeps; auto.
      * split; [apply map_frame_refl|auto].
    + intros c. split; [apply map_frame_refl|auto].
Qed.

(** *** The key/value pairs of Overwrite *)

Lemma existing_lists_eq (existing : kv_dict) namespace :
  (if 0 <? length existing
   then match dict_get existing namespace with
        | Some kvs => items_to_pairs kvs
        | None => []
        end
   else [])
  = items_to_pairs (inner_of existing namespace).
Proof.
  unfold inner_of. destruct existing as [|x existing]; [reflexivity|].
  cbn [length Nat.ltb Nat.leb]. destruct (dict_get (x :: existing) namespace); reflexivity.
Qed.

Lemma overwrite_list_frame l counter st :
  map_frame st
    (snd (overwrite_list DEFAULT_NAMESPACE directory delete_outcome l counter st)).
Proof.
  unfold overwrite_list.
  apply bind_rel; [exact map_frame_trans|rewrite assert_same; apply map_frame_refl|].
  intros _. rewrite assert_same.
  apply bind_rel; [exact map_frame_trans|apply map_frame_refl|].
  intros existing. cbn [gets snd].
  apply bind_rel; [exact map_frame_trans|apply remove_map_annotations_frame|].
  intros _.
  apply bind_rel; [exact map_frame_trans|apply link_map_frame|].
  intros _. apply map_frame_refl.
Qed.

Lemma overwrite_list_ok l counter st :
  every_delete_logged delete_outcome ->
  directory = [] ->
  fst (overwrite_list DEFAULT_NAMESPACE directory delete_outcome l counter st)
  = Ok (counter + Z.of_nat (length l))%Z.
Proof.
  intros Hlog Hdir. unfold overwrite_list. rewrite Hdir. cbn [length Nat.eqb assert].
  rewrite fst_bind. cbn [ret fst snd]. rewrite fst_bind. cbn [gets fst snd].
  rewrite fst_bind. rewrite (remove_map_annotations_logged _ _ Hlog).
  rewrite fst_bind. reflexivity.
Qed.

Lemma overwrite_list_success l counter st :
  (forall n, delete_outcome n = None) ->
  directory = [] ->
  image_annotations
    (snd (overwrite_list DEFAULT_NAMESPACE directory delete_outcome l counter st))
  = filter (fun a => negb (is_map_with DEFAULT_NAMESPACE a)) (image_annotations st)
    ++ [MapAnnotation DEFAULT_NAMESPACE
          (l ++ items_to_pairs
                  (inner_of (get_existing_map_annotations st) DEFAULT_NAMESPACE))].
Proof.
  intros Hok Hdir. unfold overwrite_list. rewrite Hdir. cbn [length Nat.eqb assert].
  unfold bind at 1. cbn [ret]. unfold bind at 1. cbn [gets].
  rewrite existing_lists_eq. unfold bind at 1.
  rewrite (remove_map_annotations_success _ _ (Hok _)). reflexivity.
Qed.

Lemma overwrite_remove_absent_frame existing mapr new : forall deleted st,
  map_frame st
    (snd (overwrite_remove_absent delete_outcome existing mapr new deleted st)).
Proof.
  induction existing as [|[namespace kvs] existing IH]; intros deleted st;
    cbn [overwrite_remove_absent].
  - apply map_frame_refl.
  - destruct (list_mem namespace mapr && negb (dict_mem new namespace)).
    + apply bind_rel; [exact map_frame_trans|apply remove_map_annotations_frame|].
      intros _. apply IH.
    + apply IH.
Qed.

Lemma overwrite_remove_absent_ok existing mapr new :
  every_delete_logged delete_outcome ->
  forall deleted st,
  exists c,
    fst (overwrite_remove_absent delete_outcome existing mapr new deleted st) = Ok c.
Proof.
  intros Hlog.
  induction existing as [|[namespace kvs] existing IH]; intros deleted st;
    cbn [overwrite_remove_absent].
  - eexists. reflexivity.
  - destruct (list_mem namespace mapr && negb (dict_mem new namespace)).
    + rewrite fst_bind, (remove_map_annotations_logged _ _ Hlog). apply IH.
    + apply IH.
Qed.

Lemma overwrite_write_frame items existing new : forall added deleted st,
  map_frame st
    (snd (overwrite_write delete_outcome items existing new added deleted st)).
Proof.
  induction items as [|[namespace kvs] items IH]; intros added deleted st;
    cbn [overwrite_write].
  - apply map_frame_refl.
  - apply bind_rel; [exact map_frame_trans|apply remove_map_annotations_frame|].
    intros _. apply bind_rel; [exact map_frame_trans|apply link_map_frame|].
    intros _. apply IH.
Qed.

Lemma overwrite_write_ok items existing new :
  every_delete_logged delete_outcome ->
  forall added deleted st,
  exists c,
    fst (overwrite_write delete_outcome items existing new added deleted st) = Ok c.
Proof.
  intros Hlog.
  induction items as [|[namespace kvs] items IH]; intros added deleted st;
    cbn [overwrite_write].
  - eexists. reflexivity.
  - rewrite fst_bind, (remove_map_annotations_logged _ _ Hlog).
    rewrite fst_bind. cbn [link_map fst snd]. apply IH.
Qed.

Lemma overwrite_dict_frame d st :
  map_frame st (snd (overwrite_dict directory delete_outcome d st)).
Proof.
  unfold overwrite_dict.
  apply bind_rel; [exact map_frame_trans|rewrite assert_same; apply map_frame_refl|].
  intros _. rewrite assert_same.
  apply bind_rel; [exact map_frame_trans|apply map_frame_refl|].
  intros existing. cbn [gets snd].
  apply bind_rel; [exact map_frame_trans| |].
  - destruct (0 <? length existing);
      [apply overwrite_remove_absent_frame|apply map_frame_refl].
  - intros deleted.
    apply bind_rel; [exact map_frame_trans|apply overwrite_write_frame|].
    intros counts. apply map_frame_refl.
Qed.

Lemma overwrite_dict_ok d st :
  every_delete_logged delete_outcome ->
  directory <> [] ->
  exists c, fst (overwrite_dict directory delete_outcome d st) = Ok c.
Proof.
  intros Hlog Hdir. unfold overwrite_dict.
  destruct (nonempty_length directory Hdir) as [_ ->]. cbn [assert].
  rewrite fst_bind. cbn [ret fst snd]. rewrite fst_bind. cbn [gets fst snd].
  rewrite fst_bind.
  assert (Hdel : exists deleted,
             fst ((if 0 <? length (get_existing_map_annotations st)
                   then overwrite_remove_absent delete_outcome
                          (get_existing_map_annotations st) directory d 0
                   else ret 0%Z) st) = Ok deleted).
  { destruct (0 <? length (get_existing_map_annotations st)).
    - apply overwrite_remove_absent_ok. exact Hlog.
    - eexists. reflexivity. }
  destruct Hdel as [deleted ->].
  rewrite fst_bind.
  match goal with
  | |- context [overwrite_write _ ?i ?e ?n ?a ?dl ?s] =>
      destruct (overwrite_write_ok i e n Hlog a dl s) as [c ->]
  end.
  eexists. reflexivity.
Qed.

(** The key/value part of Overwrite when every failed delete is logged. *)
Lemma overwrite_pairs_phase (l : kv_list) (d : kv_dict) (counter_tag_ann : Z) st :
  every_delete_logged delete_outcome ->
  (directory = [] -> d = []) ->
  (directory <> [] -> l = []) ->
  exists counter_map_ann st',
    (counter_map_ann <-
       (if 0 <? length l
        then overwrite_list DEFAULT_NAMESPACE directory delete_outcome l 0
        else ret 0%Z) ;;
     counter_map_ann <-
       (if 0 <? length d
        then overwrite_dict directory delete_outcome d
        else ret counter_map_ann) ;;
     ret (counter_map_ann, counter_tag_ann)) st
    = (Ok (counter_map_ann, counter_tag_ann), st')
    /\ map_frame st st'
    /\ (directory = [] -> counter_map_ann = Z.of_nat (length l)).
Proof.
  intros Hlog Hflat Hmapr.
  destruct directory as [|n dir'] eqn:Hdir.
  - rewrite (Hflat eq_refl). destruct l as [|p l'].
    + exists 0%Z, st. split; [reflexivity|].
      split; [apply map_frame_refl|reflexivity].
    + cbn [length Nat.ltb Nat.leb].
      pose proof (overwrite_list_ok (p :: l') 0%Z st Hlog) as Hok.
      pose proof (overwrite_list_frame (p :: l') 0%Z st) as Hfr.
      rewrite Hdir in Hok, Hfr. specialize (Hok eq_refl).
      unfold bind at 1.
      destruct (overwrite_list DEFAULT_NAMESPACE [] delete_outcome (p :: l') 0 st)
        as [r st1] eqn:E.
      cbn [fst snd] in Hok, Hfr. subst r.
      exists (Z.of_nat (length (p :: l'))), st1. split; [reflexivity|]. auto.
  - assert (Hne : n :: dir' <> []) by discriminate.
    rewrite (Hmapr Hne). cbn [length Nat.ltb Nat.leb]. unfold bind at 1. cbn [ret].
    destruct d as [|x d'].
    + exists 0%Z, st. split; [reflexivity|].
      split; [apply map_frame_refl|]. intros H. discriminate.
    + cbn [length Nat.ltb Nat.leb].
      assert (Hne' : directory <> []) by (rewrite Hdir; discriminate).
      destruct (overwrite_dict_ok (x :: d') st Hlog Hne') as [c Hok].
      pose proof (overwrite_dict_frame (x :: d') st) as Hfr.
      rewrite Hdir in Hok, Hfr.
      unfold bind at 1.
      destruct (overwrite_dict (n :: dir') delete_outcome (x :: d') st)
        as [r st1] eqn:E.
      cbn [fst snd] in Hok, Hfr. subst r.
      exists c, st1. split; [reflexivity|]. split; [exact Hfr|].
      intros H. discriminate.
Qed.

Lemma overwrite_list_stored l counter st ns k v :
  (forall n, delete_outcome n = None) ->
  directory = [] ->
  (stored
     (snd (overwrite_list DEFAULT_NAMESPACE directory delete_outcome l counter st))
     ns k v
   <-> (ns = DEFAULT_NAMESPACE /\ (In (k, v) l \/ stored st DEFAULT_NAMESPACE k v))
       \/ (ns <> DEFAULT_NAMESPACE /\ stored st ns k v)).
Proof.
  intros Hok Hdir. unfold stored at 1.
  rewrite (overwrite_list_success l counter st Hok Hdir).
  rewrite stored_in_app, stored_in_without, stored_in_map, in_app_iff.
  rewrite get_existing_pairs. fold (stored st ns k v).
  destruct (String.eqb_spec ns DEFAULT_NAMESPACE) as [->|Hne]; tauto.
Qed.

(** A run of Overwrite when every failed delete is logged. *)
Lemma overwrite_run params data new_tags l d st :
  What_to_do_with_existing_Annotations params = Overwrite ->
  every_delete_logged delete_outcome ->
  split_data DEFAULT_NAMESPACE directory params data = Ok (new_tags, l, d) ->
  exists counter_map_ann st',
    annotateObject DEFAULT_NAMESPACE directory delete_outcome params data st
    = (Ok (counter_map_ann,
           if 0 <? length new_tags
           then (Z.of_nat (length new_tags) - Z.of_nat (ntags st))%Z
           else 0%Z), st')
    /\ ntags st' = (if 0 <? length new_tags then length new_tags else ntags st)
    /\ (directory = [] -> counter_map_ann = Z.of_nat (length l)).
Proof.
  intros Hp Hlog Hs.
  rewrite (annotateObject_overwrite params data new_tags l d st Hp Hs).
  destruct (overwrite_tags_phase new_tags st) as (s1 & HA & Hn1 & Hst1).
  unfold bind at 1. rewrite HA.
  destruct (overwrite_pairs_phase l d
              (if 0 <? length new_tags
               then (Z.of_nat (length new_tags) - Z.of_nat (ntags st))%Z
               else 0%Z) s1 Hlog)
    as (cm & st' & Heq & Hfr & Hcm).
  - intros Hdir. unfold split_data in Hs.
    eapply split_loop_flat_mode; eauto.
  - intros Hdir. unfold split_data in Hs.
    eapply split_loop_mapr_mode; eauto.
  - exists cm, st'. split; [exact Heq|]. split; [|exact Hcm].
    rewrite (map_frame_ntags _ _ Hfr). exact Hn1.
Qed.

(** *** The rewrite of Append when every delete succeeds *)

Lemma append_rewrite_success d :
  (forall n, delete_outcome n = None) ->
  forall st,
    NoDup (map fst d) ->
    fst (append_rewrite delete_outcome d st) = Ok tt
    /\ forall ns k v,
        stored (snd (append_rewrite delete_outcome d st)) ns k v
        <-> match dict_get d ns with
            | Some kvs => In (k, v) (items_to_pairs kvs)
            | None => stored st ns k v
            end.
Proof.
  intros Hok.
  induction d as [|[namespace kvs] d IH]; intros st Hnd.
  - split; [reflexivity|]. intros ns k v. simpl. tauto.
  - inversion Hnd as [|? ? Hnotin Hnd']. subst.
    cbn [append_rewrite]. unfold bind at 1 3.
    rewrite (remove_map_annotations_success _ _ (Hok _)).
    unfold bind at 1 2. cbn [link_map].
    match goal with
    | |- context [append_rewrite _ d ?s] =>
        destruct (IH s Hnd') as [Hfst Hsnd]; set (st2 := s) in *
    end.
    split; [exact Hfst|].
    intros ns k v. rewrite Hsnd. cbn [dict_get].
    assert (Hst2 : stored st2 ns k v
                   <-> (ns <> namespace /\ stored st ns k v)
                       \/ (ns = namespace /\ In (k, v) (items_to_pairs kvs))).
    { unfold stored, st2. simpl.
      rewrite stored_in_app, stored_in_without, stored_in_map. tauto. }
    destruct (String.eqb_spec ns namespace) as [->|Hne].
    + rewrite (not_In_dict_get _ _ Hnotin), Hst2. tauto.
    + destruct (dict_get d ns); [tauto|]. rewrite Hst2. tauto.
Qed.

Lemma append_rewrite_trace d :
  (forall n, delete_outcome n = None) ->
  forall st,
  exists events,
    trace (snd (append_rewrite delete_outcome d st)) = trace st ++ events
    /\ forall ns, In ns (map fst d) -> In (Submitted_delete ns) events.
Proof.
  intros Hok.
  induction d as [|[namespace kvs] d IH]; intros st.
  - exists []. simpl. rewrite app_nil_r. split; [reflexivity|]. intros ns [].
  - cbn [append_rewrite]. unfold bind at 1.
    rewrite (remove_map_annotations_success _ _ (Hok _)).
    unfold bind at 1. cbn [link_map].
    match goal with
    | |- context [append_rewrite _ d ?s] =>
        destruct (IH s) as (events & Hev & Hin)
    end.
    rewrite Hev. simpl. rewrite <- !app_assoc.
    eexists. split; [reflexivity|].
    intros ns [Hns|Hns].
    + simpl in Hns. subst. simpl. auto.
    + simpl. right. right. apply Hin. exact Hns.
Qed.

(** Append with a directory, every delete succeeding: the run returns; a
    namespace of the image that the new data does not name is deleted and
    written again with the same pairs. *)
Lemma append_dict_absent_namespace d counter st ns :
  (forall n, delete_outcome n = None) ->
  directory <> [] ->
  dict_mem (get_existing_map_annotations st) ns = true ->
  dict_mem d ns = false ->
  exists c st',
    append_dict directory delete_outcome d counter st = (Ok c, st')
    /\ (exists events,
          trace st' = trace st ++ events /\ In (Submitted_delete ns) events)
    /\ (forall k v, stored st' ns k v <-> stored st ns k v).
Proof.
  intros Hok Hdir Hex Habs. unfold append_dict.
  destruct (nonempty_length directory Hdir) as [_ ->]. cbn [assert].
  unfold bind at 1. cbn [ret]. unfold bind at 1. cbn [gets].
  destruct (append_merge d (get_existing_map_annotations st, counter))
    as [merged counter'] eqn:E.
  assert (Hmerged : merged
                    = fst (append_merge d (get_existing_map_annotations st, counter)))
    by (rewrite E; reflexivity).
  assert (Hwf : wf_kv_dict merged).
  { rewrite Hmerged. apply append_merge_wf. apply get_existing_wf. }
  assert (Hget : dict_get merged ns
                 = dict_get (get_existing_map_annotations st) ns).
  { rewrite Hmerged. apply append_merge_absent. exact Habs. }
  destruct (append_rewrite_success merged Hok st (proj1 Hwf)) as [Hfst Hsnd].
  destruct (append_rewrite_trace merged Hok st) as (events & Hev & Hin).
  unfold bind.
  destruct (append_rewrite delete_outcome merged st) as [r st'] eqn:Er.
  cbn [fst snd] in Hfst, Hsnd, Hev. subst r.
  exists counter', st'. split; [reflexivity|]. split.
  - exists events. split; [exact Hev|]. apply Hin.
    unfold dict_mem in Hex. rewrite <- Hget in Hex.
    destruct (dict_get merged ns) as [inner|] eqn:Eg; [|discriminate].
    apply dict_get_In in Eg. apply (in_map fst) in Eg. exact Eg.
  - intros k v. rewrite Hsnd, Hget.
    rewrite <- get_existing_pairs. unfold inner_of.
    unfold dict_mem in Hex.
    destruct (dict_get (get_existing_map_annotations st) ns); [tauto|discriminate].
Qed.

(** A delete is submitted before its outcome is known, and removes pairs
    only. *)
Lemma remove_map_annotations_trace namespace st :
  exists events,
    trace (snd (remove_map_annotations delete_outcome namespace st))
    = trace st ++ Submitted_delete namespace :: events.
Proof.
  unfold remove_map_annotations.
  destruct (delete_outcome (submitted st)) as [[[text|]]|]; simpl;
    rewrite <- ?app_assoc; simpl; eexists; reflexivity.
Qed.

Lemma remove_map_annotations_sub namespace st ns k v :
  stored (snd (remove_map_annotations delete_outcome namespace st)) ns k v ->
  stored st ns k v.
Proof.
  unfold remove_map_annotations, stored.
  destruct (delete_outcome (submitted st)) as [[[text|]]|]; simpl; auto.
  intros H. apply stored_in_without in H. tauto.
Qed.

(** When the rewrite of Append returns, a delete was submitted for every
    namespace of the merged snapshot, whatever the deletes did. *)
Lemma append_rewrite_returned d : forall st,
  fst (append_rewrite delete_outcome d st) = Ok tt ->
  exists events,
    trace (snd (append_rewrite delete_outcome d st)) = trace st ++ events
    /\ forall ns, In ns (map fst d) -> In (Submitted_delete ns) events.
Proof.
  induction d as [|[namespace kvs] d IH]; intros st H.
  - exists []. simpl. rewrite app_nil_r. split; [reflexivity|]. intros ns [].
  - cbn [append_rewrite] in *. unfold bind at 1 in H. unfold bind at 1.
    destruct (remove_map_annotations_trace namespace st) as [ev1 Hev1].
    destruct (remove_map_annotations delete_outcome namespace st) as [[[]|e] s1];
      cbn [snd] in Hev1; [|discriminate H].
    unfold bind at 1 in H. unfold bind at 1. cbn [link_map] in *.
    match goal with
    | |- context [append_rewrite _ d ?s] =>
        destruct (IH s H) as (events & Hev & Hin)
    end.
    rewrite Hev. simpl. rewrite Hev1.
    exists (Submitted_delete namespace :: ev1
            ++ [Linked_map namespace (items_to_pairs kvs)] ++ events).
    split.
    + rewrite <- !app_assoc. reflexivity.
    + intros ns [Hns|Hns].
      * simpl in Hns. subst. left. reflexivity.
      * right. apply in_or_app. right. apply in_or_app. right.
        apply Hin. exact Hns.
Qed.

(** The rewrite of Append stores nothing but what was stored and what the
    merged snapshot lists, whatever the deletes do. *)
Lemma append_rewrite_bound d : forall st ns k v,
  stored (snd (append_rewrite delete_outcome d st)) ns k v ->
  stored st ns k v
  \/ exists kvs, In (ns, kvs) d /\ In (k, v) (items_to_pairs kvs).
Proof.
  induction d as [|[namespace kvs] d IH]; intros st ns k v H.
  - left. exact H.
  - cbn [append_rewrite] in H. unfold bind at 1 in H.
    pose proof (remove_map_annotations_sub namespace st ns k v) as Hsub.
    destruct (remove_map_annotations delete_outcome namespace st) as [[[]|e] s1];
      cbn [snd] in Hsub.
    + unfold bind at 1 in H.
      pose proof (link_map_stored namespace (items_to_pairs kvs) s1 ns k v) as Hl.
      cbn [link_map] in H, Hl. cbn [snd] in Hl.
      destruct (IH _ _ _ _ H) as [H1|[kvs' [Hin Hkv]]].
      * apply Hl in H1. destruct H1 as [H1|[-> H1]].
        -- left. apply Hsub. exact H1.
        -- right. exists kvs. split; [left; reflexivity|exact H1].
      * right. exists kvs'. split; [right; exact Hin|exact Hkv].
    + left. apply Hsub. exact H.
Qed.

Lemma append_rewrite_logged d :
  every_delete_logged delete_outcome ->
  forall st, fst (append_rewrite delete_outcome d st) = Ok tt.
Proof.
  intros Hlog. induction d as [|[namespace kvs] d IH]; intros st.
  - reflexivity.
  - cbn [append_rewrite].
    rewrite fst_bind, (remove_map_annotations_logged _ _ Hlog).
    rewrite fst_bind. apply IH.
Qed.

Lemma append_dict_logged d counter st :
  every_delete_logged delete_outcome ->
  directory <> [] ->
  exists c, fst (append_dict directory delete_outcome d counter st) = Ok c.
Proof.
  intros Hlog Hdir. unfold append_dict.
  destruct (nonempty_length directory Hdir) as [_ ->]. cbn [assert].
  rewrite fst_bind. cbn [ret fst snd]. rewrite fst_bind. cbn [gets fst snd].
  destruct (append_merge d (get_existing_map_annotations st, counter))
    as [merged counter'].
  rewrite fst_bind, (append_rewrite_logged merged Hlog). eexists. reflexivity.
Qed.

(** Append with a directory, whatever the deletes do: when the key/value
    part returns, a delete was submitted for a namespace of the image that
    the new data does not name, and its pairs are the same. *)
Lemma append_dict_returned d counter st ns c :
  directory <> [] ->
  dict_mem (get_existing_map_annotations st) ns = true ->
  dict_mem d ns = false ->
  fst (append_dict directory delete_outcome d counter st) = Ok c ->
  (exists events,
      trace (snd (append_dict directory delete_outcome d counter st))
      = trace st ++ events
      /\ In (Submitted_delete ns) events)
  /\ (forall k v,
        stored (snd (append_dict directory delete_outcome d counter st)) ns k v
        <-> stored st ns k v).
Proof.
  intros Hdir Hex Habs Hret.
  pose proof (fun k v => append_dict_keeps d counter st ns k v) as Hkeep.
  destruct (append_merge d (get_existing_map_annotations st, counter))
    as [merged counter'] eqn:E.
  assert (Heq : append_dict directory delete_outcome d counter st
                = match append_rewrite delete_outcome merged st with
                  | (Ok _, s') => (Ok counter', s')
                  | (Raise e, s') => (Raise e, s')
                  end).
  { unfold append_dict. destruct (nonempty_length directory Hdir) as [_ ->].
    cbn [assert]. unfold bind at 1. cbn [ret]. unfold bind at 1. cbn [gets].
    rewrite E. unfold bind.
    destruct (append_rewrite delete_outcome merged st) as [[[]|e] s']; reflexivity. }
  rewrite Heq in Hret, Hkeep. rewrite Heq. clear Heq.
  assert (Hmerged : merged
                    = fst (append_merge d (get_existing_map_annotations st, counter)))
    by (rewrite E; reflexivity).
  assert (Hwf : wf_kv_dict merged).
  { rewrite Hmerged. apply append_merge_wf. apply get_existing_wf. }
  assert (Hget : dict_get merged ns
                 = dict_get (get_existing_map_annotations st) ns).
  { rewrite Hmerged. apply append_merge_absent. exact Habs. }
  pose proof (append_rewrite_returned merged st) as Htrace.
  pose proof (append_rewrite_bound merged st ns) as Hbound.
  destruct (append_rewrite delete_outcome merged st) as [[[]|e] st'];
    cbn [fst snd] in *; [|discriminate Hret].
  destruct (Htrace eq_refl) as (events & Hev & Hin).
  unfold dict_mem in Hex.
  destruct (dict_get (get_existing_map_annotations st) ns) as [inner|] eqn:Eg;
    [|discriminate].
  split.
  - exists events. split; [exact Hev|]. apply Hin.
    apply dict_get_In in Hget. apply (in_map fst) in Hget. exact Hget.
  - intros k v. split; [|apply Hkeep].
    intros H. destruct (Hbound k v H) as [H1|[kvs [Hkvs Hkv]]]; [exact H1|].
    rewrite (In_dict_get _ _ _ (proj1 Hwf) Hkvs) in Hget. inversion Hget. subst kvs.
    apply get_existing_pairs. unfold inner_of. rewrite Eg. exact Hkv.
Qed.

End Engine.

(** * The claims *)

(** C1 (the code departs from it): with the directory ["Biosample info"]
    and two new pairs under one namespace, on an image without annotations,
    two pairs are written and none existed, and the code returns 1; on an
    image that holds three pairs under "Organism", two pairs are written and
    three are deleted, and the code returns 0.  Line 505 adds the number of
    namespaces of the new data at every turn, and lines 489 and 494 count
    the keys of a namespace, not its pairs. *)
Theorem overwrite_dict_count_is_not_the_pairs :
  (let run := annotateObject NSCLIENTMAPANNOTATION ["Biosample info"]
                every_delete_succeeds overwrite_params two_species (image_with []) in
   fst run = Ok (1%Z, 0%Z)
   /\ net_count_spec (image_with []) (trace (snd run)) = 2%Z)
  /\ (let run := annotateObject NSCLIENTMAPANNOTATION ["Biosample info"; "Organism"]
                   every_delete_succeeds overwrite_params two_species organism_image in
      fst run = Ok (0%Z, 0%Z)
      /\ net_count_spec organism_image (trace (snd run)) = (-1)%Z).
Proof. split; split; reflexivity. Qed.

(** C2 (as stated, refuted): with "Organism" on the image and only
    "Biosample info" in the new data, Append submits a delete for
    "Organism" and writes its pairs again. *)
Lemma append_deletes_absent_namespace :
  let run := annotateObject NSCLIENTMAPANNOTATION ["Biosample info"; "Organism"]
               every_delete_succeeds append_params two_species organism_image in
  split_data NSCLIENTMAPANNOTATION ["Biosample info"; "Organism"] append_params
    two_species
  = Ok ([], [], [("Biosample info", [("species", ["mouse"; "rat"])])])
  /\ dict_mem (get_existing_map_annotations organism_image) "Organism" = true
  /\ trace (snd run)
     = [Submitted_delete "Organism";
        Linked_map "Organism"
          [("genus", "Mus"); ("genus", "Rattus"); ("genus", "Homo")];
        Submitted_delete "Biosample info";
        Linked_map "Biosample info" [("species", "mouse"); ("species", "rat")]]
  /\ In (Submitted_delete "Organism") (trace (snd run)).
Proof.
  cbv zeta. split; [reflexivity|]. split; [reflexivity|]. split; [reflexivity|].
  left. reflexivity.
Qed.

(** C2 (amended): in Append mode with a non-empty directory and new
    namespaced data, every namespace of the merged snapshot is deleted and
    written again, also a namespace of the image that the new data does not
    name: whenever the run returns, a delete was submitted for that
    namespace, and the set of pairs stored under it is the same after the
    reconciliation as before.  The run returns when every delete succeeds
    or fails with an exception that has a message.  It does not always
    return: with "Other" and "Organism" on the image and deletes that fail
    with an exception without a message, the run stops at the delete
    submitted for "Other" and none is submitted for "Organism". *)
Theorem append_rewrites_absent_namespace
  default directory delete_outcome params data new_tags l d st ns :
  What_to_do_with_existing_Annotations params = Append ->
  directory <> [] ->
  split_data default directory params data = Ok (new_tags, l, d) ->
  d <> [] ->
  (exists kvs, In (MapAnnotation ns kvs) (image_annotations st)) ->
  dict_mem d ns = false ->
  let run := annotateObject default directory delete_outcome params data st in
  (forall counts,
      fst run = Ok counts ->
      (exists events,
          trace (snd run) = trace st ++ events /\ In (Submitted_delete ns) events)
      /\ (forall k v, stored (snd run) ns k v <-> stored st ns k v))
  /\ (every_delete_logged delete_outcome -> exists counts, fst run = Ok counts)
  /\ (let stopped :=
        annotateObject NSCLIENTMAPANNOTATION ["Biosample info"; "Organism"]
          delete_fails_without_message append_params two_species
          other_organism_image in
      fst stopped = Raise (AttributeError "message")
      /\ trace (snd stopped) = [Submitted_delete "Other"]).
Proof.
  intros Hp Hdir Hs Hd [kvs Hann] Habs. cbv zeta.
  assert (Hl : l = []).
  { unfold split_data in Hs. eapply split_loop_mapr_mode; eauto. }
  subst l.
  destruct (append_tags_phase new_tags st) as (s1 & HA & Hg & Hr & Hst).
  pose proof (append_tags_phase_extends new_tags st) as Hext.
  cbv zeta in Hext. rewrite HA in Hext. cbn [snd] in Hext.
  destruct Hext as [Hincl [events1 Hev1]].
  destruct d as [|x d']; [congruence|].
  assert (Hex : dict_mem (get_existing_map_annotations s1) ns = true).
  { apply get_existing_keys. exists kvs. apply Hincl. exact Hann. }
  pose proof (append_dict_returned directory delete_outcome (x :: d') 0%Z s1 ns)
    as Hret.
  pose proof (append_dict_logged directory delete_outcome (x :: d') 0%Z s1)
    as Hlogged.
  assert (Hrun : annotateObject default directory delete_outcome params data st
                 = match append_dict directory delete_outcome (x :: d') 0 s1 with
                   | (Ok c, s2) =>
                       (Ok (c, Z.of_nat
                                 (length (tags_to_link new_tags
                                            (get_linked_tag_annotations st)))), s2)
                   | (Raise e, s2) => (Raise e, s2)
                   end).
  { rewrite (annotateObject_append default directory delete_outcome
               params data new_tags [] (x :: d') st Hp Hs).
    unfold bind at 1. rewrite HA. cbn [length Nat.ltb Nat.leb].
    unfold bind at 1.
    destruct (append_dict directory delete_outcome (x :: d') 0 s1) as [[c|e] s2];
      reflexivity. }
  rewrite Hrun. clear Hrun.
  destruct (append_dict directory delete_outcome (x :: d') 0 s1) as [[c|e] s2];
    cbn [fst snd] in *.
  - split; [|split].
    + intros counts _.
      destruct (Hret c Hdir Hex Habs eq_refl) as [[events2 [Hev2 Hin2]] Hst2].
      split.
      * exists (events1 ++ events2). rewrite Hev2, Hev1, app_assoc.
        split; [reflexivity|]. apply in_or_app. right. exact Hin2.
      * intros k v. rewrite Hst2. apply Hst.
    + intros _. eexists. reflexivity.
    + split; reflexivity.
  - split; [|split].
    + intros counts H. discriminate H.
    + intros Hlog. destruct (Hlogged Hlog Hdir) as [c H]. discriminate H.
    + split; reflexivity.
Qed.

Lemma append_rewrites_absent_namespace_witness :
  let run :=
    annotateObject NSCLIENTMAPANNOTATION ["Biosample info"; "Organism"]
      delete_fails_with_message append_params two_species organism_image in
  (forall counts,
      fst run = Ok counts ->
      (exists events,
          trace (snd run) = trace organism_image ++ events
          /\ In (Submitted_delete "Organism") events)
      /\ (forall k v,
            stored (snd run) "Organism" k v
            <-> stored organism_image "Organism" k v))
  /\ (every_delete_logged delete_fails_with_message ->
      exists counts, fst run = Ok counts)
  /\ (let stopped :=
        annotateObject NSCLIENTMAPANNOTATION ["Biosample info"; "Organism"]
          delete_fails_without_message append_params two_species
          other_organism_image in
      fst stopped = Raise (AttributeError "message")
      /\ trace (snd stopped) = [Submitted_delete "Other"]).
Proof.
  apply (append_rewrites_absent_namespace NSCLIENTMAPANNOTATION
           ["Biosample info"; "Organism"] delete_fails_with_message append_params
           two_species [] []
           [("Biosample info", [("species", ["mouse"; "rat"])])]
           organism_image "Organism").
  - reflexivity.
  - discriminate.
  - reflexivity.
  - discriminate.
  - eexists. simpl. left. reflexivity.
  - reflexivity.
Defined.

(** C3 (as stated, refuted): with the pair ("species","mouse") stored and
    the same pair as new data, no pair is strictly new and the count
    returned is 1. *)
Lemma overwrite_list_counts_stored_pairs :
  fst (annotateObject NSCLIENTMAPANNOTATION [] every_delete_succeeds
         overwrite_params mouse_species mouse_image_kv)
  = Ok (1%Z, 0%Z)
  /\ Z.of_nat (length (strictly_new [("species", "mouse")] [("species", "mouse")]))
     = 0%Z.
Proof. split; reflexivity. Qed.

(** C3 (amended): in Overwrite mode with an empty directory, for every
    image and every non-empty flat key/value list, when the delete succeeds
    the net key/value count returned is the length of the new list (every
    new pair is counted, stored already or not), and the pairs stored under
    the default namespace afterwards are the new pairs and the pairs stored
    before; with [("species","rat")] stored and [("species","mouse")] new,
    the list stored is [("species","mouse"); ("species","rat")] and the
    count is 1. *)
Theorem overwrite_list_count default delete_outcome params data new_tags l d st :
  What_to_do_with_existing_Annotations params = Overwrite ->
  (forall n, delete_outcome n = None) ->
  split_data default [] params data = Ok (new_tags, l, d) ->
  l <> [] ->
  (exists counter_tag_ann st',
      annotateObject default [] delete_outcome params data st
      = (Ok (Z.of_nat (length l), counter_tag_ann), st')
      /\ forall k v, stored st' default k v <-> In (k, v) l \/ stored st default k v)
  /\ annotateObject NSCLIENTMAPANNOTATION [] every_delete_succeeds
       overwrite_params mouse_species rat_image
     = (Ok (1%Z, 0%Z),
        {| server_tags := [];
           image_annotations :=
             [MapAnnotation NSCLIENTMAPANNOTATION
                [("species", "mouse"); ("species", "rat")]];
           next_id := 1; submitted := 1;
           trace :=
             [Submitted_delete NSCLIENTMAPANNOTATION;
              Linked_map NSCLIENTMAPANNOTATION
                [("species", "mouse"); ("species", "rat")]] |}).
Proof.
  intros Hp Hok Hs Hl. split; [|reflexivity].
  assert (Hd : d = []).
  { unfold split_data in Hs. eapply split_loop_flat_mode; eauto. }
  subst d.
  rewrite (annotateObject_overwrite default [] delete_outcome
             params data new_tags l [] st Hp Hs).
  destruct (overwrite_tags_phase new_tags st) as (s1 & HA & Hn1 & Hst1).
  unfold bind at 1. rewrite HA.
  destruct l as [|p l']; [congruence|].
  cbn [length Nat.ltb Nat.leb].
  assert (Hlog : every_delete_logged delete_outcome).
  { intros n ex H. rewrite Hok in H. discriminate. }
  pose proof (overwrite_list_ok default [] delete_outcome (p :: l') 0%Z s1
                Hlog eq_refl) as Hfst.
  pose proof (fun k v =>
                overwrite_list_stored default [] delete_outcome (p :: l') 0%Z s1
                  default k v Hok eq_refl) as Hsnd.
  unfold bind at 1.
  destruct (overwrite_list default [] delete_outcome (p :: l') 0 s1)
    as [r s2] eqn:E.
  cbn [fst snd] in Hfst, Hsnd. subst r.
  eexists. exists s2. split; [reflexivity|].
  intros k v. rewrite Hsnd, Hst1. tauto.
Qed.

Lemma overwrite_list_count_witness :
  exists counter_tag_ann st',
    annotateObject NSCLIENTMAPANNOTATION [] every_delete_succeeds
      overwrite_params bio_hierarchy rat_image
    = (Ok (Z.of_nat (length [("species", "mouse")]), counter_tag_ann), st')
    /\ forall k v,
        stored st' NSCLIENTMAPANNOTATION k v
        <-> In (k, v) [("species", "mouse")]
            \/ stored rat_image NSCLIENTMAPANNOTATION k v.
Proof.
  apply (overwrite_list_count NSCLIENTMAPANNOTATION every_delete_succeeds
           overwrite_params bio_hierarchy ["untagged"] [("species", "mouse")] []
           rat_image).
  - reflexivity.
  - intros n. reflexivity.
  - reflexivity.
  - discriminate.
Defined.

(** C4 (as stated, refuted): with an empty directory the second of two
    identical runs counts its key/value pair again. *)
Lemma overwrite_twice_counts_again :
  let first := annotateObject NSCLIENTMAPANNOTATION [] every_delete_succeeds
                 overwrite_params bio_hierarchy (image_with []) in
  let second := annotateObject NSCLIENTMAPANNOTATION [] every_delete_succeeds
                  overwrite_params bio_hierarchy (snd first) in
  fst first = Ok (1%Z, 1%Z)
  /\ fst second = Ok (1%Z, 0%Z)
  /\ fst second <> Ok (0%Z, 0%Z).
Proof.
  cbv zeta. split; [reflexivity|]. split; [reflexivity|].
  vm_compute. intros H. discriminate H.
Qed.

(** C4 (amended): when Overwrite runs twice in succession on the same image
    with the same input, both runs return, the net tag count of the second
    run is zero, and with an empty directory the net key/value count of the
    second run is, as in the first run, the length of the flat key/value
    list (zero only when the list is empty), a failed delete being logged. *)
Theorem overwrite_twice default directory delete_outcome params data new_tags l d st :
  What_to_do_with_existing_Annotations params = Overwrite ->
  every_delete_logged delete_outcome ->
  split_data default directory params data = Ok (new_tags, l, d) ->
  exists first st1 second st2,
    annotateObject default directory delete_outcome params data st
    = (Ok first, st1)
    /\ annotateObject default directory delete_outcome params data st1
       = (Ok second, st2)
    /\ snd second = 0%Z
    /\ (directory = [] ->
        fst first = Z.of_nat (length l) /\ fst second = Z.of_nat (length l)).
Proof.
  intros Hp Hlog Hs.
  destruct (overwrite_run default directory delete_outcome params data
              new_tags l d st Hp Hlog Hs) as (cm1 & st1 & H1 & Hn1 & Hc1).
  destruct (overwrite_run default directory delete_outcome params data
              new_tags l d st1 Hp Hlog Hs) as (cm2 & st2 & H2 & Hn2 & Hc2).
  eexists. exists st1. eexists. exists st2.
  split; [exact H1|]. split; [exact H2|]. split.
  - cbn [snd]. rewrite Hn1. destruct (0 <? length new_tags); lia.
  - intros Hdir. cbn [fst]. auto.
Qed.

Lemma overwrite_twice_witness :
  exists first st1 second st2,
    annotateObject NSCLIENTMAPANNOTATION [] delete_fails_with_message
      overwrite_params bio_hierarchy mouse_image
    = (Ok first, st1)
    /\ annotateObject NSCLIENTMAPANNOTATION [] delete_fails_with_message
         overwrite_params bio_hierarchy st1
       = (Ok second, st2)
    /\ snd second = 0%Z
    /\ (@nil string = [] ->
        fst first = Z.of_nat (length [("species", "mouse")])
        /\ fst second = Z.of_nat (length [("species", "mouse")])).
Proof.
  apply (overwrite_twice NSCLIENTMAPANNOTATION [] delete_fails_with_message
           overwrite_params bio_hierarchy ["untagged"] [("species", "mouse")] []
           mouse_image).
  - reflexivity.
  - intros n ex H. inversion H. simpl. discriminate.
  - reflexivity.
Defined.

(** C5: for every hierarchy, with an empty Namespace Directory the
    normalizer leaves the namespaced mapping empty, and with a non-empty
    directory it leaves the flat key/value list empty: a run fills one of
    the two shapes only. *)
Theorem split_data_one_shape default directory params data tags l d :
  split_data default directory params data = Ok (tags, l, d) ->
  (directory = [] -> d = []) /\ (directory <> [] -> l = []).
Proof.
  unfold split_data. intros H. split; intros Hdir.
  - eapply split_loop_flat_mode; eauto.
  - eapply split_loop_mapr_mode; eauto.
Qed.

Lemma split_data_one_shape_witness :
  (@nil string = [] -> @nil (string * key_values) = [])
  /\ (@nil string <> [] -> [("species", "mouse")] = @nil (string * string)).
Proof.
  apply (split_data_one_shape NSCLIENTMAPANNOTATION [] overwrite_params
           bio_hierarchy ["untagged"]).
  reflexivity.
Defined.

(** C6 (as stated, refuted): with two entries of the directory containing
    the prefix, the code returns the last of them, not the first. *)
Lemma resolve_not_first_match :
  resolve NSCLIENTMAPANNOTATION ["Biosample info"; "Biology"] "01_Bio"
  = Ok "Biology"
  /\ resolve_spec NSCLIENTMAPANNOTATION ["Biosample info"; "Biology"] "01_Bio"
     = "Biosample info"
  /\ resolve NSCLIENTMAPANNOTATION ["Biosample info"; "Biology"] "01_Bio"
     <> Ok (resolve_spec NSCLIENTMAPANNOTATION ["Biosample info"; "Biology"]
              "01_Bio").
Proof.
  split; [reflexivity|]. split; [reflexivity|].
  vm_compute. intros H. discriminate H.
Qed.

(** C6 (amended): the resolver returns the default namespace whenever the
    raw namespace starts with the reserved marker; otherwise, when the raw
    namespace has a run of at least three letters or white space, it takes
    the leftmost such run and returns the LAST entry of the directory whose
    name contains it as a case-insensitive substring, or the empty string if
    no entry does; resolve("01_Biosample", ["Organism","Biosample info"]) is
    "Biosample info". *)
Theorem resolve_last_match default directory raw :
  (startswith "_" raw = true -> resolve default directory raw = Ok default)
  /\ (startswith "_" raw = false ->
      forall prefix, re_search_letters raw = Some prefix ->
        letter_run raw prefix
        /\ exists r,
            resolve default directory raw = Ok r
            /\ ((r = "" /\ forall n, In n directory ->
                             str_in (lower prefix) (lower n) = false)
                \/ (exists before after,
                       directory = before ++ r :: after
                       /\ str_in (lower prefix) (lower r) = true
                       /\ forall n, In n after ->
                                    str_in (lower prefix) (lower n) = false)))
  /\ resolve default ["Organism"; "Biosample info"] "01_Biosample"
     = Ok "Biosample info".
Proof.
  split; [|split].
  - intros H. unfold resolve. rewrite H. reflexivity.
  - intros Hmark prefix Hre. split.
    + apply re_search_letters_Some. exact Hre.
    + unfold resolve, transformToMaprNamespace. rewrite Hmark, Hre.
      eexists. split; [reflexivity|].
      apply (last_match_fold (fun n => str_in (lower prefix) (lower n))).
  - reflexivity.
Qed.

Lemma resolve_last_match_witness :
  exists r,
    resolve NSCLIENTMAPANNOTATION ["Biosample info"; "Biology"] "01_Bio" = Ok r
    /\ ((r = "" /\ forall n, In n ["Biosample info"; "Biology"] ->
                     str_in (lower "Bio") (lower n) = false)
        \/ (exists before after,
               ["Biosample info"; "Biology"] = before ++ r :: after
               /\ str_in (lower "Bio") (lower r) = true
               /\ forall n, In n after -> str_in (lower "Bio") (lower n) = false)).
Proof.
  apply (proj1 (proj2 (resolve_last_match NSCLIENTMAPANNOTATION
                         ["Biosample info"; "Biology"] "01_Bio"))).
  - reflexivity.
  - reflexivity.
Defined.

(** C7: Append is monotonic: for every image and every input, a run of
    Append loses no tag linked to the image and no stored key/value pair
    (also when it raises on the way); a new tag that is already linked is
    neither linked again nor counted, the net tag count being the number of
    new tags that were not linked; with the tag "mouse" linked and the new
    tags "mouse" and "wildtype", only "wildtype" is linked and the net tag
    count is 1. *)
Theorem append_is_monotonic default directory delete_outcome params data st :
  What_to_do_with_existing_Annotations params = Append ->
  let run := annotateObject default directory delete_outcome params data st in
  (forall t, linked st t -> linked (snd run) t)
  /\ (forall ns k v, stored st ns k v -> stored (snd run) ns k v)
  /\ (forall id t, linked st t ->
        In (Linked_tag id t) (trace (snd run)) -> In (Linked_tag id t) (trace st))
  /\ (forall new_tags l d counter_map_ann counter_tag_ann,
        split_data default directory params data = Ok (new_tags, l, d) ->
        fst run = Ok (counter_map_ann, counter_tag_ann) ->
        counter_tag_ann
        = Z.of_nat (length (tags_to_link new_tags (get_linked_tag_annotations st))))
  /\ annotateObject default directory delete_outcome append_params
       mouse_wildtype_tags mouse_image
     = (Ok (0%Z, 1%Z),
        {| server_tags := [(1, "mouse"); (2, "wildtype")];
           image_annotations := [TagAnnotation 1 "mouse"; TagAnnotation 2 "wildtype"];
           next_id := 3; submitted := 0;
           trace := [Saved_tag 2 "wildtype"; Linked_tag 2 "wildtype"] |}).
Proof.
  intros Hp run.
  assert (Hscenario : annotateObject default directory delete_outcome append_params
       mouse_wildtype_tags mouse_image
     = (Ok (0%Z, 1%Z),
        {| server_tags := [(1, "mouse"); (2, "wildtype")];
           image_annotations := [TagAnnotation 1 "mouse"; TagAnnotation 2 "wildtype"];
           next_id := 3; submitted := 0;
           trace := [Saved_tag 2 "wildtype"; Linked_tag 2 "wildtype"] |}))
    by reflexivity.
  destruct (split_data default directory params data) as [[[new_tags l] d]|e] eqn:Hs.
  - destruct (append_tags_phase new_tags st) as (s1 & HA & Hg & Hr & Hst).
    pose proof (append_pairs_phase default directory delete_outcome l d
                  (Z.of_nat (length (tags_to_link new_tags
                                       (get_linked_tag_annotations st)))) s1)
      as Hphase.
    cbv zeta in Hphase. destruct Hphase as [F K].
    assert (Hrun : run
                   = (counter_map_ann <-
                        (if 0 <? length d
                         then append_dict directory delete_outcome d 0
                         else ret 0%Z) ;;
                      counter_map_ann <-
                        (if 0 <? length l
                         then append_list default directory delete_outcome l
                                counter_map_ann
                         else ret counter_map_ann) ;;
                      ret (counter_map_ann,
                           Z.of_nat (length (tags_to_link new_tags
                                               (get_linked_tag_annotations st)))))
                       s1).
    { subst run.
      rewrite (annotateObject_append default directory delete_outcome
                 params data new_tags l d st Hp Hs).
      unfold bind at 1. rewrite HA. reflexivity. }
    rewrite Hrun. clear Hrun run.
    split; [|split; [|split; [|split]]].
    + intros t Ht. eapply map_frame_linked; [exact F|]. apply Hg. exact Ht.
    + intros ns k v H. apply K. apply Hg. exact H.
    + intros id t Ht Hin. apply (Hr id t Ht). apply F. exact Hin.
    + intros new_tags' l' d' cm ct Heq. inversion Heq. subst new_tags' l' d'.
      unfold bind.
      destruct ((if 0 <? length d
                 then append_dict directory delete_outcome d 0 else ret 0%Z) s1)
        as [[c1|e1] s2]; [|discriminate].
      destruct ((if 0 <? length l
                 then append_list default directory delete_outcome l c1
                 else ret c1) s2)
        as [[c2|e2] s3]; [|discriminate].
      simpl. intros H. inversion H. reflexivity.
    + exact Hscenario.
  - subst run.
    rewrite (annotateObject_raise default directory delete_outcome params data e st Hs).
    simpl. split; [auto|]. split; [auto|]. split; [auto|].
    split; [|exact Hscenario]. intros; discriminate.
Qed.

Lemma append_is_monotonic_witness :
  let run := annotateObject NSCLIENTMAPANNOTATION ["Biosample info"; "Organism"]
               delete_fails_with_message append_params bio_hierarchy
               (image_with [TagAnnotation 1 "mouse";
                            MapAnnotation "Organism" [("genus", "Mus")]]) in
  (forall t, linked (image_with [TagAnnotation 1 "mouse";
                                 MapAnnotation "Organism" [("genus", "Mus")]]) t ->
             linked (snd run) t)
  /\ (forall ns k v,
        stored (image_with [TagAnnotation 1 "mouse";
                            MapAnnotation "Organism" [("genus", "Mus")]]) ns k v ->
        stored (snd run) ns k v).
Proof.
  intros run.
  pose proof (append_is_monotonic NSCLIENTMAPANNOTATION
                ["Biosample info"; "Organism"] delete_fails_with_message
                append_params bio_hierarchy
                (image_with [TagAnnotation 1 "mouse";
                             MapAnnotation "Organism" [("genus", "Mus")]])
                eq_refl) as H.
  cbv zeta in H. split; [exact (proj1 H)|exact (proj1 (proj2 H))].
Defined.

(** C8: with an empty directory, for every hierarchy that holds a triple
    with a namespace other than [None] whose key starts with the reserved
    marker, the normalizer raises the data-integrity error (the assertion
    of line 370) and returns no key/value pair for it. *)
Theorem split_data_marker_key_raises default params data namespace kvs key values :
  In (Some namespace, kvs) data ->
  In (key, values) kvs ->
  startswith "_" key = true ->
  exists e,
    split_data default [] params data = Raise e
    /\ is_data_integrity_error e = true.
Proof.
  intros Hdata Hin Hkey. unfold split_data.
  eapply split_loop_flat_marker_key; eauto.
Qed.

Lemma split_data_marker_key_raises_witness :
  exists e,
    split_data NSCLIENTMAPANNOTATION [] overwrite_params
      [(Some "01_Bio", [("species", ["mouse"]); ("_workspace", ["untagged"])])]
    = Raise e
    /\ is_data_integrity_error e = true.
Proof.
  apply (split_data_marker_key_raises NSCLIENTMAPANNOTATION overwrite_params
           [(Some "01_Bio", [("species", ["mouse"]); ("_workspace", ["untagged"])])]
           "01_Bio" [("species", ["mouse"]); ("_workspace", ["untagged"])]
           "_workspace" ["untagged"]).
  - simpl. left. reflexivity.
  - simpl. right. left. reflexivity.
  - reflexivity.
Defined.

(** C9 (the code departs from it): the handler of line 108 reads
    [ex.message].  A delete that raises an exception without that attribute
    makes the handler raise [AttributeError]: [remove_map_annotations]
    raises, and the reconciliation of the image stops there, nothing is
    printed and the new pairs are not written.  With an exception that has
    the attribute the failure is printed and the run goes on. *)
Theorem failed_delete_stops_the_run :
  remove_map_annotations delete_fails_without_message "Organism" organism_image
  = (Raise (AttributeError "message"),
     {| server_tags := [];
        image_annotations := image_annotations organism_image;
        next_id := 1; submitted := 1;
        trace := [Submitted_delete "Organism"] |})
  /\ annotateObject NSCLIENTMAPANNOTATION ["Biosample info"; "Organism"]
       delete_fails_without_message overwrite_params two_species organism_image
     = (Raise (AttributeError "message"),
        {| server_tags := [];
           image_annotations := image_annotations organism_image;
           next_id := 1; submitted := 1;
           trace := [Submitted_delete "Organism"] |})
  /\ fst (annotateObject NSCLIENTMAPANNOTATION ["Biosample info"; "Organism"]
            delete_fails_with_message overwrite_params two_species organism_image)
     = Ok (0%Z, 0%Z).
Proof. split; [reflexivity|]. split; reflexivity. Qed.

(** C10: the resolver is partial with a directory: for a raw namespace that
    does not start with the reserved marker and has no three consecutive
    letters or white-space characters, [transformToMaprNamespace] raises
    (the search returns [None] and [.group()] is called on it) instead of
    returning the empty string, and the normalization of every hierarchy
    that holds such a namespace raises the same exception. *)
Theorem resolver_raises_without_letters default directory params data namespace kvs :
  directory <> [] ->
  In (Some namespace, kvs) data ->
  startswith "_" namespace = false ->
  (forall pre a b c post,
      namespace = (pre ++ String a (String b (String c post)))%string ->
      in_class a && in_class b && in_class c = false) ->
  transformToMaprNamespace directory namespace = Raise (AttributeError "group")
  /\ split_data default directory params data = Raise (AttributeError "group").
Proof.
  intros Hdir Hdata Hmark Hrun.
  apply re_search_letters_None in Hrun. split.
  - unfold transformToMaprNamespace. rewrite Hrun. reflexivity.
  - unfold split_data. eapply split_loop_mapr_no_match; eauto.
Qed.

Lemma resolver_raises_without_letters_witness :
  transformToMaprNamespace ["Biosample info"] "01_b2"
  = Raise (AttributeError "group")
  /\ split_data NSCLIENTMAPANNOTATION ["Biosample info"] overwrite_params
       [(Some "01_b2", [("species", ["mouse"])])]
     = Raise (AttributeError "group").
Proof.
  apply (resolver_raises_without_letters NSCLIENTMAPANNOTATION
           ["Biosample info"] overwrite_params
           [(Some "01_b2", [("species", ["mouse"])])]
           "01_b2" [("species", ["mouse"])]).
  - discriminate.
  - simpl. left. reflexivity.
  - reflexivity.
  - apply (proj1 (re_search_letters_None "01_b2")). reflexivity.
Defined.

(** * Further properties of the resolver *)

Lemma in_class_lower_char c : in_class (lower_char c) = in_class c.
Proof.
  destruct c as [b0 b1 b2 b3 b4 b5 b6 b7];
    destruct b0, b1, b2, b3, b4, b5, b6, b7; reflexivity.
Qed.

Lemma marker_lower_char c t t' :
  startswith "_" (String (lower_char c) t) = startswith "_" (String c t').
Proof.
  destruct t, t'; destruct c as [b0 b1 b2 b3 b4 b5 b6 b7];
    destruct b0, b1, b2, b3, b4, b5, b6, b7; reflexivity.
Qed.

Lemma length_lower s : String.length (lower s) = String.length s.
Proof. induction s as [|c s IH]; simpl; congruence. Qed.

Lemma span_class_lower s : span_class (lower s) = lower (span_class s).
Proof.
  induction s as [|c s IH]; simpl; [reflexivity|].
  rewrite in_class_lower_char. destruct (in_class c); simpl; congruence.
Qed.

Lemma re_search_letters_lower s :
  re_search_letters (lower s) = option_map lower (re_search_letters s).
Proof.
  induction s as [|c s IH]; [reflexivity|].
  change (lower (String c s)) with (String (lower_char c) (lower s)).
  cbn [re_search_letters].
  change (String (lower_char c) (lower s)) with (lower (String c s)).
  rewrite span_class_lower, length_lower.
  destruct (3 <=? String.length (span_class (String c s))); [reflexivity|exact IH].
Qed.

Lemma startswith_marker_lower s : startswith "_" (lower s) = startswith "_" s.
Proof.
  destruct s as [|c s]; [reflexivity|]. apply marker_lower_char.
Qed.

(** In the embedding, on the code points 0..255, the resolver reads its
    argument through [lower] only. *)
Lemma resolve_through_lower default directory raw :
  resolve default directory raw
  = if startswith "_" (lower raw) then Ok default
    else match re_search_letters (lower raw) with
         | None => Raise (AttributeError "group")
         | Some letters =>
             Ok (fold_left
                   (fun result namespace =>
                      if str_in letters (lower namespace) then namespace else result)
                   directory "")
         end.
Proof.
  unfold resolve, transformToMaprNamespace.
  rewrite startswith_marker_lower, re_search_letters_lower.
  destruct (startswith "_" raw); [reflexivity|].
  destruct (re_search_letters raw); reflexivity.
Qed.

Lemma resolve_in_directory_aux default directory raw r :
  resolve default directory raw = Ok r ->
  r = default \/ r = "" \/ In r directory.
Proof.
  unfold resolve, transformToMaprNamespace.
  destruct (startswith "_" raw).
  - intros H. inversion H. auto.
  - destruct (re_search_letters raw) as [letters|]; [|discriminate].
    intros H. inversion H as [Hr]. clear H. right.
    destruct (last_match_fold (fun n => str_in (lower letters) (lower n))
                directory "") as [[Hacc _]|(before & after & Hdir & _)].
    + left. exact Hacc.
    + right. rewrite Hdir at 2. apply in_or_app. right. left. reflexivity.
Qed.

(** X1: what the resolver returns is the default namespace, an entry of the
    directory, or the empty string: it never makes up a namespace. *)
Theorem resolve_in_directory default directory raw r :
  resolve default directory raw = Ok r ->
  r = default \/ r = "" \/ In r directory.
Proof. apply resolve_in_directory_aux. Qed.

Lemma resolve_in_directory_witness :
  "Biosample info" = NSCLIENTMAPANNOTATION
  \/ "Biosample info" = ""
  \/ In "Biosample info" ["Organism"; "Biosample info"].
Proof.
  apply (resolve_in_directory NSCLIENTMAPANNOTATION
           ["Organism"; "Biosample info"] "01_Biosample" "Biosample info").
  reflexivity.
Defined.

Lemma lower_ascii_lower_char c : lower_char (ascii_lower_char c) = lower_char c.
Proof.
  destruct c as [b0 b1 b2 b3 b4 b5 b6 b7];
    destruct b0, b1, b2, b3, b4, b5, b6, b7; reflexivity.
Qed.

Lemma lower_ascii_lower s : lower (ascii_lower s) = lower s.
Proof.
  induction s as [|c s IH]; simpl; [reflexivity|].
  rewrite lower_ascii_lower_char, IH. reflexivity.
Qed.

(** X2: the resolution does not depend on the case of the ASCII letters of
    the raw namespace: two raw namespaces that differ only in the case of
    ASCII letters resolve alike, to the same namespace or to the same
    exception. *)
Theorem resolve_ascii_case_insensitive default directory a b :
  ascii_lower a = ascii_lower b ->
  resolve default directory a = resolve default directory b.
Proof.
  intros H.
  assert (Hl : lower a = lower b).
  { rewrite <- (lower_ascii_lower a), <- (lower_ascii_lower b), H. reflexivity. }
  rewrite !resolve_through_lower, Hl. reflexivity.
Qed.

Lemma resolve_ascii_case_insensitive_witness :
  resolve NSCLIENTMAPANNOTATION ["Organism"; "Biosample info"] "01_BIOsample"
  = resolve NSCLIENTMAPANNOTATION ["Organism"; "Biosample info"] "01_biosample".
Proof.
  apply resolve_ascii_case_insensitive. reflexivity.
Defined.

(** * Further properties of the normalizer *)

Lemma pair_mem_In p l : pair_mem p l = true <-> In p l.
Proof.
  unfold pair_mem. rewrite existsb_exists. split.
  - intros [q [Hin Heq]]. unfold pair_eqb in Heq.
    apply andb_true_iff in Heq. destruct Heq as [H1 H2].
    apply String.eqb_eq in H1, H2. destruct p, q. simpl in *. subst. exact Hin.
  - intros H. exists p. split; [exact H|]. unfold pair_eqb.
    rewrite !String.eqb_refl. reflexivity.
Qed.

Lemma add_pairs_In key values : forall l p,
  In p (add_pairs key values l)
  <-> In p l \/ (fst p = key /\ In (snd p) values).
Proof.
  unfold add_pairs.
  induction values as [|value values IH]; intros l p; simpl.
  - tauto.
  - rewrite IH. destruct (pair_mem (key, value) l) eqn:E.
    + apply pair_mem_In in E. split; [tauto|].
      intros [H|[Hk [Hv|Hv]]]; auto.
      left. destruct p. simpl in *. subst. exact E.
    + rewrite in_app_single. split.
      * intros [[H|H]|H]; [auto| |tauto]. subst p. simpl. auto.
      * intros [H|[Hk [Hv|Hv]]]; auto.
        left. right. destruct p. simpl in *. subst. reflexivity.
Qed.

Lemma NoDup_app_single {A} (l : list A) x :
  NoDup l -> ~ In x l -> NoDup (l ++ [x]).
Proof.
  intros Hnd Hx. apply NoDup_app; [exact Hnd|repeat constructor; intros []|].
  intros y Hy [Heq|[]]. subst. contradiction.
Qed.

Lemma add_pairs_NoDup key values : forall l,
  NoDup l -> NoDup (add_pairs key values l).
Proof.
  unfold add_pairs.
  induction values as [|value values IH]; intros l H; simpl; [exact H|].
  apply IH. destruct (pair_mem (key, value) l) eqn:E; [exact H|].
  apply NoDup_app_single; [exact H|].
  intros Hin. apply pair_mem_In in Hin. congruence.
Qed.

Lemma flat_pairs_ok namespace kvs : forall l,
  (forall key values, In (key, values) kvs -> startswith "_" key = false) ->
  exists l', flat_pairs namespace kvs l = Ok l'.
Proof.
  induction kvs as [|[key values] kvs IH]; intros l H; simpl.
  - eexists. reflexivity.
  - rewrite (H key values (or_introl eq_refl)). apply IH.
    intros k vs Hin. apply (H k vs). right. exact Hin.
Qed.

Lemma flat_pairs_In namespace kvs : forall l l',
  flat_pairs namespace kvs l = Ok l' ->
  (forall p, In p l'
             <-> In p l \/ exists vs, In (fst p, vs) kvs /\ In (snd p) vs)
  /\ (NoDup l -> NoDup l').
Proof.
  induction kvs as [|[key values] kvs IH]; intros l l' H; simpl in H.
  - inversion H. subst. split; [|auto]. intros p. split; [auto|].
    intros [Hp|[vs [[] _]]]. exact Hp.
  - destruct (startswith "_" key); [discriminate|].
    destruct (IH _ _ H) as [Hin Hnd]. split.
    + intros p. rewrite Hin, add_pairs_In. split.
      * intros [[Hp|[Hk Hv]]|[vs [Hkv Hv]]].
        -- auto.
        -- right. exists values. split; [left; congruence|exact Hv].
        -- right. exists vs. split; [right; exact Hkv|exact Hv].
      * intros [Hp|[vs [[Heq|Hkv] Hv]]].
        -- auto.
        -- inversion Heq. subst. left. right. auto.
        -- right. exists vs. auto.
    + intros Hl. apply Hnd. apply add_pairs_NoDup. exact Hl.
Qed.

Lemma collect_values_app values : forall (new_tags : list string),
  fold_left (fun new_tags value => new_tags ++ [value]) values new_tags
  = new_tags ++ values.
Proof.
  induction values as [|value values IH]; intros new_tags; simpl.
  - rewrite app_nil_r. reflexivity.
  - rewrite IH, <- app_assoc. reflexivity.
Qed.

Lemma collect_tags_In kvs : forall new_tags t,
  In t (collect_tags kvs new_tags)
  <-> In t new_tags
      \/ exists key values,
           In (key, values) kvs /\ startswith "_" key = true /\ In t values.
Proof.
  unfold collect_tags.
  induction kvs as [|[key values] kvs IH]; intros new_tags t; simpl.
  - split; [auto|]. intros [H|(k & vs & [] & _)]. exact H.
  - rewrite IH. destruct (startswith "_" key) eqn:E.
    + rewrite collect_values_app, in_app_iff. split.
      * intros [[H|H]|(k & vs & Hin & Hk & Ht)]; eauto 8.
      * intros [H|(k & vs & [Heq|Hin] & Hk & Ht)]; eauto 8.
        inversion Heq. subst. auto.
    + split.
      * intros [H|(k & vs & Hin & Hk & Ht)]; eauto 8.
      * intros [H|(k & vs & [Heq|Hin] & Hk & Ht)]; eauto 8.
        inversion Heq. subst. congruence.
Qed.

Lemma list_mem_false x l : list_mem x l = false <-> ~ In x l.
Proof.
  rewrite <- list_mem_In. destruct (list_mem x l); split; congruence.
Qed.

Lemma add_values_In values : forall present v,
  In v (add_values values present) <-> In v present \/ In v values.
Proof.
  unfold add_values.
  induction values as [|value values IH]; intros present v; simpl.
  - tauto.
  - rewrite IH. destruct (list_mem value present) eqn:E.
    + apply list_mem_In in E. split; [tauto|].
      intros [H|[H|H]]; auto. subst. auto.
    + rewrite in_app_single. split.
      * intros [[H|H]|H]; auto.
      * intros [H|[H|H]]; auto.
Qed.

Lemma add_values_NoDup values : forall present,
  NoDup present -> NoDup (add_values values present).
Proof.
  unfold add_values.
  induction values as [|value values IH]; intros present H; simpl; [exact H|].
  apply IH. destruct (list_mem value present) eqn:E; [exact H|].
  apply NoDup_app_single; [exact H|]. apply list_mem_false. exact E.
Qed.

Lemma add_key_values_cons key values kvs inner :
  add_key_values ((key, values) :: kvs) inner
  = add_key_values kvs
      (dict_set inner key (add_values values (values_of inner key))).
Proof.
  unfold add_key_values. cbn [fold_left]. f_equal. unfold values_of.
  apply (ensure_then_update inner key [] (add_values values)).
Qed.

Lemma add_key_values_values kvs : forall inner k v,
  In v (values_of (add_key_values kvs inner) k)
  <-> In v (values_of inner k) \/ exists vs, In (k, vs) kvs /\ In v vs.
Proof.
  induction kvs as [|[key values] kvs IH]; intros inner k v.
  - simpl. split; [auto|]. intros [H|[vs [[] _]]]. exact H.
  - rewrite add_key_values_cons, IH, values_of_set.
    destruct (String.eqb_spec k key) as [->|Hne].
    + rewrite add_values_In. split.
      * intros [[H|H]|[vs [Hin Hv]]]; [auto| |].
        -- right. exists values. split; [left; reflexivity|exact H].
        -- right. exists vs. split; [right; exact Hin|exact Hv].
      * intros [H|[vs [[Heq|Hin] Hv]]]; [auto| |].
        -- inversion Heq. subst. auto.
        -- right. exists vs. auto.
    + split.
      * intros [H|[vs [Hin Hv]]]; [auto|].
        right. exists vs. split; [right; exact Hin|exact Hv].
      * intros [H|[vs [[Heq|Hin] Hv]]]; [auto| |].
        -- inversion Heq. congruence.
        -- right. exists vs. auto.
Qed.

Lemma tidy_values_of inner k : tidy_inner inner -> NoDup (values_of inner k).
Proof.
  intros [_ Hall]. unfold values_of.
  destruct (dict_get inner k) eqn:E; [|constructor].
  apply dict_get_In in E. rewrite Forall_forall in Hall. apply (Hall _ E).
Qed.

Lemma tidy_inner_of d ns : tidy_kv_dict d -> tidy_inner (inner_of d ns).
Proof.
  intros [_ Hall]. unfold inner_of.
  destruct (dict_get d ns) eqn:E; [|split; constructor].
  apply dict_get_In in E. rewrite Forall_forall in Hall. apply (Hall _ E).
Qed.

Lemma add_key_values_tidy kvs : forall inner,
  tidy_inner inner -> tidy_inner (add_key_values kvs inner).
Proof.
  induction kvs as [|[key values] kvs IH]; intros inner H; [exact H|].
  rewrite add_key_values_cons. apply IH. split.
  - apply dict_set_NoDup. apply H.
  - apply (dict_set_Forall (fun vs => NoDup vs)); [apply H|].
    apply add_values_NoDup. apply tidy_values_of. exact H.
Qed.

Lemma dict_pairs_eq namespace kvs d :
  dict_pairs namespace kvs d
  = dict_set d namespace (add_key_values kvs (inner_of d namespace)).
Proof.
  unfold dict_pairs, inner_of.
  apply (ensure_then_update d namespace [] (add_key_values kvs)).
Qed.

Lemma dict_pairs_tidy namespace kvs d :
  tidy_kv_dict d -> tidy_kv_dict (dict_pairs namespace kvs d).
Proof.
  intros H. rewrite dict_pairs_eq. split.
  - apply dict_set_NoDup. apply H.
  - apply (dict_set_Forall tidy_inner); [apply H|].
    apply add_key_values_tidy. apply tidy_inner_of. exact H.
Qed.

Lemma dict_pairs_values namespace kvs d ns k v :
  In v (values_of (inner_of (dict_pairs namespace kvs d) ns) k)
  <-> In v (values_of (inner_of d ns) k)
      \/ (ns = namespace /\ exists vs, In (k, vs) kvs /\ In v vs).
Proof.
  rewrite dict_pairs_eq, inner_of_set.
  destruct (String.eqb_spec ns namespace) as [->|Hne].
  - rewrite add_key_values_values. tauto.
  - tauto.
Qed.

Lemma dict_pairs_keys namespace kvs d ns :
  In ns (map fst (dict_pairs namespace kvs d))
  <-> In ns (map fst d) \/ ns = namespace.
Proof.
  rewrite dict_pairs_eq, dict_set_keys.
  destruct (dict_mem d namespace) eqn:E.
  - apply dict_mem_true in E. split; [auto|]. intros [H|H]; [exact H|subst; exact E].
  - rewrite in_app_single. tauto.
Qed.

Lemma tidy_wf d : tidy_kv_dict d -> wf_kv_dict d.
Proof.
  intros [Hnd Hall]. split; [exact Hnd|].
  rewrite Forall_forall in *. intros e He. apply (Hall e He).
Qed.

Section NormalizerContent.

Variable DEFAULT_NAMESPACE : string.
Variable directory : list string.
Variable params : script_params.

Lemma split_step_None tags l d kvs :
  split_step DEFAULT_NAMESPACE directory params (tags, l, d) (None, kvs)
  = Ok (if Process_single_tags params then collect_tags kvs tags else tags, l, d).
Proof. reflexivity. Qed.

Lemma split_step_flat tags l d namespace kvs :
  directory = [] ->
  split_step DEFAULT_NAMESPACE directory params (tags, l, d) (Some namespace, kvs)
  = rbind (flat_pairs namespace kvs l) (fun l' => Ok (tags, l', d)).
Proof.
  intros Hdir. unfold split_step. rewrite Hdir. simpl.
  destruct (flat_pairs namespace kvs l); reflexivity.
Qed.

Lemma split_step_mapr tags l d namespace kvs :
  directory <> [] ->
  split_step DEFAULT_NAMESPACE directory params (tags, l, d) (Some namespace, kvs)
  = rbind (resolve DEFAULT_NAMESPACE directory namespace)
      (fun resolved => Ok (tags, l, dict_pairs resolved kvs d)).
Proof.
  intros Hdir. unfold split_step.
  destruct (nonempty_length directory Hdir) as [-> ->]. reflexivity.
Qed.

(** The tags, in either mode. *)
Lemma split_loop_tags data : forall tags l d tags' l' d',
  split_loop DEFAULT_NAMESPACE directory params data (tags, l, d)
  = Ok (tags', l', d') ->
  forall t,
    In t tags'
    <-> In t tags
        \/ (Process_single_tags params = true
            /\ exists kvs key values,
                In (None, kvs) data /\ In (key, values) kvs
                /\ startswith "_" key = true /\ In t values).
Proof.
  induction data as [|[[namespace|] kvs] data IH]; intros tags l d tags' l' d' H t;
    simpl in H.
  - inversion H. subst. split; [auto|].
    intros [Ht|[_ (kvs & key & values & [] & _)]]. exact Ht.
  - destruct (split_step DEFAULT_NAMESPACE directory params (tags, l, d)
                (Some namespace, kvs)) as [[[t1 l1] d1]|e] eqn:E;
      simpl in H; [|discriminate].
    assert (Ht1 : t1 = tags).
    { unfold split_step in E.
      destruct (if length directory =? 0
                then flat_pairs namespace kvs l else Ok l); simpl in E;
        [|discriminate].
      destruct (0 <? length directory); simpl in E; [|congruence].
      destruct (resolve DEFAULT_NAMESPACE directory namespace); simpl in E;
        congruence. }
    subst t1. rewrite (IH _ _ _ _ _ _ H t). split.
    + intros [Ht|[Hp (kvs0 & key & values & Hin & Hrest)]]; [auto|].
      right. split; [exact Hp|]. exists kvs0, key, values.
      split; [right; exact Hin|exact Hrest].
    + intros [Ht|[Hp (kvs0 & key & values & [Heq|Hin] & Hrest)]]; [auto| |].
      * discriminate.
      * right. split; [exact Hp|]. exists kvs0, key, values. auto.
  - try rewrite split_step_None in H; simpl in H.
    rewrite (IH _ _ _ _ _ _ H t).
    destruct (Process_single_tags params) eqn:Ep.
    + rewrite collect_tags_In. split.
      * intros [[Ht|(key & values & Hin & Hk & Hv)]|[_ (kvs0 & key & values & Hin & Hrest)]].
        -- auto.
        -- right. split; [reflexivity|]. exists kvs, key, values.
           split; [left; reflexivity|auto].
        -- right. split; [reflexivity|]. exists kvs0, key, values.
           split; [right; exact Hin|exact Hrest].
      * intros [Ht|[_ (kvs0 & key & values & [Heq|Hin] & Hk & Hkey & Hv)]].
        -- auto.
        -- inversion Heq. subst. left. right. exists key, values. auto.
        -- right. split; [reflexivity|]. exists kvs0, key, values. auto.
    + split.
      * intros [Ht|[Hp _]]; [auto|discriminate].
      * intros [Ht|[Hp _]]; [auto|discriminate].
Qed.

(** Without a directory. *)
Lemma split_loop_flat_ok data : forall tags l d,
  directory = [] ->
  (forall namespace kvs key values,
      In (Some namespace, kvs) data -> In (key, values) kvs ->
      startswith "_" key = false) ->
  exists out, split_loop DEFAULT_NAMESPACE directory params data (tags, l, d) = Ok out.
Proof.
  induction data as [|[[namespace|] kvs] data IH]; intros tags l d Hdir H; simpl.
  - eexists. reflexivity.
  - rewrite (split_step_flat _ _ _ _ _ Hdir).
    destruct (flat_pairs_ok namespace kvs l) as [l' Hl'].
    { intros key values Hin. apply (H namespace kvs key values); [left; reflexivity|exact Hin]. }
    rewrite Hl'. simpl. apply IH; [exact Hdir|].
    intros ns kvs0 key values Hin. apply (H ns kvs0 key values). right. exact Hin.
  - try rewrite split_step_None; simpl; apply IH; [exact Hdir|].
    intros ns kvs0 key values Hin. apply (H ns kvs0 key values). right. exact Hin.
Qed.

Lemma split_loop_flat_pairs data : forall tags l d tags' l' d',
  directory = [] ->
  split_loop DEFAULT_NAMESPACE directory params data (tags, l, d)
  = Ok (tags', l', d') ->
  (forall p, In p l'
             <-> In p l
                 \/ exists namespace kvs values,
                      In (Some namespace, kvs) data
                      /\ In (fst p, values) kvs /\ In (snd p) values)
  /\ (NoDup l -> NoDup l').
Proof.
  induction data as [|[[namespace|] kvs] data IH];
    intros tags l d tags' l' d' Hdir H; simpl in H.
  - inversion H. subst. split; [|auto]. intros p. split; [auto|].
    intros [Hp|(ns & kvs & values & [] & _)]. exact Hp.
  - rewrite (split_step_flat _ _ _ _ _ Hdir) in H.
    destruct (flat_pairs namespace kvs l) as [l1|e] eqn:E; simpl in H; [|discriminate].
    destruct (flat_pairs_In _ _ _ _ E) as [Hin1 Hnd1].
    destruct (IH _ _ _ _ _ _ Hdir H) as [Hin Hnd]. split; [|auto].
    intros p. rewrite Hin, Hin1. split.
    + intros [[Hp|[values [Hkv Hv]]]|(ns & kvs0 & values & Hd & Hrest)].
      * auto.
      * right. exists namespace, kvs, values. split; [left; reflexivity|auto].
      * right. exists ns, kvs0, values. split; [right; exact Hd|exact Hrest].
    + intros [Hp|(ns & kvs0 & values & [Heq|Hd] & Hkv & Hv)].
      * auto.
      * inversion Heq. subst. left. right. exists values. auto.
      * right. exists ns, kvs0, values. auto.
  - try rewrite split_step_None in H; simpl in H.
    destruct (IH _ _ _ _ _ _ Hdir H) as [Hin Hnd]. split; [|exact Hnd].
    intros p. rewrite Hin. split.
    + intros [Hp|(ns & kvs0 & values & Hd & Hrest)]; [auto|].
      right. exists ns, kvs0, values. split; [right; exact Hd|exact Hrest].
    + intros [Hp|(ns & kvs0 & values & [Heq|Hd] & Hrest)]; [auto|discriminate|].
      right. exists ns, kvs0, values. auto.
Qed.

(** With a directory. *)
Lemma split_loop_mapr_ok data : forall tags l d,
  directory <> [] ->
  (forall namespace kvs,
      In (Some namespace, kvs) data ->
      exists resolved, resolve DEFAULT_NAMESPACE directory namespace = Ok resolved) ->
  exists out, split_loop DEFAULT_NAMESPACE directory params data (tags, l, d) = Ok out.
Proof.
  induction data as [|[[namespace|] kvs] data IH]; intros tags l d Hdir H; simpl.
  - eexists. reflexivity.
  - rewrite (split_step_mapr _ _ _ _ _ Hdir).
    destruct (H namespace kvs (or_introl eq_refl)) as [resolved Hr].
    rewrite Hr. simpl. apply IH; [exact Hdir|].
    intros ns kvs0 Hin. apply (H ns kvs0). right. exact Hin.
  - try rewrite split_step_None; simpl; apply IH; [exact Hdir|].
    intros ns kvs0 Hin. apply (H ns kvs0). right. exact Hin.
Qed.

Lemma split_loop_mapr_dict data : forall tags l d tags' l' d',
  directory <> [] ->
  split_loop DEFAULT_NAMESPACE directory params data (tags, l, d)
  = Ok (tags', l', d') ->
  (forall ns k v,
      In v (values_of (inner_of d' ns) k)
      <-> In v (values_of (inner_of d ns) k)
          \/ exists namespace kvs values,
               In (Some namespace, kvs) data
               /\ resolve DEFAULT_NAMESPACE directory namespace = Ok ns
               /\ In (k, values) kvs /\ In v values)
  /\ (forall ns,
        In ns (map fst d')
        <-> In ns (map fst d)
            \/ exists namespace kvs,
                 In (Some namespace, kvs) data
                 /\ resolve DEFAULT_NAMESPACE directory namespace = Ok ns)
  /\ (tidy_kv_dict d -> tidy_kv_dict d').
Proof.
  induction data as [|[[namespace|] kvs] data IH];
    intros tags l d tags' l' d' Hdir H; simpl in H.
  - inversion H. subst. split; [|split; [|auto]].
    + intros ns k v. split; [auto|].
      intros [Hp|(n & kvs & values & [] & _)]. exact Hp.
    + intros ns. split; [auto|]. intros [Hp|(n & kvs & [] & _)]. exact Hp.
  - rewrite (split_step_mapr _ _ _ _ _ Hdir) in H.
    destruct (resolve DEFAULT_NAMESPACE directory namespace) as [resolved|e] eqn:E;
      simpl in H; [|discriminate].
    destruct (IH _ _ _ _ _ _ Hdir H) as (Hval & Hkeys & Htidy).
    split; [|split].
    + intros ns k v. rewrite Hval, dict_pairs_values. split.
      * intros [[Hp|[Hns [values [Hkv Hv]]]]|(n & kvs0 & values & Hd & Hrest)].
        -- auto.
        -- right. exists namespace, kvs, values. subst ns.
           split; [left; reflexivity|auto].
        -- right. exists n, kvs0, values. split; [right; exact Hd|exact Hrest].
      * intros [Hp|(n & kvs0 & values & [Heq|Hd] & Hr & Hkv & Hv)].
        -- auto.
        -- inversion Heq. subst. left. right.
           split; [congruence|]. exists values. auto.
        -- right. exists n, kvs0, values. auto.
    + intros ns. rewrite Hkeys, dict_pairs_keys. split.
      * intros [[Hp|Hns]|(n & kvs0 & Hd & Hr)].
        -- auto.
        -- right. exists namespace, kvs. subst ns. split; [left; reflexivity|exact E].
        -- right. exists n, kvs0. split; [right; exact Hd|exact Hr].
      * intros [Hp|(n & kvs0 & [Heq|Hd] & Hr)].
        -- auto.
        -- inversion Heq. subst. left. right. congruence.
        -- right. exists n, kvs0. auto.
    + intros Hd. apply Htidy. apply dict_pairs_tidy. exact Hd.
  - try rewrite split_step_None in H; simpl in H.
    destruct (IH _ _ _ _ _ _ Hdir H) as (Hval & Hkeys & Htidy).
    split; [|split; [|exact Htidy]].
    + intros ns k v. rewrite Hval. split.
      * intros [Hp|(n & kvs0 & values & Hd & Hrest)]; [auto|].
        right. exists n, kvs0, values. split; [right; exact Hd|exact Hrest].
      * intros [Hp|(n & kvs0 & values & [Heq|Hd] & Hrest)]; [auto|discriminate|].
        right. exists n, kvs0, values. auto.
    + intros ns. rewrite Hkeys. split.
      * intros [Hp|(n & kvs0 & Hd & Hr)]; [auto|].
        right. exists n, kvs0. split; [right; exact Hd|exact Hr].
      * intros [Hp|(n & kvs0 & [Heq|Hd] & Hr)]; [auto|discriminate|].
        right. exists n, kvs0. auto.
Qed.

(** The dict of [split_data] is tidy in either mode. *)
Lemma split_data_tidy data tags l d :
  split_data DEFAULT_NAMESPACE directory params data = Ok (tags, l, d) ->
  tidy_kv_dict d.
Proof.
  intros H. unfold split_data in H.
  destruct directory as [|n dir'] eqn:Hdir.
  - assert (Hd : d = []).
    { eapply (split_loop_flat_mode DEFAULT_NAMESPACE []); eauto. }
    subst d. split; constructor.
  - assert (Hne : directory <> []) by (rewrite Hdir; discriminate).
    rewrite <- Hdir in H.
    destruct (split_loop_mapr_dict _ _ _ _ _ _ _ Hne H) as (_ & _ & Htidy).
    apply Htidy. split; constructor.
Qed.

End NormalizerContent.

Lemma resolve_returns default directory namespace :
  (exists resolved, resolve default directory namespace = Ok resolved)
  <-> startswith "_" namespace = true \/ re_search_letters namespace <> None.
Proof.
  unfold resolve, transformToMaprNamespace.
  destruct (startswith "_" namespace).
  - split; [auto|]. intros _. eexists. reflexivity.
  - destruct (re_search_letters namespace).
    + split; [intros _; right; discriminate|]. intros _. eexists. reflexivity.
    + split; [intros [r H]; discriminate|]. intros [H|H]; congruence.
Qed.

(** X3: without a directory the normalizer returns exactly when no key
    under a namespace other than [None] starts with the reserved marker;
    the assertion of line 370 is its only way to fail. *)
Theorem split_data_flat_returns default params data :
  (exists out, split_data default [] params data = Ok out)
  <-> (forall namespace kvs key values,
          In (Some namespace, kvs) data -> In (key, values) kvs ->
          startswith "_" key = false).
Proof.
  unfold split_data. split.
  - intros [out Hout] namespace kvs key values Hdata Hin.
    destruct (startswith "_" key) eqn:E; [|reflexivity].
    destruct (split_loop_flat_marker_key default [] params data namespace kvs
                key values eq_refl Hdata Hin E ([], [], [])) as [e [He _]].
    congruence.
  - intros H. apply split_loop_flat_ok; [reflexivity|exact H].
Qed.

(** X4: with a directory the normalizer returns exactly when every
    namespace other than [None] starts with the reserved marker or has
    three consecutive letters or white-space characters; keys are not
    checked in this mode. *)
Theorem split_data_mapr_returns default directory params data :
  directory <> [] ->
  ((exists out, split_data default directory params data = Ok out)
   <-> (forall namespace kvs,
           In (Some namespace, kvs) data ->
           startswith "_" namespace = true
           \/ re_search_letters namespace <> None)).
Proof.
  intros Hdir. unfold split_data. split.
  - intros [out Hout] namespace kvs Hdata.
    destruct (startswith "_" namespace) eqn:Em; [auto|].
    destruct (re_search_letters namespace) eqn:Er; [right; discriminate|].
    rewrite (split_loop_mapr_no_match default directory params data namespace
               kvs Hdir Hdata Em Er) in Hout.
    discriminate.
  - intros H. apply split_loop_mapr_ok; [exact Hdir|].
    intros namespace kvs Hdata. apply resolve_returns. eapply H. exact Hdata.
Qed.

Lemma split_data_mapr_returns_witness :
  (exists out,
      split_data NSCLIENTMAPANNOTATION ["Biosample info"] overwrite_params
        [(Some "01_Bio", [("_workspace", ["untagged"])])] = Ok out)
  <-> (forall namespace kvs,
          In (Some namespace, kvs)
            [(Some "01_Bio", [("_workspace", ["untagged"])])] ->
          startswith "_" namespace = true
          \/ re_search_letters namespace <> None).
Proof.
  apply (split_data_mapr_returns NSCLIENTMAPANNOTATION ["Biosample info"]
           overwrite_params [(Some "01_Bio", [("_workspace", ["untagged"])])]).
  discriminate.
Defined.

(** X5: without a directory, the flat list of [split_data] holds exactly the
    (key, value) pairs found under the namespaces other than [None], each
    of them once, whatever the namespaces they come from. *)
Theorem split_data_flat_list default params data tags l d :
  split_data default [] params data = Ok (tags, l, d) ->
  NoDup l
  /\ forall key value,
      In (key, value) l
      <-> exists namespace kvs values,
            In (Some namespace, kvs) data
            /\ In (key, values) kvs /\ In value values.
Proof.
  unfold split_data. intros H.
  destruct (split_loop_flat_pairs default [] params data _ _ _ _ _ _ eq_refl H)
    as [Hin Hnd].
  split; [apply Hnd; constructor|].
  intros key value. rewrite (Hin (key, value)). simpl. split.
  - intros [[]|H']. exact H'.
  - auto.
Qed.

Lemma split_data_flat_list_witness :
  NoDup [("species", "mouse")]
  /\ forall key value,
      In (key, value) [("species", "mouse")]
      <-> exists namespace kvs values,
            In (Some namespace, kvs)
              [(Some "01_Bio", [("species", ["mouse"])]);
               (Some "02_Sample", [("species", ["mouse"])])]
            /\ In (key, values) kvs /\ In value values.
Proof.
  apply (split_data_flat_list NSCLIENTMAPANNOTATION overwrite_params
           [(Some "01_Bio", [("species", ["mouse"])]);
            (Some "02_Sample", [("species", ["mouse"])])] [] _ []).
  reflexivity.
Defined.

(** X6: in either mode the tags of [split_data] are the values found under
    the namespace [None] and a key that starts with the reserved marker,
    and there are none when Process_single_tags is off. *)
Theorem split_data_tags default directory params data tags l d :
  split_data default directory params data = Ok (tags, l, d) ->
  forall t,
    In t tags
    <-> Process_single_tags params = true
        /\ exists kvs key values,
             In (None, kvs) data /\ In (key, values) kvs
             /\ startswith "_" key = true /\ In t values.
Proof.
  unfold split_data. intros H t.
  rewrite (split_loop_tags default directory params data _ _ _ _ _ _ H t).
  simpl. tauto.
Qed.

Lemma split_data_tags_witness :
  In "untagged" ["untagged"]
  <-> Process_single_tags overwrite_params = true
      /\ exists kvs key values,
           In (None, kvs) bio_hierarchy /\ In (key, values) kvs
           /\ startswith "_" key = true /\ In "untagged" values.
Proof.
  apply (split_data_tags NSCLIENTMAPANNOTATION ["Biosample info"]
           overwrite_params bio_hierarchy ["untagged"] []
           [("Biosample info", [("species", ["mouse"])])]).
  reflexivity.
Defined.

(** X7: the namespaced dict of [split_data] is a well-formed dict: its
    namespaces are pairwise distinct, so are the keys of a namespace, no
    list of values repeats a value, and every namespace is the default
    namespace, an entry of the directory or the empty string. *)
Theorem split_data_dict_tidy default directory params data tags l d :
  split_data default directory params data = Ok (tags, l, d) ->
  NoDup (map fst d)
  /\ (forall ns inner,
        In (ns, inner) d ->
        NoDup (map fst inner)
        /\ forall key values, In (key, values) inner -> NoDup values)
  /\ (forall ns, In ns (map fst d) -> ns = default \/ ns = "" \/ In ns directory).
Proof.
  intros H. pose proof (split_data_tidy default directory params data tags l d H)
    as [Hnd Hall].
  split; [exact Hnd|]. split.
  - intros ns inner Hin. rewrite Forall_forall in Hall.
    destruct (Hall _ Hin) as [Hwf Hvals]. split; [exact Hwf|].
    intros key values Hkv. rewrite Forall_forall in Hvals. apply (Hvals _ Hkv).
  - intros ns Hns. unfold split_data in H.
    destruct directory as [|n dir'] eqn:Hdir.
    + assert (Hd : d = []).
      { eapply (split_loop_flat_mode default []); eauto. }
      subst d. contradiction.
    + assert (Hne : n :: dir' <> []) by discriminate.
      destruct (split_loop_mapr_dict default (n :: dir') params data
                  _ _ _ _ _ _ Hne H) as (_ & Hkeys & _).
      apply Hkeys in Hns. destruct Hns as [[]|(namespace & kvs & _ & Hr)].
      eapply resolve_in_directory_aux. exact Hr.
Qed.

Lemma split_data_dict_tidy_witness :
  NoDup (map fst [("Biosample info", [("species", ["mouse"])])])
  /\ (forall ns inner,
        In (ns, inner) [("Biosample info", [("species", ["mouse"])])] ->
        NoDup (map fst inner)
        /\ forall key values, In (key, values) inner -> NoDup values)
  /\ (forall ns,
        In ns (map fst [("Biosample info", [("species", ["mouse"])])]) ->
        ns = NSCLIENTMAPANNOTATION \/ ns = "" \/ In ns ["Biosample info"]).
Proof.
  apply (split_data_dict_tidy NSCLIENTMAPANNOTATION ["Biosample info"]
           overwrite_params bio_hierarchy ["untagged"] []).
  reflexivity.
Defined.

(** X8: with a directory, the value [v] is listed under the key [k] of the
    namespace [ns] of the dict of [split_data] exactly when the hierarchy
    holds [v] under [k] in a namespace, other than [None], that resolves to
    [ns]: raw namespaces with the same resolution are merged and nothing
    else is added. *)
Theorem split_data_dict_content default directory params data tags l d :
  directory <> [] ->
  split_data default directory params data = Ok (tags, l, d) ->
  forall ns k v,
    In v (values_of (inner_of d ns) k)
    <-> exists namespace kvs values,
          In (Some namespace, kvs) data
          /\ resolve default directory namespace = Ok ns
          /\ In (k, values) kvs /\ In v values.
Proof.
  intros Hdir H ns k v. unfold split_data in H.
  destruct (split_loop_mapr_dict default directory params data
              _ _ _ _ _ _ Hdir H) as (Hval & _ & _).
  rewrite Hval. simpl. split.
  - intros [[]|H']. exact H'.
  - auto.
Qed.

Lemma split_data_dict_content_witness :
  In "rat"
    (values_of
       (inner_of [("Biosample info", [("species", ["mouse"; "rat"])])]
          "Biosample info") "species")
  <-> exists namespace kvs values,
        In (Some namespace, kvs)
          [(Some "01_Bio", [("species", ["mouse"])]);
           (Some "02_bio", [("species", ["rat"; "mouse"])])]
        /\ resolve NSCLIENTMAPANNOTATION ["Biosample info"] namespace
           = Ok "Biosample info"
        /\ In ("species", values) kvs /\ In "rat" values.
Proof.
  apply (split_data_dict_content NSCLIENTMAPANNOTATION ["Biosample info"]
           overwrite_params
           [(Some "01_Bio", [("species", ["mouse"])]);
            (Some "02_bio", [("species", ["rat"; "mouse"])])] [] []).
  - discriminate.
  - reflexivity.
Defined.

(** * Further properties of the store helpers *)

Lemma tag_dict_fold name l : forall (d : dict nat),
  dict_get
    (fold_left
       (fun tag_dict '(tag_id, n) =>
          if dict_mem tag_dict n then tag_dict else dict_set tag_dict n tag_id)
       l d) name
  = match dict_get d name with
    | Some id => Some id
    | None => first_tag_id l name
    end.
Proof.
  unfold first_tag_id.
  induction l as [|[tag_id n] l IH]; intros d; simpl.
  - destruct (dict_get d name); reflexivity.
  - rewrite IH. unfold dict_mem.
    destruct (String.eqb_spec n name) as [->|Hne].
    + destruct (dict_get d name) eqn:E; [rewrite E; reflexivity|].
      rewrite dict_get_set_eq. reflexivity.
    + destruct (dict_get d n) eqn:E; [reflexivity|].
      rewrite dict_get_set_neq by congruence. reflexivity.
Qed.

(** X9: [get_tag_dict] maps a tag text to the id of the first tag of the
    server with that text: later tags with the same text are ignored, and a
    text is absent from the dict exactly when no tag of the server has it. *)
Theorem get_tag_dict_first st name :
  dict_get (get_tag_dict st) name = first_tag_id (server_tags st) name
  /\ (dict_mem (get_tag_dict st) name = true
      <-> In name (map snd (server_tags st))).
Proof.
  assert (H : dict_get (get_tag_dict st) name = first_tag_id (server_tags st) name).
  { unfold get_tag_dict. rewrite tag_dict_fold. reflexivity. }
  split; [exact H|].
  unfold dict_mem. rewrite H. unfold first_tag_id.
  destruct (find (fun t => String.eqb (snd t) name) (server_tags st)) as [t|] eqn:E.
  - simpl. split; [intros _|reflexivity].
    apply find_some in E. destruct E as [Hin Heq].
    apply String.eqb_eq in Heq. subst name. apply in_map. exact Hin.
  - simpl. split; [discriminate|]. intros Hin.
    apply in_map_iff in Hin. destruct Hin as [t [Ht Hin]].
    apply (find_none _ _ E) in Hin. subst name.
    rewrite String.eqb_refl in Hin. discriminate.
Qed.

Lemma inner_size_set inner key values :
  inner_size (dict_set inner key values) + length (values_of inner key)
  = inner_size inner + length values.
Proof.
  unfold inner_size, items_to_pairs, values_of.
  induction inner as [|[k0 v0] inner IH]; simpl.
  - rewrite !length_app, !length_map. simpl. lia.
  - destruct (String.eqb key k0); simpl.
    + rewrite !length_app, !length_map. lia.
    + rewrite !length_app, !length_map. lia.
Qed.

Lemma dict_size_set d namespace inner :
  dict_size (dict_set d namespace inner) + inner_size (inner_of d namespace)
  = dict_size d + inner_size inner.
Proof.
  unfold dict_size, inner_of, inner_size.
  induction d as [|[n0 i0] d IH]; simpl.
  - rewrite !length_app. simpl. lia.
  - destruct (String.eqb namespace n0); simpl.
    + rewrite !length_app. lia.
    + rewrite !length_app. lia.
Qed.

Lemma append_pair_size inner kv :
  inner_size (append_pair inner kv) = S (inner_size inner).
Proof.
  destruct kv as [key value]. rewrite append_pair_eq.
  pose proof (inner_size_set inner key (values_of inner key ++ [value])) as H.
  rewrite length_app in H. simpl in H. lia.
Qed.

Lemma fold_append_pair_size kvs : forall inner,
  inner_size (fold_left append_pair kvs inner) = inner_size inner + length kvs.
Proof.
  induction kvs as [|kv kvs IH]; intros inner; simpl; [lia|].
  rewrite IH, append_pair_size. lia.
Qed.

Lemma record_annotation_size d a ns :
  inner_size (inner_of (record_annotation d a) ns)
  = inner_size (inner_of d ns) + length (pairs_of_annotation ns a).
Proof.
  destruct a as [id value|n kvs]; simpl.
  - unfold record_annotation. lia.
  - rewrite record_annotation_eq, inner_of_set.
    rewrite (String.eqb_sym n ns).
    destruct (String.eqb_spec ns n) as [->|Hne].
    + apply fold_append_pair_size.
    + simpl. lia.
Qed.

Lemma snapshot_fold_size l ns : forall d,
  inner_size (inner_of (fold_left record_annotation l d) ns)
  = inner_size (inner_of d ns) + length (flat_map (pairs_of_annotation ns) l).
Proof.
  induction l as [|a l IH]; intros d; simpl; [lia|].
  rewrite IH, record_annotation_size, length_app. lia.
Qed.

Lemma get_existing_size st ns :
  inner_size (inner_of (get_existing_map_annotations st) ns) = pairs_under st ns.
Proof.
  unfold get_existing_map_annotations. rewrite snapshot_fold_size.
  unfold pairs_under. simpl. f_equal.
Qed.

(** X10: the snapshot of [get_existing_map_annotations] groups the pairs of
    all the map annotations of the image by namespace and key: its
    namespaces, and the keys of a namespace, are pairwise distinct; a value
    is listed under a key of a namespace exactly when a map annotation with
    that namespace holds the pair; a namespace lists as many values as the
    image stores pairs under it, repetitions included; and a namespace is
    in the snapshot exactly when the image has a map annotation with it. *)
Theorem get_existing_map_annotations_snapshot st :
  let existing := get_existing_map_annotations st in
  NoDup (map fst existing)
  /\ (forall ns inner, In (ns, inner) existing -> NoDup (map fst inner))
  /\ (forall ns k v, In v (values_of (inner_of existing ns) k) <-> stored st ns k v)
  /\ (forall ns, inner_size (inner_of existing ns) = pairs_under st ns)
  /\ (forall ns,
        dict_mem existing ns = true
        <-> exists kvs, In (MapAnnotation ns kvs) (image_annotations st)).
Proof.
  cbv zeta. pose proof (get_existing_wf st) as [Hnd Hall].
  split; [exact Hnd|]. split.
  - intros ns inner Hin. rewrite Forall_forall in Hall. apply (Hall _ Hin).
  - split; [intros; apply get_existing_values|].
    split; [apply get_existing_size|apply get_existing_keys].
Qed.

Lemma linked_of_tags l :
  flat_map (fun a => match a with
                     | TagAnnotation _ value => [value]
                     | MapAnnotation _ _ => []
                     end) l
  = flat_map (fun a => match a with
                       | TagAnnotation _ value => [value]
                       | MapAnnotation _ _ => []
                       end) (filter is_tag l).
Proof.
  induction l as [|[id value|ns kvs] l IH]; simpl; congruence.
Qed.

Lemma same_tags_same_linked s s' :
  tags_of s' = tags_of s ->
  get_linked_tag_annotations s' = get_linked_tag_annotations s.
Proof.
  unfold get_linked_tag_annotations, tags_of. intros H.
  rewrite (linked_of_tags (image_annotations s')), H, <- linked_of_tags.
  reflexivity.
Qed.

(** X11: [remove_map_annotations] leaves the tags of the image and the
    pairs of the other namespaces alone, whatever the outcome of the
    delete; when the delete succeeds the namespace is gone from the
    snapshot of the image, and when it fails the annotations of the image
    are what they were. *)
Theorem remove_map_annotations_effect delete_outcome namespace st :
  let run := remove_map_annotations delete_outcome namespace st in
  get_linked_tag_annotations (snd run) = get_linked_tag_annotations st
  /\ (forall ns k v, ns <> namespace -> (stored (snd run) ns k v <-> stored st ns k v))
  /\ (delete_outcome (submitted st) = None ->
      fst run = Ok tt
      /\ dict_mem (get_existing_map_annotations (snd run)) namespace = false)
  /\ (delete_outcome (submitted st) <> None ->
      image_annotations (snd run) = image_annotations st).
Proof.
  cbv zeta. split; [|split; [|split]].
  - apply same_tags_same_linked. apply remove_map_annotations_frame.
  - intros ns k v Hne. unfold remove_map_annotations, stored.
    destruct (delete_outcome (submitted st)) as [[[text|]]|]; simpl; try tauto.
    rewrite stored_in_without. tauto.
  - intros Hok. rewrite (remove_map_annotations_success _ _ _ Hok). simpl.
    split; [reflexivity|].
    destruct (dict_mem _ namespace) eqn:E; [|reflexivity].
    apply get_existing_keys in E. destruct E as [kvs Hin]. simpl in Hin.
    apply filter_In in Hin. destruct Hin as [_ Hf]. simpl in Hf.
    rewrite String.eqb_refl in Hf. discriminate.
  - intros Hfail. unfold remove_map_annotations.
    destruct (delete_outcome (submitted st)) as [[[text|]]|]; simpl;
      [reflexivity|reflexivity|congruence].
Qed.

Lemma remove_map_annotations_effect_witness :
  fst (remove_map_annotations every_delete_succeeds "Organism" organism_image)
  = Ok tt
  /\ dict_mem
       (get_existing_map_annotations
          (snd (remove_map_annotations every_delete_succeeds "Organism"
                  organism_image))) "Organism" = false.
Proof.
  apply (proj1 (proj2 (proj2 (remove_map_annotations_effect
                                every_delete_succeeds "Organism" organism_image)))).
  reflexivity.
Defined.

(** * Further properties of the engine: the tags *)

Lemma unlink_events_server_tags l : forall st,
  server_tags
    (fold_left
       (fun st a => match a with
                    | TagAnnotation _ value => with_event st (Unlinked_tag value)
                    | MapAnnotation _ _ => st
                    end) l st)
  = server_tags st.
Proof.
  induction l as [|[id value|ns kvs] l IH]; intros st; simpl;
    [reflexivity|rewrite IH; reflexivity|apply IH].
Qed.

Lemma no_tags_linked l :
  flat_map (fun a => match a with
                     | TagAnnotation _ value => [value]
                     | MapAnnotation _ _ => []
                     end) (filter (fun a => negb (is_tag a)) l)
  = [].
Proof.
  induction l as [|[id value|ns kvs] l IH]; simpl; auto.
Qed.

Lemma remove_tag_annotations_linked st :
  get_linked_tag_annotations (snd (remove_tag_annotations st)) = []
  /\ server_tags (snd (remove_tag_annotations st)) = server_tags st.
Proof.
  unfold remove_tag_annotations, get_linked_tag_annotations. simpl.
  rewrite unlink_events_annotations, unlink_events_server_tags. simpl.
  split; [apply no_tags_linked|reflexivity].
Qed.

Lemma overwrite_link_tags_linked new_tags : forall tag_dict counter st,
  get_linked_tag_annotations (snd (overwrite_link_tags new_tags tag_dict counter st))
  = get_linked_tag_annotations st ++ new_tags.
Proof.
  induction new_tags as [|tag_value new_tags IH]; intros tag_dict counter st.
  - simpl. rewrite app_nil_r. reflexivity.
  - cbn [overwrite_link_tags].
    destruct (dict_get tag_dict tag_value) as [tag_id|].
    + unfold bind. cbn [link_tag]. rewrite IH.
      unfold get_linked_tag_annotations. simpl.
      rewrite flat_map_app, <- app_assoc. reflexivity.
    + unfold bind. cbn [save_tag link_tag]. rewrite IH.
      unfold get_linked_tag_annotations. simpl.
      rewrite flat_map_app, <- app_assoc. reflexivity.
Qed.

Lemma overwrite_tags_linked new_tags st :
  get_linked_tag_annotations (snd (overwrite_tags new_tags st)) = new_tags.
Proof.
  unfold overwrite_tags, bind.
  destruct (remove_tag_annotations st) as [[n|e] st1] eqn:E1;
    [|unfold remove_tag_annotations in E1; discriminate].
  cbn [gets].
  destruct (overwrite_link_tags_spec new_tags (get_tag_dict st1) 0%Z st1)
    as (st2 & Heq & _).
  pose proof (overwrite_link_tags_linked new_tags (get_tag_dict st1) 0%Z st1) as Hl.
  rewrite Heq in Hl. cbn [snd] in Hl. rewrite Heq. cbn [ret snd]. rewrite Hl.
  pose proof (remove_tag_annotations_linked st) as [Hr _].
  rewrite E1 in Hr. cbn [snd] in Hr. rewrite Hr. reflexivity.
Qed.

Lemma dict_mem_set {V} (d : dict V) k v k' :
  dict_mem (dict_set d k v) k' = true <-> k' = k \/ dict_mem d k' = true.
Proof.
  unfold dict_mem. destruct (String.eqb_spec k' k) as [->|Hne].
  - rewrite dict_get_set_eq. tauto.
  - rewrite dict_get_set_neq by exact Hne. tauto.
Qed.

Lemma overwrite_link_tags_created new_tags : forall tag_dict counter st,
  tag_dict_covers tag_dict st ->
  exists created,
    server_tags (snd (overwrite_link_tags new_tags tag_dict counter st))
    = server_tags st ++ created
    /\ NoDup (map snd created)
    /\ forall t,
        In t (map snd created) ->
        In t new_tags /\ ~ In t (map snd (server_tags st)).
Proof.
  induction new_tags as [|tag_value new_tags IH]; intros tag_dict counter st Hcov.
  - simpl. exists []. rewrite app_nil_r.
    split; [reflexivity|]. split; [constructor|]. intros t [].
  - cbn [overwrite_link_tags].
    destruct (dict_get tag_dict tag_value) as [tag_id|] eqn:E.
    + unfold bind. cbn [link_tag].
      match goal with
      | |- context [overwrite_link_tags _ _ ?c ?s] =>
          destruct (IH tag_dict c s Hcov) as (created & Hc & Hnd & Hin)
      end.
      exists created. split; [exact Hc|]. split; [exact Hnd|].
      intros t Ht. destruct (Hin t Ht) as [H1 H2]. split; [right; exact H1|exact H2].
    + unfold bind. cbn [save_tag link_tag].
      assert (Hnew : ~ In tag_value (map snd (server_tags st))).
      { intros Hin. apply Hcov in Hin. unfold dict_mem in Hin.
        rewrite E in Hin. discriminate. }
      match goal with
      | |- context [overwrite_link_tags _ ?d ?c ?s] =>
          destruct (IH d c s) as (created & Hc & Hnd & Hin)
      end.
      * intros name. rewrite dict_mem_set. simpl.
        rewrite map_app. simpl. rewrite in_app_single, (Hcov name). tauto.
      * simpl in Hin.
        exists ((next_id st, tag_value) :: created).
        rewrite Hc. simpl. rewrite <- app_assoc. split; [reflexivity|]. split.
        -- simpl. constructor; [|exact Hnd].
           intros Ht. destruct (Hin _ Ht) as [_ H2]. apply H2.
           rewrite map_app. apply in_or_app. right. left. reflexivity.
        -- intros t [Ht|Ht].
           ++ simpl in Ht. subst t. split; [left; reflexivity|exact Hnew].
           ++ destruct (Hin t Ht) as [H1 H2]. split; [right; exact H1|].
              intros H. apply H2. rewrite map_app. apply in_or_app. left. exact H.
Qed.

Lemma get_tag_dict_covers st : tag_dict_covers (get_tag_dict st) st.
Proof.
  intros name. unfold dict_mem, get_tag_dict. rewrite tag_dict_fold. simpl.
  unfold first_tag_id.
  destruct (find (fun t => String.eqb (snd t) name) (server_tags st)) as [t|] eqn:E.
  - simpl. split; [intros _|reflexivity].
    apply find_some in E. destruct E as [Hin Heq].
    apply String.eqb_eq in Heq. subst name. apply in_map. exact Hin.
  - simpl. split; [discriminate|]. intros Hin.
    apply in_map_iff in Hin. destruct Hin as [t [Ht Hin]].
    apply (find_none _ _ E) in Hin. subst name.
    rewrite String.eqb_refl in Hin. discriminate.
Qed.

Lemma overwrite_tags_created new_tags st :
  exists created,
    server_tags (snd (overwrite_tags new_tags st)) = server_tags st ++ created
    /\ NoDup (map snd created)
    /\ forall t,
        In t (map snd created) ->
        In t new_tags /\ ~ In t (map snd (server_tags st)).
Proof.
  unfold overwrite_tags, bind.
  destruct (remove_tag_annotations st) as [[n|e] st1] eqn:E1;
    [|unfold remove_tag_annotations in E1; discriminate].
  cbn [gets].
  pose proof (remove_tag_annotations_linked st) as [_ Hs].
  rewrite E1 in Hs. cbn [snd] in Hs.
  destruct (overwrite_link_tags_spec new_tags (get_tag_dict st1) 0%Z st1)
    as (st2 & Heq & _).
  pose proof (overwrite_link_tags_created new_tags (get_tag_dict st1) 0%Z st1
                (get_tag_dict_covers st1)) as Hserver.
  rewrite Heq in Hserver. cbn [snd] in Hserver. rewrite Heq. cbn [ret snd].
  rewrite Hs in Hserver. exact Hserver.
Qed.

Section EngineFrames.

Variable DEFAULT_NAMESPACE : string.
Variable directory : list string.
Variable delete_outcome : nat -> option delete_failure.

Lemma same_server_trans s1 s2 s3 :
  same_server s1 s2 -> same_server s2 s3 -> same_server s1 s3.
Proof. unfold same_server. congruence. Qed.

Lemma remove_map_annotations_server namespace st :
  same_server st (snd (remove_map_annotations delete_outcome namespace st)).
Proof.
  unfold remove_map_annotations, same_server.
  destruct (delete_outcome (submitted st)) as [[[text|]]|]; reflexivity.
Qed.

Lemma overwrite_list_server l counter st :
  same_server st
    (snd (overwrite_list DEFAULT_NAMESPACE directory delete_outcome l counter st)).
Proof.
  unfold overwrite_list.
  apply bind_rel; [exact same_server_trans|rewrite assert_same; reflexivity|].
  intros _. rewrite assert_same.
  apply bind_rel; [exact same_server_trans|reflexivity|].
  intros existing. cbn [gets snd].
  apply bind_rel; [exact same_server_trans|apply remove_map_annotations_server|].
  intros _.
  apply bind_rel; [exact same_server_trans|reflexivity|].
  intros _. reflexivity.
Qed.

Lemma overwrite_remove_absent_server existing mapr new : forall deleted st,
  same_server st
    (snd (overwrite_remove_absent delete_outcome existing mapr new deleted st)).
Proof.
  induction existing as [|[namespace kvs] existing IH]; intros deleted st;
    cbn [overwrite_remove_absent].
  - reflexivity.
  - destruct (list_mem namespace mapr && negb (dict_mem new namespace)).
    + apply bind_rel; [exact same_server_trans|apply remove_map_annotations_server|].
      intros _. apply IH.
    + apply IH.
Qed.

Lemma overwrite_write_server items existing new : forall added deleted st,
  same_server st
    (snd (overwrite_write delete_outcome items existing new added deleted st)).
Proof.
  induction items as [|[namespace kvs] items IH]; intros added deleted st;
    cbn [overwrite_write].
  - reflexivity.
  - apply bind_rel; [exact same_server_trans|apply remove_map_annotations_server|].
    intros _. apply bind_rel; [exact same_server_trans|reflexivity|].
    intros _. apply IH.
Qed.

Lemma overwrite_dict_server d st :
  same_server st (snd (overwrite_dict directory delete_outcome d st)).
Proof.
  unfold overwrite_dict.
  apply bind_rel; [exact same_server_trans|rewrite assert_same; reflexivity|].
  intros _. rewrite assert_same.
  apply bind_rel; [exact same_server_trans|reflexivity|].
  intros existing. cbn [gets snd].
  apply bind_rel; [exact same_server_trans| |].
  - destruct (0 <? length existing);
      [apply overwrite_remove_absent_server|reflexivity].
  - intros deleted.
    apply bind_rel; [exact same_server_trans|apply overwrite_write_server|].
    intros counts. reflexivity.
Qed.

(** The key/value part of Overwrite, whatever the deletes do. *)
Lemma overwrite_pairs_frames (l : kv_list) (d : kv_dict) (counter_tag_ann : Z) st :
  let st' :=
    snd ((counter_map_ann <-
            (if 0 <? length l
             then overwrite_list DEFAULT_NAMESPACE directory delete_outcome l 0
             else ret 0%Z) ;;
          counter_map_ann <-
            (if 0 <? length d
             then overwrite_dict directory delete_outcome d
             else ret counter_map_ann) ;;
          ret (counter_map_ann, counter_tag_ann)) st) in
  map_frame st st' /\ same_server st st'.
Proof.
  cbv zeta.
  apply (bind_rel (fun s s' => map_frame s s' /\ same_server s s')).
  - intros s1 s2 s3 [F1 K1] [F2 K2].
    split; [eapply map_frame_trans; eauto|eapply same_server_trans; eauto].
  - destruct (0 <? length l).
    + split; [apply overwrite_list_frame|apply overwrite_list_server].
    + split; [apply map_frame_refl|reflexivity].
  - intros counter_map_ann.
    apply (bind_rel (fun s s' => map_frame s s' /\ same_server s s')).
    + intros s1 s2 s3 [F1 K1] [F2 K2].
      split; [eapply map_frame_trans; eauto|eapply same_server_trans; eauto].
    + destruct (0 <? length d).
      * split; [apply overwrite_dict_frame|apply overwrite_dict_server].
      * split; [apply map_frame_refl|reflexivity].
    + intros c. split; [apply map_frame_refl|reflexivity].
Qed.

End EngineFrames.

(** X12: Overwrite replaces the tags of the image by the new tags: when the
    normalizer returns a non-empty list of tags, the tags linked to the
    image after the run are that list, in its order, whatever was linked
    before and whatever the key/value part of the run does; when the list
    is empty, the tags linked before stay. *)
Theorem overwrite_replaces_tags
  default directory delete_outcome params data new_tags l d st :
  What_to_do_with_existing_Annotations params = Overwrite ->
  split_data default directory params data = Ok (new_tags, l, d) ->
  get_linked_tag_annotations
    (snd (annotateObject default directory delete_outcome params data st))
  = if 0 <? length new_tags then new_tags else get_linked_tag_annotations st.
Proof.
  intros Hp Hs.
  rewrite (annotateObject_overwrite default directory delete_outcome
             params data new_tags l d st Hp Hs).
  destruct (overwrite_tags_phase new_tags st) as (s1 & HA & _).
  unfold bind at 1. rewrite HA.
  destruct (overwrite_pairs_frames default directory delete_outcome l d
              (if 0 <? length new_tags
               then (Z.of_nat (length new_tags) - Z.of_nat (ntags st))%Z
               else 0%Z) s1) as [[Htags _] _].
  rewrite (same_tags_same_linked _ _ Htags).
  destruct (0 <? length new_tags).
  - replace s1 with (snd (overwrite_tags new_tags st)) by (rewrite HA; reflexivity).
    apply overwrite_tags_linked.
  - inversion HA. reflexivity.
Qed.

Lemma overwrite_replaces_tags_witness :
  get_linked_tag_annotations
    (snd (annotateObject NSCLIENTMAPANNOTATION [] delete_fails_without_message
            overwrite_params bio_hierarchy mouse_image))
  = if 0 <? length ["untagged"] then ["untagged"]
    else get_linked_tag_annotations mouse_image.
Proof.
  apply (overwrite_replaces_tags NSCLIENTMAPANNOTATION [] delete_fails_without_message
           overwrite_params bio_hierarchy ["untagged"] [("species", "mouse")] []
           mouse_image).
  - reflexivity.
  - reflexivity.
Defined.

(** X13: Overwrite never saves a tag whose text the server already has, nor
    two tags with one text, whatever the store and the input: the tags of
    the server after the run are those before it followed by the tags
    created; the texts of the tags created are pairwise distinct, none of
    them is the text of a tag the server had, and each of them is one of
    the new tags of the normalizer; so if the texts of the tags of the
    server are pairwise distinct before the run they are so after it. *)
Theorem overwrite_keeps_tag_texts_distinct
  default directory delete_outcome params data st :
  What_to_do_with_existing_Annotations params = Overwrite ->
  let st' := snd (annotateObject default directory delete_outcome params data st) in
  exists created,
    server_tags st' = server_tags st ++ created
    /\ NoDup (map snd created)
    /\ (forall t, In t (map snd created) -> ~ In t (map snd (server_tags st)))
    /\ (forall new_tags l d,
          split_data default directory params data = Ok (new_tags, l, d) ->
          forall t, In t (map snd created) -> In t new_tags)
    /\ (NoDup (map snd (server_tags st)) -> NoDup (map snd (server_tags st'))).
Proof.
  intros Hp. cbv zeta.
  assert (Hgoal : forall new_tags s',
             (forall tags l d,
                 split_data default directory params data = Ok (tags, l, d) ->
                 tags = new_tags) ->
             (exists created,
                 server_tags s' = server_tags st ++ created
                 /\ NoDup (map snd created)
                 /\ forall t,
                     In t (map snd created) ->
                     In t new_tags /\ ~ In t (map snd (server_tags st))) ->
             exists created,
               server_tags s' = server_tags st ++ created
               /\ NoDup (map snd created)
               /\ (forall t, In t (map snd created) ->
                             ~ In t (map snd (server_tags st)))
               /\ (forall tags l d,
                     split_data default directory params data = Ok (tags, l, d) ->
                     forall t, In t (map snd created) -> In t tags)
               /\ (NoDup (map snd (server_tags st)) ->
                   NoDup (map snd (server_tags s')))).
  { intros new_tags s' Hsame (created & Hc & Hnd & Hin).
    exists created. split; [exact Hc|]. split; [exact Hnd|]. split; [|split].
    - intros t Ht. apply (Hin t Ht).
    - intros tags l d Hs t Ht. rewrite (Hsame tags l d Hs). apply (Hin t Ht).
    - intros Hnd0. rewrite Hc, map_app. apply NoDup_app; [exact Hnd0|exact Hnd|].
      intros t H0 Ht. apply (proj2 (Hin t Ht)). exact H0. }
  destruct (split_data default directory params data) as [[[new_tags l] d]|e] eqn:Hs.
  - apply (Hgoal new_tags); [intros tags l0 d0 H; congruence|].
    destruct (overwrite_tags_phase new_tags st) as (s1 & HA & _).
    destruct (overwrite_pairs_frames default directory delete_outcome l d
                (if 0 <? length new_tags
                 then (Z.of_nat (length new_tags) - Z.of_nat (ntags st))%Z
                 else 0%Z) s1) as [_ Hserver].
    unfold same_server in Hserver.
    assert (Hrun : server_tags
                     (snd (annotateObject default directory delete_outcome
                             params data st))
                   = server_tags s1).
    { rewrite (annotateObject_overwrite default directory delete_outcome
                 params data new_tags l d st Hp Hs).
      unfold bind at 1. rewrite HA. exact Hserver. }
    rewrite Hrun. clear Hrun Hserver.
    destruct (0 <? length new_tags).
    + replace s1 with (snd (overwrite_tags new_tags st)) by (rewrite HA; reflexivity).
      apply overwrite_tags_created.
    + inversion HA. subst s1. exists []. rewrite app_nil_r.
      split; [reflexivity|]. split; [constructor|]. intros t [].
  - apply (Hgoal []); [intros tags l d H; discriminate|].
    rewrite (annotateObject_raise default directory delete_outcome params data e st Hs).
    simpl. exists []. rewrite app_nil_r.
    split; [reflexivity|]. split; [constructor|]. intros t [].
Qed.

Lemma overwrite_keeps_tag_texts_distinct_witness :
  let st' := snd (annotateObject NSCLIENTMAPANNOTATION [] every_delete_succeeds
                    overwrite_params mouse_wildtype_tags mouse_image) in
  exists created,
    server_tags st' = server_tags mouse_image ++ created
    /\ NoDup (map snd created)
    /\ (forall t, In t (map snd created) ->
                  ~ In t (map snd (server_tags mouse_image)))
    /\ (forall new_tags l d,
          split_data NSCLIENTMAPANNOTATION [] overwrite_params mouse_wildtype_tags
          = Ok (new_tags, l, d) ->
          forall t, In t (map snd created) -> In t new_tags)
    /\ (NoDup (map snd (server_tags mouse_image)) ->
        NoDup (map snd (server_tags st'))).
Proof.
  apply (overwrite_keeps_tag_texts_distinct NSCLIENTMAPANNOTATION []
           every_delete_succeeds overwrite_params mouse_wildtype_tags mouse_image).
  reflexivity.
Defined.

(** * Further properties of the engine: the key/value pairs of Overwrite *)

Lemma fold_record_skips_tags l : forall d,
  fold_left record_annotation l d
  = fold_left record_annotation (filter (fun a => negb (is_tag a)) l) d.
Proof.
  induction l as [|[id value|ns kvs] l IH]; intros d; simpl; [reflexivity| |].
  - apply IH.
  - apply IH.
Qed.

Lemma get_existing_maps st :
  get_existing_map_annotations st = fold_left record_annotation (maps_of st) [].
Proof. apply fold_record_skips_tags. Qed.

Lemma same_maps_same_existing s s' :
  maps_of s' = maps_of s ->
  get_existing_map_annotations s' = get_existing_map_annotations s.
Proof. intros H. rewrite !get_existing_maps, H. reflexivity. Qed.

Lemma pairs_skip_tags l :
  flat_map (fun a => match a with
                     | MapAnnotation _ kvs => kvs
                     | TagAnnotation _ _ => []
                     end) l
  = flat_map (fun a => match a with
                       | MapAnnotation _ kvs => kvs
                       | TagAnnotation _ _ => []
                       end) (filter (fun a => negb (is_tag a)) l).
Proof.
  induction l as [|[id value|ns kvs] l IH]; simpl; congruence.
Qed.

Lemma same_maps_same_total s s' :
  maps_of s' = maps_of s -> total_stored s' = total_stored s.
Proof.
  unfold total_stored, maps_of. intros H.
  rewrite (pairs_skip_tags (image_annotations s')), H, <- pairs_skip_tags.
  reflexivity.
Qed.

Lemma maps_of_no_tags l :
  filter (fun a => negb (is_tag a)) (filter (fun a => negb (is_tag a)) l)
  = filter (fun a => negb (is_tag a)) l.
Proof.
  induction l as [|[id value|ns kvs] l IH]; simpl; congruence.
Qed.

Lemma overwrite_link_tags_maps new_tags : forall tag_dict counter st,
  maps_of (snd (overwrite_link_tags new_tags tag_dict counter st)) = maps_of st.
Proof.
  induction new_tags as [|tag_value new_tags IH]; intros tag_dict counter st.
  - reflexivity.
  - cbn [overwrite_link_tags].
    destruct (dict_get tag_dict tag_value) as [tag_id|].
    + unfold bind. cbn [link_tag]. rewrite IH.
      unfold maps_of. simpl. rewrite filter_app. simpl. apply app_nil_r.
    + unfold bind. cbn [save_tag link_tag]. rewrite IH.
      unfold maps_of. simpl. rewrite filter_app. simpl. apply app_nil_r.
Qed.

Lemma overwrite_tags_phase_maps new_tags st :
  maps_of (snd ((if 0 <? length new_tags
                 then overwrite_tags new_tags else ret 0%Z) st))
  = maps_of st.
Proof.
  destruct (0 <? length new_tags); [|reflexivity].
  unfold overwrite_tags, bind.
  destruct (remove_tag_annotations st) as [[n|e] st1] eqn:E1;
    [|unfold remove_tag_annotations in E1; discriminate].
  cbn [gets].
  destruct (overwrite_link_tags_spec new_tags (get_tag_dict st1) 0%Z st1)
    as (st2 & Heq & _).
  pose proof (overwrite_link_tags_maps new_tags (get_tag_dict st1) 0%Z st1) as Hm.
  rewrite Heq in Hm. cbn [snd] in Hm. rewrite Heq. cbn [ret snd]. rewrite Hm.
  unfold remove_tag_annotations in E1. inversion E1. unfold maps_of.
  rewrite unlink_events_annotations. simpl. apply maps_of_no_tags.
Qed.

Lemma append_link_tags_maps new_tags existing_tags tag_dict : forall counter st,
  maps_of (snd (append_link_tags new_tags existing_tags tag_dict counter st))
  = maps_of st.
Proof.
  induction new_tags as [|tag new_tags IH]; intros counter st; simpl.
  - reflexivity.
  - destruct (list_mem tag existing_tags); [apply IH|].
    destruct (dict_get tag_dict tag) as [tag_id|].
    + unfold bind. cbn [link_tag]. rewrite IH.
      unfold maps_of. simpl. rewrite filter_app. simpl. apply app_nil_r.
    + unfold bind. cbn [save_tag link_tag]. rewrite IH.
      unfold maps_of. simpl. rewrite filter_app. simpl. apply app_nil_r.
Qed.

Lemma append_tags_phase_maps new_tags st :
  maps_of (snd ((if 0 <? length new_tags
                 then append_tags new_tags 0 else ret 0%Z) st))
  = maps_of st.
Proof.
  destruct (0 <? length new_tags); [|reflexivity].
  unfold append_tags, bind, gets. apply append_link_tags_maps.
Qed.

Section OverwritePairs.

Variable DEFAULT_NAMESPACE : string.
Variable directory : list string.
Variable delete_outcome : nat -> option delete_failure.

Lemma overwrite_remove_absent_count existing mapr new :
  every_delete_logged delete_outcome ->
  forall deleted st,
    fst (overwrite_remove_absent delete_outcome existing mapr new deleted st)
    = Ok (deleted + Z.of_nat (absent_keys existing mapr new))%Z.
Proof.
  intros Hlog. unfold absent_keys.
  induction existing as [|[namespace kvs] existing IH]; intros deleted st;
    cbn [overwrite_remove_absent].
  - simpl. rewrite Z.add_0_r. reflexivity.
  - cbn [map fst snd].
    destruct (list_mem namespace mapr && negb (dict_mem new namespace)).
    + rewrite fst_bind, (remove_map_annotations_logged _ _ _ Hlog), IH.
      unfold list_sum. cbn [fold_right]. f_equal. lia.
    + rewrite IH. reflexivity.
Qed.

Lemma overwrite_write_count items existing new :
  every_delete_logged delete_outcome ->
  forall added deleted st,
    fst (overwrite_write delete_outcome items existing new added deleted st)
    = Ok ((added + Z.of_nat (length items * length new))%Z,
          (deleted + Z.of_nat (superseded_keys existing items))%Z).
Proof.
  intros Hlog. unfold superseded_keys.
  induction items as [|[namespace kvs] items IH]; intros added deleted st;
    cbn [overwrite_write].
  - simpl. rewrite !Z.add_0_r. reflexivity.
  - rewrite fst_bind, (remove_map_annotations_logged _ _ _ Hlog).
    rewrite fst_bind. cbn [link_map fst snd]. rewrite IH.
    cbn [map fst snd length]. unfold list_sum. cbn [fold_right].
    destruct (dict_get existing namespace); f_equal; f_equal; lia.
Qed.

Lemma overwrite_write_snd items existing new : forall added deleted st,
  snd (overwrite_write delete_outcome items existing new added deleted st)
  = snd (append_rewrite delete_outcome items st).
Proof.
  induction items as [|[namespace kvs] items IH]; intros added deleted st.
  - reflexivity.
  - cbn [overwrite_write append_rewrite]. unfold bind at 1 3.
    destruct (remove_map_annotations delete_outcome namespace st) as [[[]|e] st1];
      [|reflexivity].
    unfold bind at 1 2. cbn [link_map]. apply IH.
Qed.

Lemma overwrite_remove_absent_stored existing mapr new :
  (forall n, delete_outcome n = None) ->
  forall deleted st ns k v,
    stored (snd (overwrite_remove_absent delete_outcome existing mapr new deleted st))
      ns k v
    <-> stored st ns k v
        /\ ~ (In ns (map fst existing)
              /\ list_mem ns mapr && negb (dict_mem new ns) = true).
Proof.
  intros Hok.
  induction existing as [|[namespace kvs] existing IH]; intros deleted st ns k v;
    cbn [overwrite_remove_absent].
  - simpl. tauto.
  - cbn [map fst In].
    destruct (list_mem namespace mapr && negb (dict_mem new namespace)) eqn:Ec.
    + unfold bind. rewrite (remove_map_annotations_success _ _ _ (Hok _)).
      rewrite IH. unfold stored at 1. cbn [image_annotations with_annotations].
      rewrite stored_in_without. fold (stored st ns k v).
      destruct (String.eqb_spec ns namespace) as [->|Hne].
      * split; [tauto|]. intros [_ Hn]. exfalso. apply Hn. auto.
      * split.
        -- intros [[_ Hst] Hn]. split; [exact Hst|].
           intros [[Heq|Hin] Hc]; [congruence|]. apply Hn. auto.
        -- intros [Hst Hn]. split; [auto|]. intros [Hin Hc]. apply Hn. auto.
    + rewrite IH. split.
      * intros [Hst Hn]. split; [exact Hst|].
        intros [[Heq|Hin] Hc]; [subst; congruence|]. apply Hn. auto.
      * intros [Hst Hn]. split; [exact Hst|]. intros [Hin Hc]. apply Hn. auto.
Qed.

(** The count of [overwrite_dict] when every failed delete is logged. *)
Lemma overwrite_dict_count d st :
  every_delete_logged delete_outcome ->
  directory <> [] ->
  fst (overwrite_dict directory delete_outcome d st)
  = Ok (Z.of_nat (length d * length d)
        - Z.of_nat (absent_keys (get_existing_map_annotations st) directory d
                    + superseded_keys (get_existing_map_annotations st) d))%Z.
Proof.
  intros Hlog Hdir. unfold overwrite_dict.
  destruct (nonempty_length directory Hdir) as [_ ->]. cbn [assert].
  rewrite fst_bind. cbn [ret fst snd]. rewrite fst_bind. cbn [gets fst snd].
  rewrite fst_bind.
  assert (Hdel : fst ((if 0 <? length (get_existing_map_annotations st)
                       then overwrite_remove_absent delete_outcome
                              (get_existing_map_annotations st) directory d 0
                       else ret 0%Z) st)
                 = Ok (Z.of_nat (absent_keys (get_existing_map_annotations st)
                                   directory d))).
  { destruct (get_existing_map_annotations st) as [|x existing] eqn:E.
    - reflexivity.
    - cbn [length Nat.ltb Nat.leb].
      rewrite (overwrite_remove_absent_count _ _ _ Hlog). f_equal. }
  rewrite Hdel. rewrite fst_bind.
  rewrite (overwrite_write_count _ _ _ Hlog). cbn [ret fst snd].
  f_equal. lia.
Qed.

(** The pairs stored after [overwrite_dict] when every delete succeeds. *)
Lemma overwrite_dict_stored d st :
  (forall n, delete_outcome n = None) ->
  directory <> [] ->
  NoDup (map fst d) ->
  forall ns k v,
    stored (snd (overwrite_dict directory delete_outcome d st)) ns k v
    <-> match dict_get d ns with
        | Some kvs => In (k, v) (items_to_pairs kvs)
        | None => stored st ns k v /\ list_mem ns directory = false
        end.
Proof.
  intros Hok Hdir Hnd ns k v.
  assert (Hlog : every_delete_logged delete_outcome).
  { intros n ex H. rewrite Hok in H. discriminate. }
  unfold overwrite_dict.
  destruct (nonempty_length directory Hdir) as [_ ->]. cbn [assert].
  unfold bind at 1. cbn [ret]. unfold bind at 1. cbn [gets].
  set (existing := get_existing_map_annotations st).
  set (phase := if 0 <? length existing
                then overwrite_remove_absent delete_outcome existing directory d 0
                else ret 0%Z).
  assert (Hfst : exists deleted, fst (phase st) = Ok deleted).
  { unfold phase. destruct (0 <? length existing).
    - rewrite (overwrite_remove_absent_count _ _ _ Hlog). eexists. reflexivity.
    - eexists. reflexivity. }
  assert (Hsnd : forall ns k v,
             stored (snd (phase st)) ns k v
             <-> stored st ns k v
                 /\ ~ (In ns (map fst existing)
                       /\ list_mem ns directory && negb (dict_mem d ns) = true)).
  { intros ns' k' v'. unfold phase. destruct existing as [|x ex] eqn:E.
    - simpl. tauto.
    - cbn [length Nat.ltb Nat.leb]. apply overwrite_remove_absent_stored. exact Hok. }
  destruct Hfst as [deleted Hfst]. unfold bind at 1.
  destruct (phase st) as [r s2] eqn:Ephase. cbn [fst snd] in Hfst, Hsnd. subst r.
  pose proof (overwrite_write_count d existing d Hlog 0%Z deleted s2) as Hw.
  pose proof (overwrite_write_snd d existing d 0%Z deleted s2) as Hs.
  unfold bind.
  destruct (overwrite_write delete_outcome d existing d 0 deleted s2) as [r s3].
  cbn [fst snd] in Hw, Hs. subst r s3. cbn [ret snd].
  destruct (append_rewrite_success delete_outcome d Hok s2 Hnd) as [_ Hrw].
  rewrite Hrw.
  destruct (dict_get d ns) as [kvs|] eqn:Eget; [tauto|].
  rewrite Hsnd. unfold dict_mem. rewrite Eget. cbn [negb]. rewrite andb_true_r.
  split.
  - intros [Hst Hn]. split; [exact Hst|].
    destruct (list_mem ns directory) eqn:El; [|reflexivity].
    exfalso. apply Hn. split; [|reflexivity].
    apply dict_mem_true. apply get_existing_keys.
    destruct Hst as [kvs [Hin _]]. exists kvs. exact Hin.
  - intros [Hst Hl]. split; [exact Hst|]. intros [_ Hc]. congruence.
Qed.

End OverwritePairs.

(** Overwrite with a directory and namespaced data: the run is the tags,
    then [overwrite_dict]. *)
Lemma annotateObject_overwrite_mapr
  default directory delete_outcome params data new_tags l d st :
  What_to_do_with_existing_Annotations params = Overwrite ->
  directory <> [] ->
  split_data default directory params data = Ok (new_tags, l, d) ->
  d <> [] ->
  exists counter_tag_ann s1,
    maps_of s1 = maps_of st
    /\ annotateObject default directory delete_outcome params data st
       = (let (r, s2) := overwrite_dict directory delete_outcome d s1 in
          match r with
          | Ok c => (Ok (c, counter_tag_ann), s2)
          | Raise e => (Raise e, s2)
          end).
Proof.
  intros Hp Hdir Hs Hd.
  assert (Hl : l = []).
  { unfold split_data in Hs. eapply split_loop_mapr_mode; eauto. }
  subst l.
  rewrite (annotateObject_overwrite default directory delete_outcome
             params data new_tags [] d st Hp Hs).
  destruct (overwrite_tags_phase new_tags st) as (s1 & HA & _).
  pose proof (overwrite_tags_phase_maps new_tags st) as Hm.
  rewrite HA in Hm. cbn [snd] in Hm.
  eexists. exists s1. split; [exact Hm|].
  unfold bind at 1. rewrite HA.
  destruct d as [|x d']; [congruence|]. cbn [length Nat.ltb Nat.leb].
  unfold bind at 1. cbn [ret]. unfold bind.
  destruct (overwrite_dict directory delete_outcome (x :: d') s1) as [[c|e] s2];
    reflexivity.
Qed.

Lemma same_maps_same_stored s s' ns k v :
  maps_of s' = maps_of s -> (stored s' ns k v <-> stored s ns k v).
Proof.
  unfold stored, maps_of. intros H.
  rewrite <- (stored_in_no_tags (image_annotations s')), H.
  apply stored_in_no_tags.
Qed.

(** X14: Overwrite with a directory, when the deletes succeed: the run
    returns, and afterwards a namespace of the new data holds exactly the
    new pairs (what it held before is superseded, not merged), a namespace
    of the directory that the new data does not name holds nothing, and any
    other namespace holds what it held. *)
Theorem overwrite_dict_final_state
  default directory delete_outcome params data new_tags l d st :
  What_to_do_with_existing_Annotations params = Overwrite ->
  directory <> [] ->
  (forall n, delete_outcome n = None) ->
  split_data default directory params data = Ok (new_tags, l, d) ->
  d <> [] ->
  exists counts st',
    annotateObject default directory delete_outcome params data st
    = (Ok counts, st')
    /\ forall ns k v,
        stored st' ns k v
        <-> match dict_get d ns with
            | Some kvs => In (k, v) (items_to_pairs kvs)
            | None => stored st ns k v /\ list_mem ns directory = false
            end.
Proof.
  intros Hp Hdir Hok Hs Hd.
  destruct (annotateObject_overwrite_mapr default directory delete_outcome
              params data new_tags l d st Hp Hdir Hs Hd)
    as (ct & s1 & Hm & Hrun).
  assert (Hlog : every_delete_logged delete_outcome).
  { intros n ex H. rewrite Hok in H. discriminate. }
  pose proof (overwrite_dict_count directory delete_outcome d s1 Hlog Hdir) as Hc.
  pose proof (split_data_tidy default directory params data new_tags l d Hs)
    as [Hnd _].
  pose proof (overwrite_dict_stored directory delete_outcome d s1 Hok Hdir Hnd)
    as Hst.
  rewrite Hrun.
  destruct (overwrite_dict directory delete_outcome d s1) as [r s2].
  cbn [fst snd] in Hc, Hst. subst r.
  eexists. exists s2. split; [reflexivity|].
  intros ns k v. rewrite Hst.
  destruct (dict_get d ns); [tauto|].
  rewrite (same_maps_same_stored st s1 ns k v Hm). tauto.
Qed.

Lemma overwrite_dict_final_state_witness :
  exists counts st',
    annotateObject NSCLIENTMAPANNOTATION ["Biosample info"; "Organism"]
      every_delete_succeeds overwrite_params two_species organism_image
    = (Ok counts, st')
    /\ forall ns k v,
        stored st' ns k v
        <-> match dict_get [("Biosample info", [("species", ["mouse"; "rat"])])] ns
            with
            | Some kvs => In (k, v) (items_to_pairs kvs)
            | None => stored organism_image ns k v
                      /\ list_mem ns ["Biosample info"; "Organism"] = false
            end.
Proof.
  apply (overwrite_dict_final_state NSCLIENTMAPANNOTATION
           ["Biosample info"; "Organism"] every_delete_succeeds overwrite_params
           two_species [] []
           [("Biosample info", [("species", ["mouse"; "rat"])])] organism_image).
  - reflexivity.
  - discriminate.
  - intros n. reflexivity.
  - reflexivity.
  - discriminate.
Defined.

(** X15: the net key/value count that Overwrite returns with a directory,
    a failed delete being logged: the square of the number of namespaces of
    the new data, minus the number of keys (not of pairs) that the snapshot
    of the image holds under the directory namespaces absent from the new
    data and under the namespaces of the new data. *)
Theorem overwrite_dict_count_formula
  default directory delete_outcome params data new_tags l d st :
  What_to_do_with_existing_Annotations params = Overwrite ->
  directory <> [] ->
  every_delete_logged delete_outcome ->
  split_data default directory params data = Ok (new_tags, l, d) ->
  d <> [] ->
  exists counter_tag_ann,
    fst (annotateObject default directory delete_outcome params data st)
    = Ok ((Z.of_nat (length d * length d)
           - Z.of_nat
               (absent_keys (get_existing_map_annotations st) directory d
                + superseded_keys (get_existing_map_annotations st) d))%Z,
          counter_tag_ann).
Proof.
  intros Hp Hdir Hlog Hs Hd.
  destruct (annotateObject_overwrite_mapr default directory delete_outcome
              params data new_tags l d st Hp Hdir Hs Hd)
    as (ct & s1 & Hm & Hrun).
  pose proof (overwrite_dict_count directory delete_outcome d s1 Hlog Hdir) as Hc.
  rewrite (same_maps_same_existing st s1 Hm) in Hc.
  rewrite Hrun.
  destruct (overwrite_dict directory delete_outcome d s1) as [r s2].
  cbn [fst] in Hc. subst r. exists ct. reflexivity.
Qed.

Lemma overwrite_dict_count_formula_witness :
  exists counter_tag_ann,
    fst (annotateObject NSCLIENTMAPANNOTATION ["Biosample info"; "Organism"]
           delete_fails_with_message overwrite_params two_species organism_image)
    = Ok ((Z.of_nat (1 * 1)
           - Z.of_nat
               (absent_keys (get_existing_map_annotations organism_image)
                  ["Biosample info"; "Organism"]
                  [("Biosample info", [("species", ["mouse"; "rat"])])]
                + superseded_keys (get_existing_map_annotations organism_image)
                    [("Biosample info", [("species", ["mouse"; "rat"])])]))%Z,
          counter_tag_ann).
Proof.
  apply (overwrite_dict_count_formula NSCLIENTMAPANNOTATION
           ["Biosample info"; "Organism"] delete_fails_with_message
           overwrite_params two_species [] []
           [("Biosample info", [("species", ["mouse"; "rat"])])] organism_image).
  - reflexivity.
  - discriminate.
  - intros n ex H. inversion H. simpl. discriminate.
  - reflexivity.
  - discriminate.
Defined.

(** * Further properties of the engine: the key/value pairs of Append *)

Lemma append_values_spec values : forall present counter,
  append_values values (present, counter)
  = (add_values values present,
     (counter + Z.of_nat (length (add_values values present))
      - Z.of_nat (length present))%Z).
Proof.
  induction values as [|value values IH]; intros present counter.
  - unfold append_values, add_values. simpl. f_equal. lia.
  - rewrite append_values_cons.
    change (add_values (value :: values) present)
      with (add_values values
              (if list_mem value present then present else present ++ [value])).
    destruct (list_mem value present).
    + apply IH.
    + rewrite IH. f_equal. rewrite length_app. simpl. lia.
Qed.

Lemma append_key_values_spec kvs : forall inner counter,
  append_key_values kvs (inner, counter)
  = (add_key_values kvs inner,
     (counter + Z.of_nat (inner_size (add_key_values kvs inner))
      - Z.of_nat (inner_size inner))%Z).
Proof.
  induction kvs as [|[key values] kvs IH]; intros inner counter.
  - unfold append_key_values, add_key_values. simpl. f_equal. lia.
  - rewrite append_key_values_cons. cbv zeta.
    rewrite append_values_spec. cbn [fst snd]. rewrite IH.
    rewrite add_key_values_cons. f_equal.
    pose proof (inner_size_set inner key (add_values values (values_of inner key))).
    lia.
Qed.

Lemma merge_dicts_cons namespace kvs new e :
  merge_dicts ((namespace, kvs) :: new) e
  = merge_dicts new
      (dict_set e namespace (add_key_values kvs (inner_of e namespace))).
Proof. unfold merge_dicts. simpl. rewrite dict_pairs_eq. reflexivity. Qed.

Lemma append_merge_spec new : forall e counter,
  append_merge new (e, counter)
  = (merge_dicts new e,
     (counter + Z.of_nat (dict_size (merge_dicts new e))
      - Z.of_nat (dict_size e))%Z).
Proof.
  induction new as [|[namespace kvs] new IH]; intros e counter.
  - unfold append_merge, merge_dicts. simpl. f_equal. lia.
  - rewrite append_merge_cons. cbv zeta.
    rewrite append_key_values_spec. cbn [fst snd]. rewrite IH.
    rewrite merge_dicts_cons. f_equal.
    pose proof (dict_size_set e namespace
                  (add_key_values kvs (inner_of e namespace))).
    lia.
Qed.

Lemma merge_dicts_values new : forall e ns k v,
  In v (values_of (inner_of (merge_dicts new e) ns) k)
  <-> In v (values_of (inner_of e ns) k)
      \/ exists kvs values,
           In (ns, kvs) new /\ In (k, values) kvs /\ In v values.
Proof.
  induction new as [|[namespace kvs] new IH]; intros e ns k v.
  - simpl. split; [auto|]. intros [H|(kvs & values & [] & _)]. exact H.
  - unfold merge_dicts. cbn [fold_left fst snd]. fold (merge_dicts new).
    rewrite IH, dict_pairs_values. split.
    + intros [[H|[Hns [values [Hkv Hv]]]]|(kvs0 & values & Hin & Hrest)].
      * auto.
      * right. exists kvs, values. subst ns. split; [left; reflexivity|auto].
      * right. exists kvs0, values. split; [right; exact Hin|exact Hrest].
    + intros [H|(kvs0 & values & [Heq|Hin] & Hkv & Hv)].
      * auto.
      * inversion Heq. subst. left. right. split; [reflexivity|].
        exists values. auto.
      * right. exists kvs0, values. auto.
Qed.

Lemma merge_dicts_keys new : forall e ns,
  In ns (map fst (merge_dicts new e))
  <-> In ns (map fst e) \/ In ns (map fst new).
Proof.
  induction new as [|[namespace kvs] new IH]; intros e ns.
  - simpl. tauto.
  - unfold merge_dicts. cbn [fold_left fst snd]. fold (merge_dicts new).
    rewrite IH, dict_pairs_keys. simpl. intuition congruence.
Qed.

Lemma merge_dicts_wf new e : wf_kv_dict e -> wf_kv_dict (merge_dicts new e).
Proof.
  intros H. pose proof (append_merge_wf new e 0%Z H) as Hwf.
  rewrite append_merge_spec in Hwf. exact Hwf.
Qed.

(** What a well-formed dict lists under a key is what its entries hold. *)
Lemma lookup_entries d ns k v :
  wf_kv_dict d ->
  (In v (values_of (inner_of d ns) k)
   <-> exists kvs values,
         In (ns, kvs) d /\ In (k, values) kvs /\ In v values).
Proof.
  intros [Hnd Hall]. split.
  - unfold values_of, inner_of.
    destruct (dict_get d ns) as [inner|] eqn:E1; [|intros []].
    destruct (dict_get inner k) as [values|] eqn:E2; [|intros []].
    intros Hv. exists inner, values.
    split; [apply dict_get_In; exact E1|].
    split; [apply dict_get_In; exact E2|exact Hv].
  - intros (kvs & values & Hin & Hkv & Hv).
    unfold values_of, inner_of.
    rewrite (In_dict_get _ _ _ Hnd Hin).
    rewrite Forall_forall in Hall.
    pose proof (Hall _ Hin) as Hinner. cbn [snd] in Hinner.
    rewrite (In_dict_get _ _ _ Hinner Hkv). exact Hv.
Qed.

Lemma record_annotation_total d a :
  dict_size (record_annotation d a)
  = dict_size d + length (match a with
                          | MapAnnotation _ kvs => kvs
                          | TagAnnotation _ _ => []
                          end).
Proof.
  destruct a as [id value|ns kvs].
  - unfold record_annotation. simpl. lia.
  - rewrite record_annotation_eq.
    pose proof (dict_size_set d ns (fold_left append_pair kvs (inner_of d ns))).
    rewrite fold_append_pair_size in H. lia.
Qed.

Lemma snapshot_fold_total l : forall d,
  dict_size (fold_left record_annotation l d)
  = dict_size d
    + length (flat_map (fun a => match a with
                                 | MapAnnotation _ kvs => kvs
                                 | TagAnnotation _ _ => []
                                 end) l).
Proof.
  induction l as [|a l IH]; intros d; simpl; [lia|].
  rewrite IH, record_annotation_total, length_app. lia.
Qed.

Lemma get_existing_total st :
  dict_size (get_existing_map_annotations st) = total_stored st.
Proof.
  unfold get_existing_map_annotations, total_stored.
  rewrite snapshot_fold_total. reflexivity.
Qed.

Lemma filter_map_in keys namespace l :
  filter (fun a => negb (is_map_in keys a))
    (filter (fun a => negb (is_map_with namespace a)) l)
  = filter (fun a => negb (is_map_in (namespace :: keys) a)) l.
Proof.
  induction l as [|[id value|ns kvs] l IH]; simpl; [reflexivity| |].
  - rewrite IH. reflexivity.
  - destruct (String.eqb ns namespace); simpl; [exact IH|].
    destruct (list_mem ns keys); simpl; [exact IH|]. rewrite IH. reflexivity.
Qed.

Lemma filter_map_in_nil l :
  filter (fun a => negb (is_map_in [] a)) l = l.
Proof.
  induction l as [|[id value|ns kvs] l IH]; simpl; congruence.
Qed.

Lemma no_pairs_left keys l :
  (forall ns kvs, In (MapAnnotation ns kvs) l -> In ns keys) ->
  flat_map (fun a => match a with
                     | MapAnnotation _ kvs => kvs
                     | TagAnnotation _ _ => []
                     end)
    (filter (fun a => negb (is_map_in keys a)) l)
  = [].
Proof.
  induction l as [|[id value|ns kvs] l IH]; intros H; simpl.
  - reflexivity.
  - apply IH. intros ns kvs Hin. apply (H ns kvs). right. exact Hin.
  - assert (Hk : list_mem ns keys = true).
    { apply list_mem_In. apply (H ns kvs). left. reflexivity. }
    rewrite Hk. simpl. apply IH.
    intros ns' kvs' Hin. apply (H ns' kvs'). right. exact Hin.
Qed.

Lemma pairs_of_written d :
  length
    (flat_map (fun a => match a with
                        | MapAnnotation _ kvs => kvs
                        | TagAnnotation _ _ => []
                        end) (map annotation_of d))
  = dict_size d.
Proof.
  unfold dict_size. induction d as [|[ns kvs] d IH]; simpl; [reflexivity|].
  rewrite !length_app, IH. reflexivity.
Qed.

Section AppendPairs.

Variable DEFAULT_NAMESPACE : string.
Variable directory : list string.
Variable delete_outcome : nat -> option delete_failure.

(** The annotations of the image after the rewrite, every delete
    succeeding. *)
Lemma append_rewrite_annotations d :
  (forall n, delete_outcome n = None) ->
  forall st,
    NoDup (map fst d) ->
    image_annotations (snd (append_rewrite delete_outcome d st))
    = filter (fun a => negb (is_map_in (map fst d) a)) (image_annotations st)
      ++ map annotation_of d.
Proof.
  intros Hok.
  induction d as [|[namespace kvs] d IH]; intros st Hnd.
  - simpl. rewrite app_nil_r. symmetry. apply filter_map_in_nil.
  - inversion Hnd as [|? ? Hnotin Hnd']. subst.
    cbn [append_rewrite]. unfold bind at 1.
    rewrite (remove_map_annotations_success _ _ _ (Hok _)).
    unfold bind at 1. cbn [link_map]. rewrite (IH _ Hnd').
    cbn [image_annotations with_event with_annotations with_submitted map fst].
    rewrite filter_app, filter_map_in. cbn [filter is_map_in negb].
    assert (Hk : list_mem namespace (map fst d) = false).
    { apply list_mem_false. exact Hnotin. }
    rewrite Hk. cbn [negb]. rewrite <- app_assoc. reflexivity.
Qed.

(** [append_dict] when every delete succeeds. *)
Lemma append_dict_success d counter st :
  (forall n, delete_outcome n = None) ->
  directory <> [] ->
  let existing := get_existing_map_annotations st in
  let merged := merge_dicts d existing in
  exists st',
    append_dict directory delete_outcome d counter st
    = (Ok (counter + Z.of_nat (dict_size merged) - Z.of_nat (dict_size existing))%Z,
       st')
    /\ image_annotations st'
       = filter (fun a => negb (is_map_in (map fst merged) a)) (image_annotations st)
         ++ map annotation_of merged
    /\ (forall ns k v,
          stored st' ns k v
          <-> match dict_get merged ns with
              | Some kvs => In (k, v) (items_to_pairs kvs)
              | None => stored st ns k v
              end).
Proof.
  intros Hok Hdir existing merged. unfold append_dict.
  destruct (nonempty_length directory Hdir) as [_ ->]. cbn [assert].
  unfold bind at 1. cbn [ret]. unfold bind at 1. cbn [gets].
  fold existing. rewrite append_merge_spec. fold merged.
  assert (Hwf : wf_kv_dict merged).
  { apply merge_dicts_wf. apply get_existing_wf. }
  destruct (append_rewrite_success delete_outcome merged Hok st (proj1 Hwf))
    as [Hfst Hsnd].
  pose proof (append_rewrite_annotations merged Hok st (proj1 Hwf)) as Hann.
  unfold bind.
  destruct (append_rewrite delete_outcome merged st) as [r st'].
  cbn [fst snd] in Hfst, Hsnd, Hann. subst r.
  exists st'. split; [reflexivity|]. split; [exact Hann|exact Hsnd].
Qed.

End AppendPairs.

(** X16: Append with a directory, when the deletes succeed: the run
    returns; afterwards a pair is stored under a namespace exactly when it
    was stored there before or the new data lists it there (nothing is
    lost, nothing else is added); and the net key/value count returned is
    the number of pairs by which the pairs stored on the image grew. *)
Theorem append_dict_final_state
  default directory delete_outcome params data new_tags l d st :
  What_to_do_with_existing_Annotations params = Append ->
  directory <> [] ->
  (forall n, delete_outcome n = None) ->
  split_data default directory params data = Ok (new_tags, l, d) ->
  d <> [] ->
  exists counter_map_ann counter_tag_ann st',
    annotateObject default directory delete_outcome params data st
    = (Ok (counter_map_ann, counter_tag_ann), st')
    /\ (forall ns k v,
          stored st' ns k v
          <-> stored st ns k v \/ In v (values_of (inner_of d ns) k))
    /\ Z.of_nat (total_stored st')
       = (Z.of_nat (total_stored st) + counter_map_ann)%Z.
Proof.
  intros Hp Hdir Hok Hs Hd.
  assert (Hl : l = []).
  { unfold split_data in Hs. eapply split_loop_mapr_mode; eauto. }
  subst l.
  pose proof (tidy_wf d (split_data_tidy default directory params data
                           new_tags [] d Hs)) as Hwfd.
  rewrite (annotateObject_append default directory delete_outcome
             params data new_tags [] d st Hp Hs).
  destruct (append_tags_phase new_tags st) as (s1 & HA & _).
  pose proof (append_tags_phase_maps new_tags st) as Hm.
  rewrite HA in Hm. cbn [snd] in Hm.
  unfold bind at 1. rewrite HA.
  destruct d as [|x d']; [congruence|]. cbn [length Nat.ltb Nat.leb].
  set (d := x :: d') in *.
  destruct (append_dict_success directory delete_outcome d 0%Z s1 Hok Hdir)
    as (st' & Heq & Hann & Hst).
  unfold bind at 1. rewrite Heq. unfold bind. cbn [ret].
  set (existing := get_existing_map_annotations s1) in *.
  set (merged := merge_dicts d existing) in *.
  assert (Hwf : wf_kv_dict merged).
  { apply merge_dicts_wf. apply get_existing_wf. }
  assert (Hlook : forall ns k v,
             In v (values_of (inner_of merged ns) k)
             <-> stored st ns k v \/ In v (values_of (inner_of d ns) k)).
  { intros ns k v. unfold merged. rewrite merge_dicts_values.
    unfold existing. rewrite get_existing_values.
    rewrite (same_maps_same_stored st s1 ns k v Hm).
    rewrite (lookup_entries d ns k v Hwfd). tauto. }
  eexists. eexists. exists st'. split; [reflexivity|]. split.
  - intros ns k v. rewrite Hst. specialize (Hlook ns k v).
    unfold inner_of in Hlook at 1.
    destruct (dict_get merged ns) as [kvs|] eqn:Eg.
    + rewrite items_to_pairs_In; [exact Hlook|].
      replace kvs with (inner_of merged ns)
        by (unfold inner_of; rewrite Eg; reflexivity).
      apply wf_inner_of. exact Hwf.
    + rewrite (same_maps_same_stored st s1 ns k v Hm).
      simpl in Hlook. tauto.
  - unfold total_stored at 1. rewrite Hann, flat_map_app, length_app.
    rewrite no_pairs_left, pairs_of_written.
    + pose proof (get_existing_total s1) as Ht. fold existing in Ht.
      rewrite <- (same_maps_same_total st s1 Hm). simpl length. lia.
    + intros ns kvs Hin. apply merge_dicts_keys. left.
      apply dict_mem_true. apply get_existing_keys. exists kvs. exact Hin.
Qed.

Lemma append_dict_final_state_witness :
  exists counter_map_ann counter_tag_ann st',
    annotateObject NSCLIENTMAPANNOTATION ["Biosample info"; "Organism"]
      every_delete_succeeds append_params two_species organism_image
    = (Ok (counter_map_ann, counter_tag_ann), st')
    /\ (forall ns k v,
          stored st' ns k v
          <-> stored organism_image ns k v
              \/ In v (values_of
                         (inner_of
                            [("Biosample info", [("species", ["mouse"; "rat"])])]
                            ns) k))
    /\ Z.of_nat (total_stored st')
       = (Z.of_nat (total_stored organism_image) + counter_map_ann)%Z.
Proof.
  apply (append_dict_final_state NSCLIENTMAPANNOTATION
           ["Biosample info"; "Organism"] every_delete_succeeds append_params
           two_species [] []
           [("Biosample info", [("species", ["mouse"; "rat"])])] organism_image).
  - reflexivity.
  - discriminate.
  - intros n. reflexivity.
  - reflexivity.
  - discriminate.
Defined.

(** * Further properties of the engine: the flat key/value list *)

Lemma total_stored_split st namespace :
  total_stored st
  = length
      (flat_map (fun a => match a with
                          | MapAnnotation _ kvs => kvs
                          | TagAnnotation _ _ => []
                          end)
         (filter (fun a => negb (is_map_with namespace a)) (image_annotations st)))
    + pairs_under st namespace.
Proof.
  unfold total_stored, pairs_under.
  induction (image_annotations st) as [|[id value|ns kvs] l IH]; simpl.
  - reflexivity.
  - exact IH.
  - destruct (String.eqb ns namespace); simpl; rewrite !length_app; lia.
Qed.

Lemma pair_mem_app p u q :
  pair_mem p (u ++ [q]) = pair_mem p u || pair_eqb p q.
Proof.
  unfold pair_mem. rewrite existsb_app. simpl. rewrite orb_false_r. reflexivity.
Qed.

Lemma pair_eqb_false p q : p <> q -> pair_eqb p q = false.
Proof.
  intros Hne. destruct (pair_eqb p q) eqn:E; [|reflexivity].
  exfalso. apply Hne. unfold pair_eqb in E.
  apply andb_true_iff in E. destruct E as [H1 H2].
  apply String.eqb_eq in H1, H2. destruct p, q. simpl in *. congruence.
Qed.

(** On a list without repetition, the loop of lines 574-577 appends the
    strictly new pairs and counts them. *)
Lemma append_new_pairs_spec new : forall updated counter,
  NoDup new ->
  append_new_pairs new (updated, counter)
  = (updated ++ strictly_new new updated,
     (counter + Z.of_nat (length (strictly_new new updated)))%Z).
Proof.
  unfold strictly_new.
  induction new as [|p new IH]; intros updated counter Hnd.
  - unfold append_new_pairs. simpl. rewrite app_nil_r, Z.add_0_r. reflexivity.
  - inversion Hnd as [|? ? Hnotin Hnd']. subst.
    rewrite append_new_pairs_cons. cbn [filter].
    destruct (pair_mem p updated) eqn:E; cbn [negb].
    + apply IH. exact Hnd'.
    + rewrite (IH _ _ Hnd').
      assert (Hf : filter (fun q => negb (pair_mem q (updated ++ [p]))) new
                   = filter (fun q => negb (pair_mem q updated)) new).
      { apply filter_ext_in. intros q Hq. rewrite pair_mem_app.
        rewrite (pair_eqb_false q p); [rewrite orb_false_r; reflexivity|].
        intros Heq. subst. contradiction. }
      rewrite Hf, <- app_assoc. cbn [length app]. f_equal. lia.
Qed.

Section FlatPairs.

Variable DEFAULT_NAMESPACE : string.
Variable directory : list string.
Variable delete_outcome : nat -> option delete_failure.

(** [append_list] when the delete succeeds. *)
Lemma append_list_success l counter st :
  (forall n, delete_outcome n = None) ->
  directory = [] ->
  NoDup l ->
  let stored_list :=
    items_to_pairs (inner_of (get_existing_map_annotations st) DEFAULT_NAMESPACE) in
  exists st',
    append_list DEFAULT_NAMESPACE directory delete_outcome l counter st
    = (Ok (counter + Z.of_nat (length (strictly_new l stored_list)))%Z, st')
    /\ image_annotations st'
       = filter (fun a => negb (is_map_with DEFAULT_NAMESPACE a))
           (image_annotations st)
         ++ [MapAnnotation DEFAULT_NAMESPACE
               (stored_list ++ strictly_new l stored_list)].
Proof.
  intros Hok Hdir Hnd stored_list. unfold append_list. rewrite Hdir.
  cbn [length Nat.eqb assert]. unfold bind at 1. cbn [ret].
  unfold bind at 1. cbn [gets].
  assert (Hex : match dict_get (get_existing_map_annotations st) DEFAULT_NAMESPACE with
                | Some kvs => items_to_pairs kvs
                | None => []
                end = stored_list).
  { unfold stored_list, inner_of.
    destruct (dict_get (get_existing_map_annotations st) DEFAULT_NAMESPACE);
      reflexivity. }
  rewrite Hex.
  rewrite (append_new_pairs_spec l stored_list counter Hnd).
  unfold bind at 1. rewrite (remove_map_annotations_success _ _ _ (Hok _)).
  unfold bind. cbn [link_map ret].
  eexists. split; reflexivity.
Qed.

(** [overwrite_list] when the delete succeeds. *)
Lemma overwrite_list_returns l counter st :
  (forall n, delete_outcome n = None) ->
  directory = [] ->
  exists st',
    overwrite_list DEFAULT_NAMESPACE directory delete_outcome l counter st
    = (Ok (counter + Z.of_nat (length l))%Z, st')
    /\ image_annotations st'
       = filter (fun a => negb (is_map_with DEFAULT_NAMESPACE a))
           (image_annotations st)
         ++ [MapAnnotation DEFAULT_NAMESPACE
               (l ++ items_to_pairs
                       (inner_of (get_existing_map_annotations st)
                          DEFAULT_NAMESPACE))].
Proof.
  intros Hok Hdir.
  assert (Hlog : every_delete_logged delete_outcome).
  { intros n ex H. rewrite Hok in H. discriminate. }
  pose proof (overwrite_list_ok DEFAULT_NAMESPACE directory delete_outcome
                l counter st Hlog Hdir) as Hfst.
  pose proof (overwrite_list_success DEFAULT_NAMESPACE directory delete_outcome
                l counter st Hok Hdir) as Hsnd.
  destruct (overwrite_list DEFAULT_NAMESPACE directory delete_outcome l counter st)
    as [r st'].
  cbn [fst snd] in Hfst, Hsnd. subst r. exists st'. split; [reflexivity|exact Hsnd].
Qed.

End FlatPairs.

Lemma total_after_rewrite st st' namespace pairs :
  image_annotations st'
  = filter (fun a => negb (is_map_with namespace a)) (image_annotations st)
    ++ [MapAnnotation namespace pairs] ->
  total_stored st' + pairs_under st namespace = total_stored st + length pairs.
Proof.
  intros H. rewrite (total_stored_split st namespace).
  unfold total_stored at 1. rewrite H, flat_map_app, length_app. simpl.
  rewrite app_nil_r. lia.
Qed.

Lemma stored_after_rewrite st st' namespace pairs ns k v :
  image_annotations st'
  = filter (fun a => negb (is_map_with namespace a)) (image_annotations st)
    ++ [MapAnnotation namespace pairs] ->
  (stored st' ns k v
   <-> (ns <> namespace /\ stored st ns k v)
       \/ (ns = namespace /\ In (k, v) pairs)).
Proof.
  intros H. unfold stored at 1.
  rewrite H, stored_in_app, stored_in_without, stored_in_map. tauto.
Qed.

(** X17: Append without a directory, when the delete succeeds: the run
    returns; the net key/value count is the number of strictly new pairs,
    the pairs of the new list that the default namespace did not hold;
    afterwards the default namespace holds the pairs it held and the new
    ones, the other namespaces are untouched, and the pairs stored on the
    image grew by the count returned. *)
Theorem append_list_final_state default delete_outcome params data new_tags l d st :
  What_to_do_with_existing_Annotations params = Append ->
  (forall n, delete_outcome n = None) ->
  split_data default [] params data = Ok (new_tags, l, d) ->
  l <> [] ->
  let stored_list :=
    items_to_pairs (inner_of (get_existing_map_annotations st) default) in
  exists counter_tag_ann st',
    annotateObject default [] delete_outcome params data st
    = (Ok (Z.of_nat (length (strictly_new l stored_list)), counter_tag_ann), st')
    /\ (forall k v,
          stored st' default k v <-> stored st default k v \/ In (k, v) l)
    /\ (forall ns k v,
          ns <> default -> (stored st' ns k v <-> stored st ns k v))
    /\ total_stored st' = total_stored st + length (strictly_new l stored_list).
Proof.
  intros Hp Hok Hs Hl stored_list.
  assert (Hd : d = []).
  { unfold split_data in Hs. eapply split_loop_flat_mode; eauto. }
  subst d.
  assert (Hnd : NoDup l).
  { unfold split_data in Hs.
    destruct (split_loop_flat_pairs default [] params data _ _ _ _ _ _ eq_refl Hs)
      as [_ H]. apply H. constructor. }
  rewrite (annotateObject_append default [] delete_outcome
             params data new_tags l [] st Hp Hs).
  destruct (append_tags_phase new_tags st) as (s1 & HA & _).
  pose proof (append_tags_phase_maps new_tags st) as Hm.
  rewrite HA in Hm. cbn [snd] in Hm.
  unfold bind at 1. rewrite HA. cbn [length Nat.ltb Nat.leb].
  unfold bind at 1. cbn [ret].
  destruct l as [|p l']; [congruence|]. cbn [length Nat.ltb Nat.leb].
  set (l := p :: l') in *.
  destruct (append_list_success default [] delete_outcome l 0%Z s1 Hok eq_refl Hnd)
    as (st' & Heq & Hann).
  cbv zeta in Heq, Hann.
  rewrite (same_maps_same_existing st s1 Hm) in Heq, Hann.
  fold stored_list in Heq, Hann.
  unfold bind. rewrite Heq. cbn [ret].
  eexists. exists st'. split; [reflexivity|].
  assert (Hmem : forall k v, In (k, v) stored_list <-> stored st default k v).
  { intros k v. apply get_existing_pairs. }
  split; [|split].
  - intros k v. rewrite (stored_after_rewrite s1 st' default _ default k v Hann).
    rewrite in_app_iff, Hmem. unfold strictly_new. rewrite filter_In.
    split.
    + intros [[Hne _]|[_ [H|[H _]]]]; [congruence|auto|auto].
    + intros [H|H]; right; split; auto.
      destruct (pair_mem (k, v) stored_list) eqn:E.
      * left. apply Hmem. apply pair_mem_In. exact E.
      * right. auto.
  - intros ns k v Hne.
    rewrite (stored_after_rewrite s1 st' default _ ns k v Hann).
    rewrite (same_maps_same_stored st s1 ns k v Hm). tauto.
  - pose proof (total_after_rewrite s1 st' default _ Hann) as Ht.
    rewrite length_app in Ht.
    pose proof (get_existing_size s1 default) as Hsz.
    rewrite (same_maps_same_existing st s1 Hm) in Hsz.
    unfold inner_size in Hsz. fold stored_list in Hsz.
    rewrite (same_maps_same_total st s1 Hm) in Ht. lia.
Qed.

Lemma append_list_final_state_witness :
  let stored_list :=
    items_to_pairs
      (inner_of (get_existing_map_annotations rat_image) NSCLIENTMAPANNOTATION) in
  exists counter_tag_ann st',
    annotateObject NSCLIENTMAPANNOTATION [] every_delete_succeeds append_params
      bio_hierarchy rat_image
    = (Ok (Z.of_nat (length (strictly_new [("species", "mouse")] stored_list)),
           counter_tag_ann), st')
    /\ (forall k v,
          stored st' NSCLIENTMAPANNOTATION k v
          <-> stored rat_image NSCLIENTMAPANNOTATION k v
              \/ In (k, v) [("species", "mouse")])
    /\ (forall ns k v,
          ns <> NSCLIENTMAPANNOTATION ->
          (stored st' ns k v <-> stored rat_image ns k v))
    /\ total_stored st'
       = total_stored rat_image
         + length (strictly_new [("species", "mouse")] stored_list).
Proof.
  apply (append_list_final_state NSCLIENTMAPANNOTATION every_delete_succeeds
           append_params bio_hierarchy ["untagged"] [("species", "mouse")] []
           rat_image).
  - reflexivity.
  - intros n. reflexivity.
  - reflexivity.
  - discriminate.
Defined.

(** X18: Overwrite without a directory, when the delete succeeds: the map
    annotations of the default namespace are replaced by one annotation
    that lists the new pairs followed by the pairs of the snapshot, a pair
    that is both new and stored being listed twice; the annotations of the
    other namespaces stay, and the pairs stored on the image grow by the
    length of the new list, which is the count returned. *)
Theorem overwrite_list_final_state
  default delete_outcome params data new_tags l d st :
  What_to_do_with_existing_Annotations params = Overwrite ->
  (forall n, delete_outcome n = None) ->
  split_data default [] params data = Ok (new_tags, l, d) ->
  l <> [] ->
  exists counter_tag_ann st',
    annotateObject default [] delete_outcome params data st
    = (Ok (Z.of_nat (length l), counter_tag_ann), st')
    /\ maps_of st'
       = filter (fun a => negb (is_map_with default a)) (maps_of st)
         ++ [MapAnnotation default
               (l ++ items_to_pairs
                       (inner_of (get_existing_map_annotations st) default))]
    /\ total_stored st' = total_stored st + length l.
Proof.
  intros Hp Hok Hs Hl.
  assert (Hd : d = []).
  { unfold split_data in Hs. eapply split_loop_flat_mode; eauto. }
  subst d.
  rewrite (annotateObject_overwrite default [] delete_outcome
             params data new_tags l [] st Hp Hs).
  destruct (overwrite_tags_phase new_tags st) as (s1 & HA & _).
  pose proof (overwrite_tags_phase_maps new_tags st) as Hm.
  rewrite HA in Hm. cbn [snd] in Hm.
  unfold bind at 1. rewrite HA.
  destruct l as [|p l']; [congruence|]. cbn [length Nat.ltb Nat.leb].
  set (l := p :: l') in *.
  destruct (overwrite_list_returns default [] delete_outcome l 0%Z s1 Hok eq_refl)
    as (st' & Heq & Hann).
  rewrite (same_maps_same_existing st s1 Hm) in Hann.
  unfold bind at 1. rewrite Heq. unfold bind. cbn [ret].
  eexists. exists st'. split; [reflexivity|]. split.
  - unfold maps_of at 1. rewrite Hann, filter_app. cbn [filter is_tag negb].
    f_equal. rewrite <- Hm. unfold maps_of.
    clear. induction (image_annotations s1) as [|[id value|ns kvs] anns IH]; simpl.
    + reflexivity.
    + exact IH.
    + destruct (String.eqb ns default); simpl; congruence.
  - pose proof (total_after_rewrite s1 st' default _ Hann) as Ht.
    rewrite length_app in Ht.
    pose proof (get_existing_size s1 default) as Hsz.
    rewrite (same_maps_same_existing st s1 Hm) in Hsz.
    unfold inner_size in Hsz.
    rewrite (same_maps_same_total st s1 Hm) in Ht.
    subst l. cbn [length] in *. lia.
Qed.

Lemma overwrite_list_final_state_witness :
  exists counter_tag_ann st',
    annotateObject NSCLIENTMAPANNOTATION [] every_delete_succeeds overwrite_params
      mouse_species mouse_image_kv
    = (Ok (Z.of_nat (length [("species", "mouse")]), counter_tag_ann), st')
    /\ maps_of st'
       = filter (fun a => negb (is_map_with NSCLIENTMAPANNOTATION a))
           (maps_of mouse_image_kv)
         ++ [MapAnnotation NSCLIENTMAPANNOTATION
               ([("species", "mouse")]
                ++ items_to_pairs
                     (inner_of (get_existing_map_annotations mouse_image_kv)
                        NSCLIENTMAPANNOTATION))]
    /\ total_stored st' = total_stored mouse_image_kv + length [("species", "mouse")].
Proof.
  apply (overwrite_list_final_state NSCLIENTMAPANNOTATION every_delete_succeeds
           overwrite_params mouse_species [] [("species", "mouse")] []
           mouse_image_kv).
  - reflexivity.
  - intros n. reflexivity.
  - reflexivity.
  - discriminate.
Defined.

(** * Further properties of the engine: a run of Append *)

Lemma append_link_tags_linked new_tags existing_tags tag_dict : forall counter st t,
  linked (snd (append_link_tags new_tags existing_tags tag_dict counter st)) t
  <-> linked st t \/ (In t new_tags /\ ~ In t existing_tags).
Proof.
  induction new_tags as [|tag new_tags IH]; intros counter st t; simpl.
  - tauto.
  - destruct (list_mem tag existing_tags) eqn:E.
    + rewrite IH. apply list_mem_In in E. split.
      * intros [H|[H1 H2]]; auto.
      * intros [H|[[H1|H1] H2]]; auto. subst. contradiction.
    + apply list_mem_false in E.
      destruct (dict_get tag_dict tag) as [tag_id|].
      * unfold bind. cbn [link_tag]. rewrite IH.
        unfold linked, get_linked_tag_annotations. simpl.
        rewrite flat_map_app, in_app_iff. simpl. split.
        -- intros [[H|[H|[]]]|[H1 H2]]; auto. subst. auto.
        -- intros [H|[[H1|H1] H2]]; auto.
      * unfold bind. cbn [save_tag link_tag]. rewrite IH.
        unfold linked, get_linked_tag_annotations. simpl.
        rewrite flat_map_app, in_app_iff. simpl. split.
        -- intros [[H|[H|[]]]|[H1 H2]]; auto. subst. auto.
        -- intros [H|[[H1|H1] H2]]; auto.
Qed.

Lemma append_tags_phase_linked new_tags st t :
  linked (snd ((if 0 <? length new_tags
                then append_tags new_tags 0 else ret 0%Z) st)) t
  <-> linked st t \/ In t new_tags.
Proof.
  destruct new_tags as [|tag new_tags].
  - simpl. tauto.
  - cbn [length Nat.ltb Nat.leb]. unfold append_tags, bind, gets.
    rewrite append_link_tags_linked. unfold linked.
    destruct (list_mem t (get_linked_tag_annotations st)) eqn:E.
    + apply list_mem_In in E. tauto.
    + apply list_mem_false in E. tauto.
Qed.

Lemma append_link_tags_noop new_tags existing_tags tag_dict : forall counter st,
  (forall t, In t new_tags -> In t existing_tags) ->
  append_link_tags new_tags existing_tags tag_dict counter st = (Ok counter, st).
Proof.
  induction new_tags as [|tag new_tags IH]; intros counter st H; simpl.
  - reflexivity.
  - assert (E : list_mem tag existing_tags = true).
    { apply list_mem_In. apply H. left. reflexivity. }
    rewrite E. apply IH. intros t Ht. apply H. right. exact Ht.
Qed.

Lemma append_tags_phase_noop new_tags st :
  (forall t, In t new_tags -> linked st t) ->
  snd ((if 0 <? length new_tags then append_tags new_tags 0 else ret 0%Z) st) = st.
Proof.
  intros H. destruct (0 <? length new_tags); [|reflexivity].
  unfold append_tags, bind, gets. rewrite append_link_tags_noop; [reflexivity|].
  exact H.
Qed.

Lemma tags_to_link_nil new_tags existing_tags :
  (forall t, In t new_tags -> In t existing_tags) ->
  tags_to_link new_tags existing_tags = [].
Proof.
  unfold tags_to_link. induction new_tags as [|tag new_tags IH]; intros H; simpl.
  - reflexivity.
  - assert (E : list_mem tag existing_tags = true).
    { apply list_mem_In. apply H. left. reflexivity. }
    rewrite E. simpl. apply IH. intros t Ht. apply H. right. exact Ht.
Qed.

Lemma strictly_new_nil new existing :
  (forall p, In p new -> In p existing) ->
  strictly_new new existing = [].
Proof.
  unfold strictly_new. induction new as [|p new IH]; intros H; simpl.
  - reflexivity.
  - assert (E : pair_mem p existing = true).
    { apply pair_mem_In. apply H. left. reflexivity. }
    rewrite E. simpl. apply IH. intros q Hq. apply H. right. exact Hq.
Qed.

(** Values that are all present add nothing. *)
Lemma add_values_absorb values : forall present,
  (forall v, In v values -> In v present) ->
  add_values values present = present.
Proof.
  unfold add_values.
  induction values as [|value values IH]; intros present H; simpl.
  - reflexivity.
  - assert (E : list_mem value present = true).
    { apply list_mem_In. apply H. left. reflexivity. }
    rewrite E. apply IH. intros v Hv. apply H. right. exact Hv.
Qed.

Lemma add_key_values_absorb kvs : forall inner,
  (forall k values v,
      In (k, values) kvs -> In v values -> In v (values_of inner k)) ->
  inner_size (add_key_values kvs inner) = inner_size inner.
Proof.
  induction kvs as [|[key values] kvs IH]; intros inner H.
  - reflexivity.
  - rewrite add_key_values_cons.
    rewrite (add_values_absorb values (values_of inner key)).
    2:{ intros v Hv. apply (H key values v); [left; reflexivity|exact Hv]. }
    rewrite IH.
    + pose proof (inner_size_set inner key (values_of inner key)). lia.
    + intros k vs v Hin Hv. rewrite values_of_set.
      destruct (String.eqb_spec k key) as [->|Hne];
        apply (H _ vs v); [right; exact Hin|exact Hv|right; exact Hin|exact Hv].
Qed.

Lemma merge_dicts_absorb new : forall e,
  (forall ns kvs k values v,
      In (ns, kvs) new -> In (k, values) kvs -> In v values ->
      In v (values_of (inner_of e ns) k)) ->
  dict_size (merge_dicts new e) = dict_size e.
Proof.
  induction new as [|[namespace kvs] new IH]; intros e H.
  - reflexivity.
  - rewrite merge_dicts_cons, IH.
    + pose proof (dict_size_set e namespace
                    (add_key_values kvs (inner_of e namespace))) as Hs.
      rewrite (add_key_values_absorb kvs (inner_of e namespace)) in Hs.
      * lia.
      * intros k values v Hin Hv.
        apply (H namespace kvs k values v); [left; reflexivity|exact Hin|exact Hv].
    + intros ns kvs0 k values v Hin Hkv Hv. rewrite inner_of_set.
      destruct (String.eqb_spec ns namespace) as [->|Hne].
      * apply add_key_values_values. left.
        apply (H namespace kvs0 k values v); [right; exact Hin|exact Hkv|exact Hv].
      * apply (H ns kvs0 k values v); [right; exact Hin|exact Hkv|exact Hv].
Qed.

(** The dict of Append, when every delete succeeds. *)
Lemma append_dict_phase directory delete_outcome d st :
  (forall n, delete_outcome n = None) ->
  directory <> [] ->
  wf_kv_dict d ->
  exists c st',
    (if 0 <? length d
     then append_dict directory delete_outcome d 0 else ret 0%Z) st
    = (Ok c, st')
    /\ c = (Z.of_nat (dict_size (merge_dicts d (get_existing_map_annotations st)))
            - Z.of_nat (dict_size (get_existing_map_annotations st)))%Z
    /\ map_frame st st'
    /\ (forall ns k v,
          stored st' ns k v
          <-> stored st ns k v \/ In v (values_of (inner_of d ns) k)).
Proof.
  intros Hok Hdir Hwfd. destruct d as [|x d'].
  - exists 0%Z, st. simpl. split; [reflexivity|].
    split; [unfold merge_dicts; simpl; lia|]. split; [apply map_frame_refl|].
    intros ns k v. unfold inner_of, values_of. simpl. tauto.
  - cbn [length Nat.ltb Nat.leb]. set (d := x :: d') in *.
    destruct (append_dict_success directory delete_outcome d 0%Z st Hok Hdir)
      as (st' & Heq & Hann & Hst).
    pose proof (append_dict_frame directory delete_outcome d 0%Z st) as Htags.
    rewrite Heq in Htags. cbn [snd] in Htags.
    set (existing := get_existing_map_annotations st) in *.
    set (merged := merge_dicts d existing) in *.
    eexists. exists st'. split; [exact Heq|]. split; [lia|].
    split; [exact Htags|].
    assert (Hwf : wf_kv_dict merged).
    { apply merge_dicts_wf. apply get_existing_wf. }
    intros ns k v. rewrite Hst.
    assert (Hlook : In v (values_of (inner_of merged ns) k)
                    <-> stored st ns k v \/ In v (values_of (inner_of d ns) k)).
    { unfold merged. rewrite merge_dicts_values.
      unfold existing. rewrite get_existing_values.
      rewrite (lookup_entries d ns k v Hwfd). tauto. }
    unfold inner_of in Hlook at 1.
    destruct (dict_get merged ns) as [kvs|] eqn:Eg.
    + rewrite items_to_pairs_In; [exact Hlook|].
      replace kvs with (inner_of merged ns)
        by (unfold inner_of; rewrite Eg; reflexivity).
      apply wf_inner_of. exact Hwf.
    + simpl in Hlook. tauto.
Qed.

(** The flat list of Append, when the delete succeeds. *)
Lemma append_list_phase default delete_outcome l counter st :
  (forall n, delete_outcome n = None) ->
  NoDup l ->
  exists st',
    (if 0 <? length l
     then append_list default [] delete_outcome l counter else ret counter) st
    = (Ok (counter
           + Z.of_nat
               (length
                  (strictly_new l
                     (items_to_pairs
                        (inner_of (get_existing_map_annotations st) default)))))%Z,
       st')
    /\ map_frame st st'
    /\ (forall ns k v,
          stored st' ns k v
          <-> stored st ns k v \/ (ns = default /\ In (k, v) l)).
Proof.
  intros Hok Hnd. destruct l as [|p l'].
  - exists st. simpl. rewrite Z.add_0_r. split; [reflexivity|].
    split; [apply map_frame_refl|]. intros ns k v. tauto.
  - cbn [length Nat.ltb Nat.leb]. set (l := p :: l') in *.
    destruct (append_list_success default [] delete_outcome l counter st
                Hok eq_refl Hnd) as (st' & Heq & Hann).
    cbv zeta in Heq, Hann.
    pose proof (append_list_frame default [] delete_outcome l counter st)
      as Htags.
    rewrite Heq in Htags. cbn [snd] in Htags.
    exists st'. split; [exact Heq|]. split; [exact Htags|].
    intros ns k v.
    rewrite (stored_after_rewrite st st' default _ ns k v Hann).
    rewrite in_app_iff, get_existing_pairs.
    unfold strictly_new. rewrite filter_In. split.
    + intros [[Hne H]|[-> [H|[H _]]]]; auto.
    + intros [H|[-> H]].
      * destruct (String.eqb_spec ns default) as [->|Hne]; auto.
      * right. split; [reflexivity|].
        destruct (pair_mem (k, v)
                    (items_to_pairs
                       (inner_of (get_existing_map_annotations st) default)))
          eqn:E.
        -- left. apply get_existing_pairs. apply pair_mem_In. exact E.
        -- right. auto.
Qed.

(** A run of Append, when every delete succeeds. *)
Lemma append_run default directory delete_outcome params data new_tags l d st :
  What_to_do_with_existing_Annotations params = Append ->
  (forall n, delete_outcome n = None) ->
  split_data default directory params data = Ok (new_tags, l, d) ->
  exists counter_map_ann st',
    annotateObject default directory delete_outcome params data st
    = (Ok (counter_map_ann,
           Z.of_nat (length (tags_to_link new_tags
                               (get_linked_tag_annotations st)))), st')
    /\ (forall t, linked st' t <-> linked st t \/ In t new_tags)
    /\ (forall ns k v,
          stored st' ns k v <-> stored st ns k v \/ new_content default l d ns k v)
    /\ ((forall ns k v, new_content default l d ns k v -> stored st ns k v) ->
        counter_map_ann = 0%Z)
    /\ ((forall t, In t new_tags -> linked st t) ->
        forall id t,
          In (Linked_tag id t) (trace st') -> In (Linked_tag id t) (trace st)).
Proof.
  intros Hp Hok Hs.
  rewrite (annotateObject_append default directory delete_outcome
             params data new_tags l d st Hp Hs).
  destruct (append_tags_phase new_tags st) as (s1 & HA & _ & _ & Hst1).
  pose proof (append_tags_phase_linked new_tags st) as Hl1.
  rewrite HA in Hl1. cbn [snd] in Hl1.
  pose proof (append_tags_phase_noop new_tags st) as Hnoop.
  rewrite HA in Hnoop. cbn [snd] in Hnoop.
  unfold bind at 1. rewrite HA.
  destruct directory as [|n dir].
  - assert (Hd : d = []).
    { unfold split_data in Hs. eapply (split_loop_flat_mode default []); eauto. }
    subst d.
    assert (Hnd : NoDup l).
    { unfold split_data in Hs.
      destruct (split_loop_flat_pairs default [] params data _ _ _ _ _ _ eq_refl Hs)
        as [_ H]. apply H. constructor. }
    change (0 <? length (@nil (string * key_values))) with false. cbv iota.
    unfold bind at 1. cbn [ret].
    destruct (append_list_phase default delete_outcome l 0%Z s1 Hok Hnd)
      as (st' & Heq & Htags & Hst).
    unfold bind. rewrite Heq. cbn [ret].
    eexists. exists st'. split; [reflexivity|]. split; [|split; [|split]].
    + intros t. rewrite <- Hl1. unfold linked.
      rewrite (same_tags_same_linked s1 st' (proj1 Htags)). tauto.
    + intros ns k v. rewrite Hst, Hst1.
      unfold new_content, inner_of, values_of. simpl. tauto.
    + intros Hall. rewrite strictly_new_nil; [reflexivity|].
      intros [k v] Hin. apply get_existing_pairs. apply Hst1. apply Hall.
      right. auto.
    + intros Hall id t Hin. rewrite <- (Hnoop Hall).
      apply (proj2 Htags). exact Hin.
  - assert (Hdir : n :: dir <> []) by discriminate.
    assert (Hl : l = []).
    { unfold split_data in Hs. eapply (split_loop_mapr_mode default (n :: dir)); eauto. }
    subst l.
    pose proof (tidy_wf d (split_data_tidy default (n :: dir) params data
                             new_tags [] d Hs)) as Hwfd.
    destruct (append_dict_phase (n :: dir) delete_outcome d s1 Hok Hdir Hwfd)
      as (c & st' & Heq & Hc & Htags & Hst).
    unfold bind at 1. rewrite Heq. cbn [length Nat.ltb Nat.leb].
    unfold bind. cbn [ret].
    exists c, st'. split; [reflexivity|]. split; [|split; [|split]].
    + intros t. rewrite <- Hl1. unfold linked.
      rewrite (same_tags_same_linked s1 st' (proj1 Htags)). tauto.
    + intros ns k v. rewrite Hst, Hst1. unfold new_content. simpl. tauto.
    + intros Hall. rewrite Hc, merge_dicts_absorb; [lia|].
      intros ns kvs k values v H1 H2 H3.
      apply get_existing_values. apply Hst1. apply Hall. left.
      apply (lookup_entries d ns k v Hwfd). eauto.
    + intros Hall id t Hin. rewrite <- (Hnoop Hall).
      apply (proj2 Htags). exact Hin.
Qed.

(** X19: Append is idempotent when every delete succeeds: after a run that
    returned, a second run on the same input returns the counts (0, 0); it
    links no tag and leaves the tags linked to the image and the pairs
    stored on it as the first run left them. *)
Theorem append_twice_adds_nothing
  default directory delete_outcome params data counters st st1 :
  What_to_do_with_existing_Annotations params = Append ->
  (forall n, delete_outcome n = None) ->
  annotateObject default directory delete_outcome params data st
  = (Ok counters, st1) ->
  exists st2,
    annotateObject default directory delete_outcome params data st1
    = (Ok (0%Z, 0%Z), st2)
    /\ (forall t, linked st2 t <-> linked st1 t)
    /\ (forall ns k v, stored st2 ns k v <-> stored st1 ns k v)
    /\ (forall id t,
          In (Linked_tag id t) (trace st2) -> In (Linked_tag id t) (trace st1)).
Proof.
  intros Hp Hok Hrun.
  destruct (split_data default directory params data) as [[[new_tags l] d]|e] eqn:Hs.
  2:{ rewrite (annotateObject_raise default directory delete_outcome
                 params data e st Hs) in Hrun. discriminate. }
  destruct (append_run default directory delete_outcome params data new_tags l d st
              Hp Hok Hs) as (c1 & s1 & Heq1 & Hl1 & Hst1 & _ & _).
  rewrite Hrun in Heq1. inversion Heq1. subst s1. clear Heq1.
  destruct (append_run default directory delete_outcome params data new_tags l d st1
              Hp Hok Hs) as (c2 & st2 & Heq2 & Hl2 & Hst2 & Hc2 & Hq2).
  assert (Hlinked : forall t, In t new_tags -> In t (get_linked_tag_annotations st1)).
  { intros t Ht. apply Hl1. right. exact Ht. }
  assert (Hstored : forall ns k v, new_content default l d ns k v -> stored st1 ns k v).
  { intros ns k v H. apply Hst1. right. exact H. }
  rewrite (tags_to_link_nil new_tags _ Hlinked) in Heq2.
  rewrite (Hc2 Hstored) in Heq2.
  exists st2. split; [exact Heq2|]. split; [|split].
  - intros t. rewrite Hl2. split; [intros [H|H]; [exact H|]|auto].
    exact (Hlinked t H).
  - intros ns k v. rewrite Hst2. split; [intros [H|H]; auto|auto].
  - exact (Hq2 Hlinked).
Qed.

Lemma append_twice_adds_nothing_witness :
  exists st2,
    annotateObject NSCLIENTMAPANNOTATION ["Biosample info"; "Organism"]
      every_delete_succeeds append_params two_species
      (snd (annotateObject NSCLIENTMAPANNOTATION ["Biosample info"; "Organism"]
              every_delete_succeeds append_params two_species organism_image))
    = (Ok (0%Z, 0%Z), st2)
    /\ (forall t,
          linked st2 t
          <-> linked
                (snd (annotateObject NSCLIENTMAPANNOTATION
                        ["Biosample info"; "Organism"]
                        every_delete_succeeds append_params two_species
                        organism_image)) t)
    /\ (forall ns k v,
          stored st2 ns k v
          <-> stored
                (snd (annotateObject NSCLIENTMAPANNOTATION
                        ["Biosample info"; "Organism"]
                        every_delete_succeeds append_params two_species
                        organism_image)) ns k v)
    /\ (forall id t,
          In (Linked_tag id t) (trace st2) ->
          In (Linked_tag id t)
            (trace
               (snd (annotateObject NSCLIENTMAPANNOTATION
                       ["Biosample info"; "Organism"]
                       every_delete_succeeds append_params two_species
                       organism_image)))).
Proof.
  apply (append_twice_adds_nothing NSCLIENTMAPANNOTATION
           ["Biosample info"; "Organism"] every_delete_succeeds append_params
           two_species (2%Z, 0%Z) organism_image).
  - reflexivity.
  - intros n. reflexivity.
  - reflexivity.
Defined.

(** * Further properties of the engine: runs that write nothing *)

(** X20: the input is normalized before the server is read or written: a
    hierarchy that the normalizer rejects makes the run raise the
    normalizer's exception with the store as it was, nothing deleted,
    saved or linked, under either policy. *)
Theorem rejected_input_changes_nothing
  default directory delete_outcome params data e st :
  split_data default directory params data = Raise e ->
  annotateObject default directory delete_outcome params data st = (Raise e, st).
Proof.
  intros H. unfold annotateObject, bind at 1, lift. rewrite H. reflexivity.
Qed.

Lemma rejected_input_changes_nothing_witness :
  annotateObject NSCLIENTMAPANNOTATION [] every_delete_succeeds overwrite_params
    [(Some "01_Bio", [("_workspace", ["untagged"])])] mouse_image_kv
  = (Raise (AssertionError (Problem_with "01_Bio" "_workspace" ["untagged"])),
     mouse_image_kv).
Proof.
  apply (rejected_input_changes_nothing NSCLIENTMAPANNOTATION []
           every_delete_succeeds overwrite_params
           [(Some "01_Bio", [("_workspace", ["untagged"])])]).
  reflexivity.
Defined.

(** X21: when the normalizer returns no tag, no pair and no namespace, the
    run returns the counts (0, 0) with the store as it was, under either
    policy: Overwrite deletes nothing when there is nothing to write. *)
Theorem nothing_to_annotate_changes_nothing
  default directory delete_outcome params data st :
  split_data default directory params data = Ok ([], [], []) ->
  annotateObject default directory delete_outcome params data st
  = (Ok (0%Z, 0%Z), st).
Proof.
  intros H. unfold annotateObject, bind at 1, lift. rewrite H.
  destruct (What_to_do_with_existing_Annotations params); reflexivity.
Qed.

Lemma nothing_to_annotate_changes_nothing_witness :
  annotateObject NSCLIENTMAPANNOTATION [] every_delete_succeeds overwrite_params
    [(None, [("species", ["mouse"])])] mouse_image
  = (Ok (0%Z, 0%Z), mouse_image).
Proof.
  apply (nothing_to_annotate_changes_nothing NSCLIENTMAPANNOTATION []
           every_delete_succeeds overwrite_params
           [(None, [("species", ["mouse"])])]).
  reflexivity.
Defined.

(** * The Namespace Directory read from the configuration *)



Section ConfigurationFacts.

Variable literal_eval : string -> option (list (list string)).





End ConfigurationFacts.

(** * The path sent to the Tabbles database *)

Lemma replace_char_length old new s :
  String.length (replace_char old new s) = String.length s.
Proof.
  induction s as [|c s IH]; cbn [replace_char String.length]; congruence.
Qed.

Lemma replace_char_absent c old new s :
  c <> new -> occurs c s = false -> occurs c (replace_char old new s) = false.
Proof.
  intros Hne. induction s as [|c' s IH]; cbn [replace_char occurs]; [reflexivity|].
  intros H. apply orb_false_iff in H. destruct H as [H1 H2].
  rewrite (IH H2), orb_false_r.
  destruct (Ascii.eqb c' old); [apply Ascii.eqb_neq; exact Hne|exact H1].
Qed.

Lemma replace_char_removes old new s :
  old <> new -> occurs old (replace_char old new s) = false.
Proof.
  intros Hne. induction s as [|c s IH]; cbn [replace_char occurs]; [reflexivity|].
  rewrite IH, orb_false_r.
  destruct (Ascii.eqb_spec c old) as [->|H].
  - apply Ascii.eqb_neq. exact Hne.
  - apply Ascii.eqb_neq. congruence.
Qed.

Lemma replace_char_same old new s :
  occurs old s = false -> replace_char old new s = s.
Proof.
  induction s as [|c s IH]; cbn [replace_char occurs]; [reflexivity|].
  intros H. apply orb_false_iff in H. destruct H as [H1 H2].
  rewrite (IH H2), Ascii.eqb_sym, H1. reflexivity.
Qed.

Lemma replace_char_get old new s : forall n,
  String.get n (replace_char old new s)
  = match String.get n s with
    | Some c => Some (if Ascii.eqb c old then new else c)
    | None => None
    end.
Proof.
  induction s as [|c s IH]; intros n; cbn [replace_char String.get].
  - reflexivity.
  - destruct n as [|n]; [reflexivity|apply IH].
Qed.

(** X23: the path of the query has the length of the imported path and
    holds no semicolon and no slash; every other character, the quote and
    the wildcards of LIKE among them, is where it was; and cleaning a
    cleaned path changes nothing. *)
Theorem final_path_clean raw_path :
  String.length (final_path raw_path) = String.length raw_path
  /\ occurs ";" (final_path raw_path) = false
  /\ occurs "/" (final_path raw_path) = false
  /\ (forall n,
        String.get n (final_path raw_path)
        = match String.get n raw_path with
          | Some c =>
              Some (if Ascii.eqb c ";" then ":"%char
                    else if Ascii.eqb c "/" then "\"%char else c)
          | None => None
          end)
  /\ final_path (final_path raw_path) = final_path raw_path.
Proof.
  assert (Hsemi : occurs ";" (final_path raw_path) = false).
  { unfold final_path. apply replace_char_absent; [discriminate|].
    apply replace_char_removes. discriminate. }
  assert (Hslash : occurs "/" (final_path raw_path) = false).
  { unfold final_path. apply replace_char_removes. discriminate. }
  split; [|split; [exact Hsemi|split; [exact Hslash|split]]].
  - unfold final_path. rewrite !replace_char_length. reflexivity.
  - intros n. unfold final_path. rewrite !replace_char_get.
    destruct (String.get n raw_path) as [c|]; [|reflexivity].
    destruct (Ascii.eqb_spec c ";") as [->|H1]; [reflexivity|].
    reflexivity.
  - unfold final_path at 1.
    rewrite (replace_char_same ";" ":" _ Hsemi).
    apply replace_char_same. exact Hslash.
Qed.

(** * The rows of Tabbles grouped into the hierarchy *)

Lemma namespace_eqb_spec a b : reflect (a = b) (namespace_eqb a b).
Proof.
  destruct a as [x|], b as [y|]; simpl.
  - destruct (String.eqb_spec x y); constructor; congruence.
  - constructor. discriminate.
  - constructor. discriminate.
  - constructor. reflexivity.
Qed.

Lemma namespace_eqb_refl a : namespace_eqb a a = true.
Proof. destruct (namespace_eqb_spec a a); congruence. Qed.

Lemma hier_get_set_eq h ns kvs : hier_get (hier_set h ns kvs) ns = Some kvs.
Proof.
  induction h as [|[n kvs'] h IH]; simpl.
  - rewrite namespace_eqb_refl. reflexivity.
  - destruct (namespace_eqb ns n) eqn:E; simpl; rewrite E; [reflexivity|exact IH].
Qed.

Lemma hier_get_set_neq h ns ns' kvs :
  ns' <> ns -> hier_get (hier_set h ns kvs) ns' = hier_get h ns'.
Proof.
  intros Hne. induction h as [|[n kvs'] h IH]; simpl.
  - destruct (namespace_eqb_spec ns' ns); [contradiction|reflexivity].
  - destruct (namespace_eqb_spec ns n) as [->|H]; simpl.
    + destruct (namespace_eqb_spec ns' n); [contradiction|reflexivity].
    + rewrite IH. reflexivity.
Qed.

Lemma hier_set_set h ns kvs kvs' :
  hier_set (hier_set h ns kvs) ns kvs' = hier_set h ns kvs'.
Proof.
  induction h as [|[n kvs0] h IH]; simpl.
  - rewrite namespace_eqb_refl. reflexivity.
  - destruct (namespace_eqb ns n) eqn:E; simpl; rewrite E; [reflexivity|].
    rewrite IH. reflexivity.
Qed.

Lemma hier_set_In h ns kvs e :
  In e (hier_set h ns kvs) -> e = (ns, kvs) \/ In e h.
Proof.
  induction h as [|[n kvs'] h IH]; simpl.
  - intros [H|[]]. auto.
  - destruct (namespace_eqb_spec ns n) as [->|H]; simpl.
    + intros [H|H]; auto.
    + intros [H'|H']; [auto|]. destruct (IH H'); auto.
Qed.

Lemma hier_set_keys h ns kvs n :
  In n (map fst (hier_set h ns kvs)) -> n = ns \/ In n (map fst h).
Proof.
  intros H. apply in_map_iff in H. destruct H as [e [Hfst Hin]].
  destruct (hier_set_In _ _ _ _ Hin) as [->|Hin'].
  - left. symmetry. exact Hfst.
  - right. rewrite <- Hfst. apply in_map. exact Hin'.
Qed.

Lemma hier_get_In h ns kvs : hier_get h ns = Some kvs -> In (ns, kvs) h.
Proof.
  induction h as [|[n kvs'] h IH]; simpl; [discriminate|].
  destruct (namespace_eqb_spec ns n) as [->|H].
  - intros H. inversion H. left. reflexivity.
  - intros H'. right. apply IH. exact H'.
Qed.

Lemma In_hier_get h ns kvs :
  NoDup (map fst h) -> In (ns, kvs) h -> hier_get h ns = Some kvs.
Proof.
  induction h as [|[n kvs'] h IH]; simpl; intros Hnd Hin; [contradiction|].
  inversion Hnd as [|? ? Hnotin Hnd']. subst.
  destruct Hin as [Heq|Hin].
  - inversion Heq. subst. rewrite namespace_eqb_refl. reflexivity.
  - destruct (namespace_eqb_spec ns n) as [->|H].
    + exfalso. apply Hnotin. apply (in_map fst) in Hin. exact Hin.
    + apply IH; assumption.
Qed.

Lemma hier_set_NoDup h ns kvs :
  NoDup (map fst h) -> NoDup (map fst (hier_set h ns kvs)).
Proof.
  induction h as [|[n kvs'] h IH]; simpl; intros Hnd.
  - constructor; [intros []|constructor].
  - inversion Hnd as [|? ? Hnotin Hnd']. subst.
    destruct (namespace_eqb_spec ns n) as [->|H]; simpl.
    + exact Hnd.
    + constructor; [|apply IH; exact Hnd'].
      intros Hin. destruct (hier_set_keys _ _ _ _ Hin); [congruence|contradiction].
Qed.

Lemma hier_set_Forall (P : key_values -> Prop) h ns kvs :
  Forall (fun e => P (snd e)) h -> P kvs ->
  Forall (fun e => P (snd e)) (hier_set h ns kvs).
Proof.
  intros H Hv. induction h as [|[n kvs'] h IH]; simpl.
  - constructor; [exact Hv|constructor].
  - inversion H as [|? ? H0 H1]. subst.
    destruct (namespace_eqb ns n); constructor; auto.
Qed.

Lemma hier_inner_set h ns kvs ns' :
  hier_inner (hier_set h ns kvs) ns'
  = if namespace_eqb ns' ns then kvs else hier_inner h ns'.
Proof.
  unfold hier_inner. destruct (namespace_eqb_spec ns' ns) as [->|H].
  - rewrite hier_get_set_eq. reflexivity.
  - rewrite hier_get_set_neq by exact H. reflexivity.
Qed.

Lemma hier_inner_P (P : key_values -> Prop) h ns :
  P [] -> Forall (fun e => P (snd e)) h -> P (hier_inner h ns).
Proof.
  intros Hnil Hall. unfold hier_inner.
  destruct (hier_get h ns) as [inner|] eqn:E; [|exact Hnil].
  apply hier_get_In in E. rewrite Forall_forall in Hall. apply (Hall _ E).
Qed.

(** A turn of the loop sets the values of the key of the row, under the
    namespace of the row, to what they were followed by the value of the
    row. *)
Lemma getData_row_eq h namespace key value :
  getData_row h (namespace, key, value)
  = hier_set h namespace
      (dict_set (hier_inner h namespace) key
         (values_of (hier_inner h namespace) key ++ [value])).
Proof.
  unfold getData_row, hier_mem.
  pose proof (ensure_then_update (hier_inner h namespace) key []
                (fun values => values ++ [value])) as Hup.
  cbv beta zeta in Hup. fold (values_of (hier_inner h namespace) key) in Hup.
  unfold hier_inner in *.
  destruct (hier_get h namespace) as [inner|] eqn:E.
  - rewrite E. cbv zeta. f_equal. exact Hup.
  - rewrite hier_get_set_eq. cbv zeta. rewrite hier_set_set. f_equal. exact Hup.
Qed.

Lemma getData_row_values h r namespace key :
  values_of (hier_inner (getData_row h r) namespace) key
  = values_of (hier_inner h namespace) key
    ++ (if row_under namespace key r then [snd r] else []).
Proof.
  destruct r as [[ns k] v]. rewrite getData_row_eq, hier_inner_set.
  unfold row_under. cbn [fst snd].
  destruct (namespace_eqb_spec namespace ns) as [->|Hns]; cbn [andb].
  - rewrite values_of_set. destruct (String.eqb key k) eqn:Ek.
    + apply String.eqb_eq in Ek. subst. reflexivity.
    + rewrite app_nil_r. reflexivity.
  - rewrite app_nil_r. reflexivity.
Qed.

Lemma getData_fold_values rows : forall h namespace key,
  values_of (hier_inner (fold_left getData_row rows h) namespace) key
  = values_of (hier_inner h namespace) key
    ++ map snd (filter (row_under namespace key) rows).
Proof.
  induction rows as [|r rows IH]; intros h namespace key; cbn [fold_left filter].
  - rewrite app_nil_r. reflexivity.
  - rewrite IH, getData_row_values, <- app_assoc.
    destruct (row_under namespace key r); reflexivity.
Qed.

Lemma getData_row_wf h r : wf_hierarchy h -> wf_hierarchy (getData_row h r).
Proof.
  intros [Hnd Hall]. destruct r as [[ns k] v]. rewrite getData_row_eq. split.
  - apply hier_set_NoDup. exact Hnd.
  - apply (hier_set_Forall wf_inner); [exact Hall|].
    apply dict_set_NoDup. apply (hier_inner_P wf_inner); [constructor|exact Hall].
Qed.

Lemma dict_set_not_nil {V} (d : dict V) k v : dict_set d k v <> [].
Proof.
  destruct d as [|[k0 v0] d]; simpl; [discriminate|].
  destruct (String.eqb k k0); discriminate.
Qed.

Lemma getData_row_no_empty h r : no_empty_entry h -> no_empty_entry (getData_row h r).
Proof.
  intros Hall. destruct r as [[ns k] v]. rewrite getData_row_eq.
  apply (hier_set_Forall
           (fun kvs => kvs <> [] /\ Forall (fun kv => snd kv <> []) kvs));
    [exact Hall|].
  split; [apply dict_set_not_nil|].
  apply (dict_set_Forall (fun values : list string => values <> [])).
  - apply (hier_inner_P (fun kvs => Forall (fun kv => snd kv <> []) kvs));
      [constructor|].
    unfold no_empty_entry in Hall. rewrite Forall_forall in *.
    intros e He. apply (Hall e He).
  - destruct (values_of (hier_inner h ns) k); discriminate.
Qed.

Lemma getData_fold_inv (P : hierarchy -> Prop) rows :
  (forall h r, P h -> P (getData_row h r)) ->
  forall h, P h -> P (fold_left getData_row rows h).
Proof.
  intros Hstep. induction rows as [|r rows IH]; intros h Hh; simpl; auto.
Qed.

Lemma getData_wf rows : wf_hierarchy (getData rows).
Proof.
  unfold getData. apply (getData_fold_inv wf_hierarchy); [exact getData_row_wf|].
  split; constructor.
Qed.

(** An entry of a well-formed hierarchy is what the look-up finds. *)
Lemma hier_entry h namespace kvs key values :
  wf_hierarchy h ->
  In (namespace, kvs) h -> In (key, values) kvs ->
  values = values_of (hier_inner h namespace) key.
Proof.
  intros [Hnd Hall] Hin Hkv. unfold hier_inner, values_of.
  rewrite (In_hier_get _ _ _ Hnd Hin).
  rewrite Forall_forall in Hall. pose proof (Hall _ Hin) as Hinner.
  cbn [snd] in Hinner. rewrite (In_dict_get _ _ _ Hinner Hkv). reflexivity.
Qed.

Lemma hier_lookup h namespace key value :
  In value (values_of (hier_inner h namespace) key) ->
  exists kvs values,
    In (namespace, kvs) h /\ In (key, values) kvs /\ In value values.
Proof.
  unfold hier_inner, values_of.
  destruct (hier_get h namespace) as [inner|] eqn:E1; [|intros []].
  destruct (dict_get inner key) as [values|] eqn:E2; [|intros []].
  intros Hv. exists inner, values. split; [apply hier_get_In; exact E1|].
  split; [apply dict_get_In; exact E2|exact Hv].
Qed.

Lemma in_rows_under rows namespace key value :
  In value (map snd (filter (row_under namespace key) rows))
  <-> In (namespace, key, value) rows.
Proof.
  rewrite in_map_iff. split.
  - intros [[[ns k] v] [Hv Hin]]. apply filter_In in Hin.
    destruct Hin as [Hin Hu]. unfold row_under in Hu. cbn [fst snd] in *.
    apply andb_true_iff in Hu. destruct Hu as [H1 H2].
    destruct (namespace_eqb_spec namespace ns); [|discriminate].
    apply String.eqb_eq in H2. subst. exact Hin.
  - intros Hin. exists (namespace, key, value). split; [reflexivity|].
    apply filter_In. split; [exact Hin|]. unfold row_under. cbn [fst snd].
    rewrite namespace_eqb_refl, String.eqb_refl. reflexivity.
Qed.

(** The values listed under a namespace and a key are those of the rows. *)
Lemma getData_entries rows namespace key value :
  (exists kvs values,
      In (namespace, kvs) (getData rows)
      /\ In (key, values) kvs /\ In value values)
  <-> In (namespace, key, value) rows.
Proof.
  rewrite <- in_rows_under. split.
  - intros (kvs & values & Hin & Hkv & Hv).
    rewrite (hier_entry _ _ _ _ _ (getData_wf rows) Hin Hkv) in Hv.
    unfold getData in Hv. rewrite getData_fold_values in Hv. exact Hv.
  - intros Hv. apply hier_lookup. unfold getData.
    rewrite getData_fold_values. exact Hv.
Qed.

(** X24: the loop of [getData] groups the rows and loses none: in the
    hierarchy every namespace and, under it, every key is listed once, and
    the values listed under a namespace and a key are the values of the
    rows with this namespace and this key, in the order of the rows and
    with their repetitions; a namespace without a key and a key without a
    value are never listed. *)
Theorem getData_groups_rows rows :
  wf_hierarchy (getData rows)
  /\ no_empty_entry (getData rows)
  /\ (forall namespace kvs key values,
        In (namespace, kvs) (getData rows) -> In (key, values) kvs ->
        values = map snd (filter (row_under namespace key) rows))
  /\ (forall namespace key value,
        In (namespace, key, value) rows ->
        exists kvs values,
          In (namespace, kvs) (getData rows)
          /\ In (key, values) kvs /\ In value values).
Proof.
  split; [apply getData_wf|]. split; [|split].
  - unfold getData.
    apply (getData_fold_inv no_empty_entry); [exact getData_row_no_empty|].
    constructor.
  - intros namespace kvs key values Hin Hkv.
    rewrite (hier_entry _ _ _ _ _ (getData_wf rows) Hin Hkv).
    unfold getData. rewrite getData_fold_values. reflexivity.
  - intros namespace key value Hin. apply getData_entries. exact Hin.
Qed.

Lemma NoDup_map_filter_rows rows namespace key :
  NoDup (map row_pair rows) ->
  NoDup (map snd (filter (row_under namespace key) rows)).
Proof.
  induction rows as [|r rows IH]; cbn [map filter]; intros Hnd; [constructor|].
  inversion Hnd as [|? ? Hnotin Hnd']. subst.
  destruct (row_under namespace key r) eqn:Hu; [|apply IH; exact Hnd'].
  cbn [map]. constructor; [|apply IH; exact Hnd'].
  intros Hin. apply Hnotin. apply in_rows_under in Hin.
  apply in_map_iff. exists (namespace, key, snd r). split; [|exact Hin].
  unfold row_pair. cbn [fst snd]. destruct r as [[ns k] v].
  unfold row_under in Hu. cbn [fst snd] in *.
  apply andb_true_iff in Hu. destruct Hu as [_ H2].
  apply String.eqb_eq in H2. subst. reflexivity.
Qed.

Lemma NoDup_map_inj {A B} (f : A -> B) l a b :
  NoDup (map f l) -> In a l -> In b l -> f a = f b -> a = b.
Proof.
  induction l as [|x l IH]; cbn [map]; intros Hnd Ha Hb Heq; [contradiction|].
  inversion Hnd as [|? ? Hnotin Hnd']. subst.
  destruct Ha as [->|Ha], Hb as [->|Hb].
  - reflexivity.
  - exfalso. apply Hnotin. rewrite Heq. apply in_map. exact Hb.
  - exfalso. apply Hnotin. rewrite <- Heq. apply in_map. exact Ha.
  - apply IH; assumption.
Qed.

(** X25: when no two rows have the same key and value, which is what
    [drop_duplicates] on the columns 1 and 2 leaves, no list of values of
    the hierarchy repeats a value, and a key and a value are listed under
    one namespace only. *)
Theorem getData_distinct_pairs rows :
  NoDup (map row_pair rows) ->
  (forall namespace kvs key values,
      In (namespace, kvs) (getData rows) -> In (key, values) kvs ->
      NoDup values)
  /\ (forall namespace1 kvs1 values1 namespace2 kvs2 values2 key value,
        In (namespace1, kvs1) (getData rows) -> In (key, values1) kvs1 ->
        In value values1 ->
        In (namespace2, kvs2) (getData rows) -> In (key, values2) kvs2 ->
        In value values2 ->
        namespace1 = namespace2).
Proof.
  intros Hnd. split.
  - intros namespace kvs key values Hin Hkv.
    rewrite (hier_entry _ _ _ _ _ (getData_wf rows) Hin Hkv).
    unfold getData. rewrite getData_fold_values. simpl.
    apply NoDup_map_filter_rows. exact Hnd.
  - intros ns1 kvs1 vs1 ns2 kvs2 vs2 key value H1 H2 H3 H4 H5 H6.
    assert (Hr1 : In (ns1, key, value) rows).
    { apply getData_entries. eauto. }
    assert (Hr2 : In (ns2, key, value) rows).
    { apply getData_entries. eauto. }
    pose proof (NoDup_map_inj row_pair rows _ _ Hnd Hr1 Hr2 eq_refl) as Heq.
    congruence.
Qed.

Lemma getData_distinct_pairs_witness :
  (forall namespace kvs key values,
      In (namespace, kvs)
        (getData [(Some "01_Bio", "species", "mouse");
                  (None, "_workspace", "untagged");
                  (Some "01_Bio", "species", "rat")]) ->
      In (key, values) kvs ->
      NoDup values)
  /\ (forall namespace1 kvs1 values1 namespace2 kvs2 values2 key value,
        In (namespace1, kvs1)
          (getData [(Some "01_Bio", "species", "mouse");
                    (None, "_workspace", "untagged");
                    (Some "01_Bio", "species", "rat")]) ->
        In (key, values1) kvs1 ->
        In value values1 ->
        In (namespace2, kvs2)
          (getData [(Some "01_Bio", "species", "mouse");
                    (None, "_workspace", "untagged");
                    (Some "01_Bio", "species", "rat")]) ->
        In (key, values2) kvs2 ->
        In value values2 ->
        namespace1 = namespace2).
Proof.
  apply (getData_distinct_pairs
           [(Some "01_Bio", "species", "mouse");
            (None, "_workspace", "untagged");
            (Some "01_Bio", "species", "rat")]).
  repeat constructor; simpl; intuition discriminate.
Defined.

(** * From the rows of Tabbles to the output of the normalizer *)

Lemma getData_no_empty rows : no_empty_entry (getData rows).
Proof.
  unfold getData.
  apply (getData_fold_inv no_empty_entry); [exact getData_row_no_empty|].
  constructor.
Qed.

(** Every key listed in the hierarchy comes from a row. *)
Lemma getData_key_has_row rows namespace kvs key values :
  In (namespace, kvs) (getData rows) -> In (key, values) kvs ->
  exists value, In (namespace, key, value) rows.
Proof.
  intros Hin Hkv. pose proof (getData_no_empty rows) as Hne.
  unfold no_empty_entry in Hne. rewrite Forall_forall in Hne.
  destruct (Hne _ Hin) as [_ Hall]. cbn [snd] in Hall.
  rewrite Forall_forall in Hall. pose proof (Hall _ Hkv) as Hv. cbn [snd] in Hv.
  destruct values as [|value values]; [congruence|].
  exists value. apply getData_entries. exists kvs, (value :: values).
  split; [exact Hin|]. split; [exact Hkv|left; reflexivity].
Qed.

Lemma NoDup_map_filter {A B} (f : A -> B) (g : A -> bool) l :
  NoDup (map f l) -> NoDup (map f (filter g l)).
Proof.
  induction l as [|x l IH]; cbn [map filter]; intros Hnd; [constructor|].
  inversion Hnd as [|? ? Hnotin Hnd']. subst.
  destruct (g x); [|apply IH; exact Hnd'].
  cbn [map]. constructor; [|apply IH; exact Hnd'].
  intros Hin. apply Hnotin. apply in_map_iff in Hin.
  destruct Hin as [y [Hy Hin]]. apply filter_In in Hin.
  apply in_map_iff. exists y. tauto.
Qed.

(** X26: without a directory, a run of the normalizer on the grouped rows
    is accepted exactly when no row with a namespace has a key that starts
    with the reserved marker. *)
Theorem rows_accepted_without_directory default params rows :
  (exists out, split_data default [] params (getData rows) = Ok out)
  <-> (forall namespace key value,
          In (Some namespace, key, value) rows -> startswith "_" key = false).
Proof.
  unfold split_data. split.
  - intros [out Hout] namespace key value Hrow.
    destruct (startswith "_" key) eqn:E; [|reflexivity].
    apply getData_entries in Hrow. destruct Hrow as (kvs & values & Hin & Hkv & _).
    destruct (split_loop_flat_marker_key default [] params (getData rows)
                namespace kvs key values eq_refl Hin Hkv E ([], [], []))
      as [e [He _]].
    congruence.
  - intros H. apply split_loop_flat_ok; [reflexivity|].
    intros namespace kvs key values Hin Hkv.
    destruct (getData_key_has_row rows _ _ _ _ Hin Hkv) as [value Hrow].
    apply (H namespace key value Hrow).
Qed.

(** X27: without a directory and with rows that differ in key or value,
    the flat list of the normalizer holds the (key, value) pairs of the
    rows that have a namespace and as many pairs as there are such rows,
    so that the check of line 374 never drops a pair; the tags are the
    values of the rows with the namespace [None] and a key that starts
    with the reserved marker. *)
Theorem rows_to_flat_list default params rows tags l d :
  NoDup (map row_pair rows) ->
  split_data default [] params (getData rows) = Ok (tags, l, d) ->
  (forall key value,
      In (key, value) l <-> exists namespace, In (Some namespace, key, value) rows)
  /\ length l = length (filter has_namespace rows)
  /\ (forall t,
        In t tags
        <-> Process_single_tags params = true
            /\ exists key,
                 startswith "_" key = true /\ In (None, key, t) rows).
Proof.
  intros Hnd Hs. unfold split_data in Hs.
  destruct (split_loop_flat_pairs default [] params (getData rows)
              _ _ _ _ _ _ eq_refl Hs) as [Hin Hndl].
  assert (Hmem : forall key value,
             In (key, value) l
             <-> exists namespace, In (Some namespace, key, value) rows).
  { intros key value. rewrite (Hin (key, value)). cbn [fst snd]. split.
    - intros [[]|(namespace & kvs & values & H1 & H2 & H3)].
      exists namespace. apply getData_entries. eauto.
    - intros [namespace Hrow]. right. apply getData_entries in Hrow.
      destruct Hrow as (kvs & values & H1 & H2 & H3). eauto 6. }
  split; [exact Hmem|]. split.
  - rewrite <- (length_map row_pair (filter has_namespace rows)).
    assert (Hincl : forall p,
               In p l <-> In p (map row_pair (filter has_namespace rows))).
    { intros [key value]. rewrite Hmem, in_map_iff. split.
      - intros [namespace Hrow]. exists (Some namespace, key, value).
        split; [reflexivity|]. apply filter_In. split; [exact Hrow|reflexivity].
      - intros [[[[namespace|] k] v] [Heq Hf]]; apply filter_In in Hf;
          destruct Hf as [Hrow Hns]; [|discriminate].
        inversion Heq. subst. eauto. }
    apply Nat.le_antisymm; apply NoDup_incl_length.
    + apply Hndl. constructor.
    + intros p Hp. apply Hincl. exact Hp.
    + apply NoDup_map_filter. exact Hnd.
    + intros p Hp. apply Hincl. exact Hp.
  - intros t.
    rewrite (split_loop_tags default [] params (getData rows) _ _ _ _ _ _ Hs t).
    split.
    + intros [[]|[Hp (kvs & key & values & H1 & H2 & H3 & H4)]].
      split; [exact Hp|]. exists key. split; [exact H3|].
      apply getData_entries. eauto.
    + intros [Hp [key [Hk Hrow]]]. right. split; [exact Hp|].
      apply getData_entries in Hrow.
      destruct Hrow as (kvs & values & H1 & H2 & H3). eauto 8.
Qed.

Lemma rows_to_flat_list_witness :
  (forall key value,
      In (key, value) [("species", "mouse"); ("species", "rat")]
      <-> exists namespace,
            In (Some namespace, key, value)
              [(Some "01_Bio", "species", "mouse");
               (None, "_workspace", "untagged");
               (Some "01_Bio", "species", "rat")])
  /\ length [("species", "mouse"); ("species", "rat")]
     = length (filter has_namespace
                 [(Some "01_Bio", "species", "mouse");
                  (None, "_workspace", "untagged");
                  (Some "01_Bio", "species", "rat")])
  /\ (forall t,
        In t ["untagged"]
        <-> Process_single_tags overwrite_params = true
            /\ exists key,
                 startswith "_" key = true
                 /\ In (None, key, t)
                      [(Some "01_Bio", "species", "mouse");
                       (None, "_workspace", "untagged");
                       (Some "01_Bio", "species", "rat")]).
Proof.
  apply (rows_to_flat_list NSCLIENTMAPANNOTATION overwrite_params
           [(Some "01_Bio", "species", "mouse");
            (None, "_workspace", "untagged");
            (Some "01_Bio", "species", "rat")]
           ["untagged"] [("species", "mouse"); ("species", "rat")] []).
  - repeat constructor; simpl; intuition discriminate.
  - reflexivity.
Defined.

(** X28: with a directory, the dict of the normalizer lists a value under
    a key of a namespace exactly when a row holds this key and this value
    under a namespace, other than [None], that resolves to it. *)
Theorem rows_to_dict default directory params rows tags l d :
  directory <> [] ->
  split_data default directory params (getData rows) = Ok (tags, l, d) ->
  forall ns k v,
    In v (values_of (inner_of d ns) k)
    <-> exists namespace,
          In (Some namespace, k, v) rows
          /\ resolve default directory namespace = Ok ns.
Proof.
  intros Hdir Hs ns k v. unfold split_data in Hs.
  destruct (split_loop_mapr_dict default directory params (getData rows)
              _ _ _ _ _ _ Hdir Hs) as (Hval & _ & _).
  rewrite Hval. simpl. split.
  - intros [[]|(namespace & kvs & values & H1 & H2 & H3 & H4)].
    exists namespace. split; [|exact H2]. apply getData_entries. eauto.
  - intros [namespace [Hrow Hres]]. right. apply getData_entries in Hrow.
    destruct Hrow as (kvs & values & H1 & H2 & H3). eauto 8.
Qed.

Lemma rows_to_dict_witness :
  In "rat"
    (values_of
       (inner_of [("Biosample info", [("species", ["mouse"; "rat"])])]
          "Biosample info") "species")
  <-> exists namespace,
        In (Some namespace, "species", "rat")
          [(Some "01_Bio", "species", "mouse");
           (None, "_workspace", "untagged");
           (Some "01_Bio", "species", "rat")]
        /\ resolve NSCLIENTMAPANNOTATION ["Biosample info"; "Organism"] namespace
           = Ok "Biosample info".
Proof.
  apply (rows_to_dict NSCLIENTMAPANNOTATION ["Biosample info"; "Organism"]
           overwrite_params
           [(Some "01_Bio", "species", "mouse");
            (None, "_workspace", "untagged");
            (Some "01_Bio", "species", "rat")]
           ["untagged"] []).
  - discriminate.
  - reflexivity.
Defined.

(** * Further properties of the store helpers: the tags unlinked *)

Lemma unlink_events_trace l : forall st,
  trace
    (fold_left
       (fun st a => match a with
                    | TagAnnotation _ value => with_event st (Unlinked_tag value)
                    | MapAnnotation _ _ => st
                    end)
       l st)
  = trace st
    ++ map Unlinked_tag
         (flat_map (fun a => match a with
                             | TagAnnotation _ value => [value]
                             | MapAnnotation _ _ => []
                             end) l).
Proof.
  induction l as [|[id value|ns kvs] l IH]; intros st; simpl.
  - rewrite app_nil_r. reflexivity.
  - rewrite IH. simpl. rewrite <- app_assoc. reflexivity.
  - apply IH.
Qed.

Lemma length_linked l :
  length (filter is_tag l)
  = length (flat_map (fun a => match a with
                               | TagAnnotation _ value => [value]
                               | MapAnnotation _ _ => []
                               end) l).
Proof.
  induction l as [|[id value|ns kvs] l IH]; simpl; congruence.
Qed.

(** X29: [remove_tag_annotations] unlinks every tag of the image and
    deletes none: it returns the number of tags that
    [get_linked_tag_annotations] lists; afterwards that list is empty, the
    map annotations of the image and the tags of the server are as they
    were, and one line is printed for each tag, in the order of the
    list. *)
Theorem remove_tag_annotations_unlinks st :
  fst (remove_tag_annotations st)
  = Ok (length (get_linked_tag_annotations st))
  /\ get_linked_tag_annotations (snd (remove_tag_annotations st)) = []
  /\ maps_of (snd (remove_tag_annotations st)) = maps_of st
  /\ server_tags (snd (remove_tag_annotations st)) = server_tags st
  /\ trace (snd (remove_tag_annotations st))
     = trace st ++ map Unlinked_tag (get_linked_tag_annotations st).
Proof.
  split; [|split; [|split; [|split]]].
  - unfold remove_tag_annotations, get_linked_tag_annotations. cbn [fst].
    rewrite length_linked. reflexivity.
  - apply remove_tag_annotations_linked.
  - unfold remove_tag_annotations, maps_of. cbn [snd].
    rewrite unlink_events_annotations. simpl. apply maps_of_no_tags.
  - apply remove_tag_annotations_linked.
  - unfold remove_tag_annotations, get_linked_tag_annotations. cbn [snd].
    rewrite unlink_events_trace. simpl. rewrite <- linked_of_tags. reflexivity.
Qed.
